(** * cloudvts: storage accounting, trash lifecycle and share links

    A shallow embedding of the Django application [storage_app]
    (models.py and views.py): the relational tables are lists of rows, a
    view is a function from the request data and the world to a response
    and a new world.  The development follows the order of views.py:
    quota and upload, single-file trash operations, folder cascades,
    purge, and share-link resolution. *)

From Stdlib Require Import ZArith Lia.
From Stdlib Require QArith.
From stdpp Require Import base option list gmap strings pretty sorting.

Local Open Scope Z_scope.

(** ** Data model (models.py) *)

Definition UserId := nat.
Definition FolderId := nat.   (* UUID primary keys, opaque *)
Definition FileId := nat.
Definition Time := Z.         (* timezone.now(), seconds *)

Record StoragePlan := {
  plan_id : nat;
  max_storage_size : Z;
  max_file_size : Z
}.

Record UserProfile := {
  user : UserId;
  storage_plan : option StoragePlan;   (* null=True, on_delete=SET_NULL *)
  used_storage : Z
}.

Record Folder := {
  folder_id : FolderId;
  folder_name : string;
  folder_owner : UserId;
  parent_folder : option FolderId;
  folder_is_deleted : bool;
  deleted_at : option Time
}.

Record File := {
  file_id : FileId;
  file_name : string;
  file_file : string;                  (* key of the blob in the object store *)
  size : Z;
  file_owner : UserId;
  file_folder : option FolderId;
  file_is_deleted : bool
}.

Record Trash := {
  trash_id : nat;                      (* auto-increment primary key *)
  trash_user : UserId;
  trash_file : option FileId;
  trash_folder : option FolderId;
  original_folder : option FolderId;
  trash_deleted_at : Time;             (* deleted_at, auto_now_add *)
  scheduled_permanent_deletion : option Time
}.

Record ShareLink := {
  share_file_ref : option FileId;
  share_folder_ref : option FolderId;
  token : string;
  expires_at : option Time;
  is_active : bool;
  require_password : bool;
  password_hash : option string
}.

(** The database, the object store and the primary-key sequence of the
    Trash table. *)
Record World := {
  profiles : list UserProfile;
  folders : list Folder;
  files : list File;
  trash : list Trash;
  share_links : list ShareLink;
  trash_seq : nat;
  blobs : gset string
}.

Definition set_profiles (ps : list UserProfile) (w : World) : World :=
  {| profiles := ps; folders := folders w; files := files w; trash := trash w;
     share_links := share_links w; trash_seq := trash_seq w; blobs := blobs w |}.
Definition set_folders (fs : list Folder) (w : World) : World :=
  {| profiles := profiles w; folders := fs; files := files w; trash := trash w;
     share_links := share_links w; trash_seq := trash_seq w; blobs := blobs w |}.
Definition set_files (fs : list File) (w : World) : World :=
  {| profiles := profiles w; folders := folders w; files := fs; trash := trash w;
     share_links := share_links w; trash_seq := trash_seq w; blobs := blobs w |}.
Definition set_trash (ts : list Trash) (w : World) : World :=
  {| profiles := profiles w; folders := folders w; files := files w; trash := ts;
     share_links := share_links w; trash_seq := trash_seq w; blobs := blobs w |}.
Definition set_share_links (ls : list ShareLink) (w : World) : World :=
  {| profiles := profiles w; folders := folders w; files := files w; trash := trash w;
     share_links := ls; trash_seq := trash_seq w; blobs := blobs w |}.
Definition set_trash_seq (n : nat) (w : World) : World :=
  {| profiles := profiles w; folders := folders w; files := files w; trash := trash w;
     share_links := share_links w; trash_seq := n; blobs := blobs w |}.
Definition set_blobs (bs : gset string) (w : World) : World :=
  {| profiles := profiles w; folders := folders w; files := files w; trash := trash w;
     share_links := share_links w; trash_seq := trash_seq w; blobs := bs |}.

(** ** Exceptions, results and responses *)

Inductive Exception :=
  | Http404
  | MultipleObjectsReturned
  | DoesNotExist
  | AttributeError          (* attribute access on None *)
  | ZeroDivisionError
  | StorageError            (* the object store refused a call *)
  | DatabaseError.

Inductive Result (A : Type) :=
  | Ok (a : A)
  | Raise (e : Exception).
Arguments Ok {A} a.
Arguments Raise {A} e.

Inductive Method := GET | POST.

(** JsonResponse bodies of the views; [Uncaught] is an exception that
    leaves the view (no enclosing try). *)
Inductive Response :=
  | Success
  | SuccessCount (deleted_count : nat)
  | FileSizeExceedsLimit
  | StorageLimitExceeded
  | InvalidFile
  | InvalidRequest
  | Failure (e : Exception)
  | Uncaught (e : Exception).

(** ** ORM primitives *)

(** Model.objects.get / get_object_or_404: exactly one row must match. *)
Definition objects_get {A} (missing : Exception) (p : A → bool) (table : list A) : Result A :=
  match filter (λ x, p x = true) table with
  | [] => Raise missing
  | [x] => Ok x
  | _ => Raise MultipleObjectsReturned
  end.

Definition get_object_or_404 {A} := @objects_get A Http404.

(** instance.save() on a row fetched in the same request: UPDATE by
    primary key. *)
Definition save_profile (p : UserProfile) (w : World) : World :=
  set_profiles (map (λ r, if decide (user r = user p) then p else r) (profiles w)) w.
Definition save_folder (g : Folder) (w : World) : World :=
  set_folders (map (λ r, if decide (folder_id r = folder_id g) then g else r) (folders w)) w.
Definition save_file (f : File) (w : World) : World :=
  set_files (map (λ r, if decide (file_id r = file_id f) then f else r) (files w)) w.

(** ** Quota queries (UserProfile methods) *)

(** The float of the source is rendered as an exact rational. *)
Definition get_storage_usage_percent (p : UserProfile) : Result QArith_base.Q :=
  match storage_plan p with
  | Some plan =>
      if decide (max_storage_size plan = 0) then Raise ZeroDivisionError
      else Ok (QArith_base.Qmult
                 (QArith_base.Qdiv (QArith_base.inject_Z (used_storage p))
                                   (QArith_base.inject_Z (max_storage_size plan)))
                 (QArith_base.inject_Z 100))
  | None => Ok (QArith_base.inject_Z 0)
  end.

Definition can_upload_file (p : UserProfile) (file_size : Z) : bool :=
  match storage_plan p with
  | None => false
  | Some plan =>
      if decide (used_storage p + file_size > max_storage_size plan) then false
      else true
  end.

(** ** upload_file *)

Record Upload := {
  upload_id : FileId;            (* the uuid4 drawn for the new row *)
  upload_name : string;
  upload_size : Z
}.

(** upload_to=user_directory_path: the key under which the blob is stored. *)
Definition user_directory_path (owner : UserId) (filename : string) : string :=
  "user_" +:+ pretty owner +:+ "/" +:+ filename.

Definition with_used_storage (n : Z) (p : UserProfile) : UserProfile :=
  {| user := user p; storage_plan := storage_plan p; used_storage := n |}.

Section Upload.
(** FileUploadForm.is_valid(): the framework's form validation. *)
Variable form_is_valid : Upload → bool.

Definition upload_file (method : Method) (request_user : UserId) (up : Upload)
    (w : World) : Response * World :=
  match method with
  | GET => (InvalidRequest, w)
  | POST =>
    if form_is_valid up then
      let file_obj :=
        {| file_id := upload_id up; file_name := upload_name up;
           file_file := user_directory_path request_user (upload_name up);
           size := upload_size up;
           file_owner := request_user; file_folder := None;
           file_is_deleted := false |} in
      match objects_get DoesNotExist (λ p, bool_decide (user p = request_user)) (profiles w) with
      | Raise e => (Uncaught e, w)
      | Ok user_profile =>
        match storage_plan user_profile with
        | None => (Uncaught AttributeError, w)
        | Some plan =>
          (* CHECK 1: file size limit *)
          if decide (size file_obj > max_file_size plan) then (FileSizeExceedsLimit, w)
          (* CHECK 2: storage limit *)
          else if decide (used_storage user_profile + size file_obj > max_storage_size plan)
          then (StorageLimitExceeded, w)
          else
            (* file_obj.save(): the blob is stored, the row inserted *)
            let w1 := set_blobs ({[ file_file file_obj ]} ∪ blobs w)
                        (set_files (files w ++ [file_obj]) w) in
            let w2 := save_profile
                        (with_used_storage (used_storage user_profile + size file_obj)
                                           user_profile) w1 in
            (Success, w2)
        end
      end
    else (InvalidFile, w)
  end.
End Upload.

(** ** dashboard: recomputes the counter from the non-deleted files *)

Definition sum_sizes (fs : list File) : Z := foldr (λ f acc, size f + acc) 0 fs.

(** The profile is created on the free plan when the user has none;
    [free_plan] is what StoragePlan.objects.get_or_create(plan_type='free')
    returns. *)
Definition dashboard (free_plan : StoragePlan) (request_user : UserId) (w : World)
    : Response * World :=
  let recompute (user_profile : UserProfile) (w : World) :=
    (* EXCLUDE DELETED FILES *)
    let files_qs := filter (λ f, file_owner f = request_user ∧ file_is_deleted f = false)
                           (files w) in
    let total_size := sum_sizes files_qs in
    (Success, save_profile (with_used_storage total_size user_profile) w) in
  match objects_get DoesNotExist (λ p, bool_decide (user p = request_user)) (profiles w) with
  | Ok user_profile => recompute user_profile w
  | Raise DoesNotExist =>
      let user_profile :=
        {| user := request_user; storage_plan := Some free_plan; used_storage := 0 |} in
      recompute user_profile (set_profiles (profiles w ++ [user_profile]) w)
  | Raise e => (Uncaught e, w)
  end.

(** ** A state and exception monad for the bodies of the views *)

Definition M (A : Type) : Type := World → Result A * World.

Definition ret {A} (a : A) : M A := λ w, (Ok a, w).
Definition raise {A} (e : Exception) : M A := λ w, (Raise e, w).
Definition bind {A B} (m : M A) (k : A → M B) : M B :=
  λ w, match m w with
       | (Ok a, w') => k a w'
       | (Raise e, w') => (Raise e, w')
       end.
Definition query {A} (q : World → Result A) : M A := λ w, (q w, w).
Definition modify (f : World → World) : M unit := λ w, (Ok tt, f w).

#[global] Instance M_ret : MRet M := @ret.
#[global] Instance M_bind : MBind M := λ A B k m, bind m k.

(** try: body / except Exception as e: JsonResponse(success=False, error=str(e)).
    Every statement commits on its own, so what the body did before the
    exception stays. *)
Definition try_except (body : M Response) : World → Response * World :=
  λ w, match body w with
       | (Ok r, w') => (r, w')
       | (Raise e, w') => (Failure e, w')
       end.

(** for x in xs: body(x), counting the completed iterations. *)
Fixpoint for_count {A} (xs : list A) (body : A → M unit) (count : nat) : M nat :=
  match xs with
  | [] => ret count
  | x :: rest => body x ;; for_count rest body (S count)
  end.

Fixpoint for_each {A} (xs : list A) (body : A → M unit) : M unit :=
  match xs with
  | [] => ret tt
  | x :: rest => body x ;; for_each rest body
  end.

(** ** Row deletion with the on_delete rules of models.py *)

Definition with_parent_folder (p : option FolderId) (g : Folder) : Folder :=
  {| folder_id := folder_id g; folder_name := folder_name g; folder_owner := folder_owner g;
     parent_folder := p; folder_is_deleted := folder_is_deleted g;
     deleted_at := deleted_at g |}.

Definition with_original_folder (p : option FolderId) (t : Trash) : Trash :=
  {| trash_id := trash_id t; trash_user := trash_user t; trash_file := trash_file t;
     trash_folder := trash_folder t; original_folder := p;
     trash_deleted_at := trash_deleted_at t;
     scheduled_permanent_deletion := scheduled_permanent_deletion t |}.

(** trash_item.delete() *)
Definition delete_trash_row (tid : nat) (w : World) : World :=
  set_trash (filter (λ t, trash_id t ≠ tid) (trash w)) w.

(** file.delete(): Trash.file and ShareLink.file are on_delete=CASCADE.
    The blob is not touched by the row deletion. *)
Definition delete_file_row (fid : FileId) (w : World) : World :=
  set_files (filter (λ f, file_id f ≠ fid) (files w))
    (set_trash (filter (λ t, trash_file t ≠ Some fid) (trash w))
       (set_share_links (filter (λ l, share_file_ref l ≠ Some fid) (share_links w)) w)).

(** folder.delete(): File.folder, Trash.folder and ShareLink.folder are
    CASCADE (and the files cascade in turn); Folder.parent_folder and
    Trash.original_folder are SET_NULL. *)
Definition delete_folder_row (gid : FolderId) (w : World) : World :=
  let inside := filter (λ f, file_folder f = Some gid) (files w) in
  let w1 := foldr (λ f acc, delete_file_row (file_id f) acc) w inside in
  let w2 := set_trash (filter (λ t, trash_folder t ≠ Some gid) (trash w1)) w1 in
  let w3 := set_share_links (filter (λ l, share_folder_ref l ≠ Some gid) (share_links w2)) w2 in
  let w4 := set_trash (map (λ t, if decide (original_folder t = Some gid)
                                 then with_original_folder None t else t) (trash w3)) w3 in
  set_folders
    (map (λ g, if decide (parent_folder g = Some gid) then with_parent_folder None g else g)
         (filter (λ g, folder_id g ≠ gid) (folders w4))) w4.

(** Trash.objects.create(...); [now] is the reading of the clock that
    auto_now_add stores in deleted_at. *)
Definition create_trash (now : Time) (u : UserId) (f : option FileId)
    (g : option FolderId) (orig : option FolderId) (sched : Time) (w : World) : World :=
  set_trash_seq (S (trash_seq w))
    (set_trash (trash w ++ [ {| trash_id := trash_seq w; trash_user := u; trash_file := f;
                                trash_folder := g; original_folder := orig;
                                trash_deleted_at := now;
                                scheduled_permanent_deletion := Some sched |} ]) w).

Definition thirty_days : Z := 30 * 86400.

(** Trash.Meta.ordering = ['-deleted_at']: a queryset of Trash rows comes
    newest first.  The rows that one request creates carry the same
    reading of the clock here, while the database stamps them one after
    the other: among them the row created later, which has the larger key,
    is the newer one. *)
Definition newer (a b : Trash) : Prop :=
  trash_deleted_at b < trash_deleted_at a
  ∨ (trash_deleted_at a = trash_deleted_at b ∧ (trash_id b ≤ trash_id a)%nat).

#[global] Instance newer_dec : RelDecision newer.
Proof. intros a b. unfold newer. apply _. Defined.

Definition newest_first (ts : list Trash) : list Trash := merge_sort newer ts.

(** Trash.objects.filter(user=u) *)
Definition trash_of (u : UserId) (w : World) : list Trash :=
  newest_first (filter (λ t, trash_user t = u) (trash w)).

(** ** Single-file trash views *)

Definition with_file_is_deleted (b : bool) (f : File) : File :=
  {| file_id := file_id f; file_name := file_name f; file_file := file_file f;
     size := size f; file_owner := file_owner f; file_folder := file_folder f;
     file_is_deleted := b |}.

Definition profile_of (u : UserId) (w : World) : Result UserProfile :=
  objects_get DoesNotExist (λ p, bool_decide (user p = u)) (profiles w).

Definition move_to_trash (method : Method) (request_user : UserId) (fid : FileId)
    (now : Time) : World → Response * World :=
  match method with
  | GET => λ w, (InvalidRequest, w)
  | POST => try_except (
      file_obj ← query (λ w, get_object_or_404
        (λ f, bool_decide (file_id f = fid ∧ file_owner f = request_user)) (files w)) ;
      modify (create_trash now request_user (Some (file_id file_obj)) None
                (file_folder file_obj) (now + thirty_days)) ;;
      modify (save_file (with_file_is_deleted true file_obj)) ;;
      ret Success)
  end.

Definition restore_file (method : Method) (request_user : UserId) (fid : FileId)
    : World → Response * World :=
  match method with
  | GET => λ w, (InvalidRequest, w)
  | POST => try_except (
      file_obj ← query (λ w, get_object_or_404
        (λ f, bool_decide (file_id f = fid ∧ file_owner f = request_user
                           ∧ file_is_deleted f = true)) (files w)) ;
      trash_item ← query (λ w, get_object_or_404
        (λ t, bool_decide (trash_file t = Some (file_id file_obj)
                           ∧ trash_user t = request_user)) (trash w)) ;
      modify (save_file (with_file_is_deleted false file_obj)) ;;
      modify (delete_trash_row (trash_id trash_item)) ;;
      ret Success)
  end.

(** ** Permanent deletion *)

(** The calls of a purge that reach the database or the object store;
    each may raise. *)
Inductive Effect :=
  | SaveProfile (u : UserId)
  | DeleteBlob (key : string)
  | DeleteTrashRow (tid : nat)
  | DeleteFileRow (fid : FileId)
  | DeleteFolderRow (gid : FolderId).

Definition exception_of (e : Effect) : Exception :=
  match e with
  | DeleteBlob _ => StorageError
  | _ => DatabaseError
  end.

(** file.file.delete(save=False) *)
Definition storage_delete (key : string) (w : World) : World :=
  set_blobs (blobs w ∖ {[ key ]}) w.

Section Purge.
(** The environment: which calls fail. *)
Variable raises : Effect → bool.

Definition perform (e : Effect) (f : World → World) : M unit :=
  λ w, if raises e then (Raise (exception_of e), w) else (Ok tt, f w).

Definition permanent_delete_file (method : Method) (request_user : UserId) (fid : FileId)
    : World → Response * World :=
  match method with
  | GET => λ w, (InvalidRequest, w)
  | POST => try_except (
      file_obj ← query (λ w, get_object_or_404
        (λ f, bool_decide (file_id f = fid ∧ file_owner f = request_user
                           ∧ file_is_deleted f = true)) (files w)) ;
      trash_item ← query (λ w, get_object_or_404
        (λ t, bool_decide (trash_file t = Some (file_id file_obj)
                           ∧ trash_user t = request_user)) (trash w)) ;
      user_profile ← query (profile_of request_user) ;
      perform (SaveProfile request_user)
        (save_profile (with_used_storage (used_storage user_profile - size file_obj)
                                         user_profile)) ;;
      perform (DeleteBlob (file_file file_obj)) (storage_delete (file_file file_obj)) ;;
      perform (DeleteTrashRow (trash_id trash_item)) (delete_trash_row (trash_id trash_item)) ;;
      perform (DeleteFileRow (file_id file_obj)) (delete_file_row (file_id file_obj)) ;;
      ret Success)
  end.

(** trash_item.file: the foreign key is followed when the attribute is
    read; None when the column is NULL. *)
Definition trash_item_file (t : Trash) : M (option File) :=
  match trash_file t with
  | None => ret None
  | Some fid => query (λ w,
      match objects_get DoesNotExist (λ f, bool_decide (file_id f = fid)) (files w) with
      | Ok f => Ok (Some f)
      | Raise e => Raise e
      end)
  end.

Definition empty_trash_item (trash_item : Trash) : M unit :=
  file_obj ← trash_item_file trash_item ;
  match file_obj with
  | None => raise AttributeError
  | Some file_obj =>
      perform (DeleteBlob (file_file file_obj)) (storage_delete (file_file file_obj)) ;;
      perform (DeleteTrashRow (trash_id trash_item)) (delete_trash_row (trash_id trash_item)) ;;
      perform (DeleteFileRow (file_id file_obj)) (delete_file_row (file_id file_obj))
  end.

(** Whether one of the three calls that purge the file [f] of the Trash
    row [t] fails. *)
Definition purge_fails (t : Trash) (f : File) : bool :=
  raises (DeleteBlob (file_file f)) || raises (DeleteTrashRow (trash_id t))
  || raises (DeleteFileRow (file_id f)).

Definition empty_trash (method : Method) (request_user : UserId)
    : World → Response * World :=
  match method with
  | GET => λ w, (InvalidRequest, w)
  | POST => try_except (
      trash_items ← query (λ w, Ok (trash_of request_user w)) ;
      deleted_count ← for_count trash_items empty_trash_item 0%nat ;
      ret (SuccessCount deleted_count))
  end.

Definition permanent_delete_folder (method : Method) (request_user : UserId)
    (gid : FolderId) : World → Response * World :=
  match method with
  | GET => λ w, (InvalidRequest, w)
  | POST => try_except (
      folder ← query (λ w, get_object_or_404
        (λ g, bool_decide (folder_id g = gid ∧ folder_owner g = request_user
                           ∧ folder_is_deleted g = true)) (folders w)) ;
      trash_item ← query (λ w, get_object_or_404
        (λ t, bool_decide (trash_folder t = Some (folder_id folder)
                           ∧ trash_user t = request_user)) (trash w)) ;
      folder_files ← query (λ w, Ok (filter (λ f, file_folder f = Some (folder_id folder))
                                            (files w))) ;
      for_each folder_files (λ file,
        perform (DeleteBlob (file_file file)) (storage_delete (file_file file)) ;;
        perform (DeleteFileRow (file_id file)) (delete_file_row (file_id file))) ;;
      subfolders ← query (λ w, Ok (filter (λ g, parent_folder g = Some (folder_id folder))
                                          (folders w))) ;
      for_each subfolders (λ subfolder,
        perform (DeleteFolderRow (folder_id subfolder))
                (delete_folder_row (folder_id subfolder))) ;;
      perform (DeleteTrashRow (trash_id trash_item)) (delete_trash_row (trash_id trash_item)) ;;
      perform (DeleteFolderRow (folder_id folder)) (delete_folder_row (folder_id folder)) ;;
      ret Success)
  end.
End Purge.

Definition no_faults : Effect → bool := λ _, false.

(** ** Folder cascades: move_folder_to_trash and restore_folder *)

Definition with_folder_is_deleted (b : bool) (at_ : option Time) (g : Folder) : Folder :=
  {| folder_id := folder_id g; folder_name := folder_name g; folder_owner := folder_owner g;
     parent_folder := parent_folder g; folder_is_deleted := b; deleted_at := at_ |}.

(** A loop whose body may run out of fuel. *)
Fixpoint for_fold {A} (body : A → World → option World) (xs : list A) (w : World)
    : option World :=
  match xs with
  | [] => Some w
  | x :: rest => match body x w with
                 | Some w' => for_fold body rest w'
                 | None => None
                 end
  end.

(** The loop over File.objects.filter(folder=folder, is_deleted=False),
    written out twice in the source (for the folder and for each
    subfolder): flag the file, then create its Trash row.  The attribute
    deleted_at set on the file object is not a column of File. *)
Definition soft_delete_files_in (request_user : UserId) (now : Time) (folder : Folder)
    (w : World) : World :=
  let files_in_folder :=
    filter (λ f, file_folder f = Some (folder_id folder) ∧ file_is_deleted f = false)
           (files w) in
  foldl (λ w file_obj,
           create_trash now request_user (Some (file_id file_obj)) None
             (Some (folder_id folder)) (now + thirty_days)
             (save_file (with_file_is_deleted true file_obj) w))
        w files_in_folder.

(** delete_subfolders_recursive, the closure of move_folder_to_trash.  The
    queryset is read when the loop starts; [fuel] bounds the depth of the
    recursion. *)
Fixpoint delete_subfolders_recursive (fuel : nat) (request_user : UserId) (now : Time)
    (parent : FolderId) (w : World) : option World :=
  match fuel with
  | O => None
  | S fuel' =>
      let subfolders :=
        filter (λ g, parent_folder g = Some parent ∧ folder_is_deleted g = false)
               (folders w) in
      for_fold (λ subfolder w,
          let w1 := save_folder (with_folder_is_deleted true (Some now) subfolder) w in
          let w2 := create_trash now request_user None (Some (folder_id subfolder))
                      (Some parent) (now + thirty_days) w1 in
          let w3 := soft_delete_files_in request_user now subfolder w2 in
          delete_subfolders_recursive fuel' request_user now (folder_id subfolder) w3)
        subfolders w
  end.

Definition move_folder_to_trash (fuel : nat) (method : Method) (request_user : UserId)
    (gid : FolderId) (now : Time) (w : World) : option (Response * World) :=
  match method with
  | GET => Some (InvalidRequest, w)
  | POST =>
      match get_object_or_404
              (λ g, bool_decide (folder_id g = gid ∧ folder_owner g = request_user
                                 ∧ folder_is_deleted g = false)) (folders w) with
      | Raise e => Some (Failure e, w)
      | Ok folder =>
          let w1 := create_trash now request_user None (Some (folder_id folder))
                      (parent_folder folder) (now + thirty_days) w in
          let w2 := save_folder (with_folder_is_deleted true (Some now) folder) w1 in
          let w3 := soft_delete_files_in request_user now folder w2 in
          w4 ← delete_subfolders_recursive fuel request_user now (folder_id folder) w3;
          Some (Success, w4)
      end
  end.

(** Trash.objects.filter(...).delete() *)
Definition delete_trash_where (p : Trash → bool) (w : World) : World :=
  set_trash (filter (λ t, p t = false) (trash w)) w.

(** The loop over File.objects.filter(folder=folder, is_deleted=True) of
    restore_folder: clear the flag, delete the user's Trash rows of the file. *)
Definition restore_files_in (request_user : UserId) (folder : Folder) (w : World) : World :=
  let files_in_folder :=
    filter (λ f, file_folder f = Some (folder_id folder) ∧ file_is_deleted f = true)
           (files w) in
  foldl (λ w file_obj,
           delete_trash_where
             (λ t, bool_decide (trash_file t = Some (file_id file_obj)
                                ∧ trash_user t = request_user))
             (save_file (with_file_is_deleted false file_obj) w))
        w files_in_folder.

Fixpoint restore_subfolders_recursive (fuel : nat) (request_user : UserId)
    (parent : FolderId) (w : World) : option World :=
  match fuel with
  | O => None
  | S fuel' =>
      let subfolders :=
        filter (λ g, parent_folder g = Some parent ∧ folder_is_deleted g = true)
               (folders w) in
      for_fold (λ subfolder w,
          let w1 := save_folder (with_folder_is_deleted false None subfolder) w in
          let w2 := delete_trash_where
                      (λ t, bool_decide (trash_folder t = Some (folder_id subfolder)
                                         ∧ trash_user t = request_user)) w1 in
          let w3 := restore_files_in request_user subfolder w2 in
          restore_subfolders_recursive fuel' request_user (folder_id subfolder) w3)
        subfolders w
  end.

Definition restore_folder (fuel : nat) (method : Method) (request_user : UserId)
    (gid : FolderId) (w : World) : option (Response * World) :=
  match method with
  | GET => Some (InvalidRequest, w)
  | POST =>
      match get_object_or_404
              (λ g, bool_decide (folder_id g = gid ∧ folder_owner g = request_user
                                 ∧ folder_is_deleted g = true)) (folders w) with
      | Raise e => Some (Failure e, w)
      | Ok folder =>
          match get_object_or_404
                  (λ t, bool_decide (trash_folder t = Some (folder_id folder)
                                     ∧ trash_user t = request_user)) (trash w) with
          | Raise e => Some (Failure e, w)
          | Ok trash_item =>
              let w1 := save_folder (with_folder_is_deleted false None folder) w in
              let w2 := restore_files_in request_user folder w1 in
              w3 ← restore_subfolders_recursive fuel request_user (folder_id folder) w2;
              Some (Success, delete_trash_row (trash_id trash_item) w3)
          end
      end
  end.

(** ** Share links *)

Definition Session := gmap string bool.

Definition share_verified_key (tok : string) : string := "share_verified_" +:+ tok.

(** Truth value of a nullable CharField: None and the empty string are false. *)
Definition truthy (s : option string) : bool :=
  match s with
  | Some s => negb (bool_decide (s = ""))
  | None => false
  end.

Definition has_password (l : ShareLink) : bool :=
  require_password l && truthy (password_hash l).

(** Pages rendered by share_file and share_folder. *)
Inductive SharePage :=
  | ShareExpired                                (* share_expired.html *)
  | SharePassword                               (* share_password.html *)
  | ShareFile (f : File) (download_url : string)
  | ShareFolder (g : FolderId) (fs : list File)
  | ShareNotFound                               (* Http404: not found or inactive *)
  | ShareError (e : Exception).

Inductive VerifyResponse :=
  | VerifyOk
  | NotPasswordProtected
  | PasswordRequired
  | InvalidPassword
  | VerifyError (e : Exception)
  | VerifyInvalidMethod.

(** A QuerySet of File rows that has not been evaluated yet: the condition
    of its WHERE clause.  [q1 | q2] is the disjunction of the conditions.
    The rows are read from the table when the queryset is iterated,
    counted or tested, in one query; no ORDER BY applies to File, so the
    order of the rows is that of the table here. *)
Definition FileQuerySet : Type := File → bool.

Definition queryset_or (q1 q2 : FileQuerySet) : FileQuerySet := λ f, q1 f || q2 f.

Definition fetch (q : FileQuerySet) (w : World) : list File :=
  filter (λ f, q f = true) (files w).

(** get_all_files_in_folder: the non-deleted files below a folder, not
    descending into deleted subfolders. *)
Fixpoint get_all_files_in_folder (fuel : nat) (w : World) (folder : FolderId)
    : option FileQuerySet :=
  match fuel with
  | O => None
  | S fuel' =>
      let files : FileQuerySet :=
        λ f, bool_decide (file_folder f = Some folder ∧ file_is_deleted f = false) in
      foldl (λ acc subfolder,
               files ← acc; more ← get_all_files_in_folder fuel' w (folder_id subfolder);
               Some (queryset_or files more))
            (Some files)
            (filter (λ g, parent_folder g = Some folder ∧ folder_is_deleted g = false)
                    (folders w))
  end.

Section Share.
(** django.contrib.auth.hashers.check_password(password, encoded) and the
    S3 client's generate_presigned_url. *)
Variable hashers_check_password : string → string → bool.
Variable generate_presigned_url : string → string.

Definition check_password (l : ShareLink) (password : string) : bool :=
  if truthy (password_hash l)
  then match password_hash l with
       | Some h => hashers_check_password password h
       | None => false
       end
  else false.

Definition active_link (folder_only : bool) (tok : string) (w : World) : Result ShareLink :=
  get_object_or_404
    (λ l, bool_decide (token l = tok ∧ is_active l = true
                       ∧ (folder_only = true → share_folder_ref l ≠ None)))
    (share_links w).

Definition expired (l : ShareLink) (now : Time) : bool :=
  match expires_at l with
  | Some t => bool_decide (t < now)
  | None => false
  end.

Definition session_get (s : Session) (key : string) : bool := default false (s !! key).

(** head_object probing of the two possible keys *)
Definition actual_key (file_key : string) (w : World) : string :=
  if decide (file_key ∈ blobs w) then file_key
  else if decide ("media/" +:+ file_key ∈ blobs w) then "media/" +:+ file_key
  else file_key.

Definition share_file (tok : string) (now : Time) (session : Session) (w : World)
    : SharePage * World * Session :=
  match active_link false tok w with
  | Raise Http404 => (ShareNotFound, w, session)
  | Raise e => (ShareError e, w, session)
  | Ok share_link =>
      if expired share_link now then (ShareExpired, w, session)
      else if has_password share_link && negb (session_get session (share_verified_key tok))
      then (SharePassword, w, session)
      else
        match share_file_ref share_link with
        | None => (ShareError AttributeError, w, session)
        | Some fid =>
            match objects_get DoesNotExist (λ f, bool_decide (file_id f = fid)) (files w) with
            | Raise e => (ShareError e, w, session)
            | Ok file_obj =>
                (ShareFile file_obj (generate_presigned_url (actual_key (file_file file_obj) w)),
                 w, session)
            end
        end
  end.

Definition share_folder (fuel : nat) (tok : string) (now : Time) (session : Session)
    (w : World) : option (SharePage * World * Session) :=
  match active_link true tok w with
  | Raise Http404 => Some (ShareNotFound, w, session)
  | Raise e => Some (ShareError e, w, session)
  | Ok share_link =>
      if expired share_link now then Some (ShareExpired, w, session)
      else if has_password share_link && negb (session_get session (share_verified_key tok))
      then Some (SharePassword, w, session)
      else
        match share_folder_ref share_link with
        | None => Some (ShareError AttributeError, w, session)
        | Some folder =>
            files_in_folder ← get_all_files_in_folder fuel w folder;
            Some (ShareFolder folder (fetch files_in_folder w), w, session)
        end
  end.

Definition verify_share_password (method : Method) (tok : string)
    (password : option string) (session : Session) (w : World)
    : VerifyResponse * World * Session :=
  match method with
  | GET => (VerifyInvalidMethod, w, session)
  | POST =>
      match active_link false tok w with
      | Raise e => (VerifyError e, w, session)
      | Ok share_link =>
          if negb (has_password share_link) then (NotPasswordProtected, w, session)
          else if negb (truthy password) then (PasswordRequired, w, session)
          else if check_password share_link (default "" password)
          then (VerifyOk, w, <[ share_verified_key tok := true ]> session)
          else (InvalidPassword, w, session)
      end
  end.

Definition is_share_verified (tok : string) (session : Session) : bool :=
  session_get session (share_verified_key tok).
End Share.

(** The session middleware: a request carries the key of its session; the
    view sees that session's dictionary, which is stored back afterwards. *)
Definition Sessions := gmap string Session.

Definition in_session {R} (sid : string)
    (view : Session → World → R * World * Session) (store : Sessions) (w : World)
    : R * World * Sessions :=
  let '(r, w', s') := view (default ∅ (store !! sid)) w in
  (r, w', <[ sid := s' ]> store).

(** ** The order of the effects of a file purge

    A purge is a list of effects, run in order until one raises; the
    response is that of the view's try/except. *)
Definition Step : Type := Effect * (World → World).

Definition run_steps (raises : Effect → bool) (steps : list Step) : World → Response * World :=
  try_except (for_each steps (λ s, perform raises s.1 s.2) ;; mret Success).

Definition decrement_quota (p : UserProfile) (f : File) : Step :=
  (SaveProfile (user p), save_profile (with_used_storage (used_storage p - size f) p)).
Definition delete_blob (f : File) : Step :=
  (DeleteBlob (file_file f), storage_delete (file_file f)).
Definition delete_row (f : File) : Step :=
  (DeleteFileRow (file_id f), delete_file_row (file_id f)).
Definition delete_trash_record (t : Trash) : Step :=
  (DeleteTrashRow (trash_id t), delete_trash_row (trash_id t)).

(** The order in the words of the specification: decrement quota, delete
    blob, delete DB row, delete trash record. *)
Definition spec_purge_order (p : UserProfile) (f : File) (t : Trash) : list Step :=
  [decrement_quota p f; delete_blob f; delete_row f; delete_trash_record t].

(** The order of the statements of permanent_delete_file. *)
Definition view_purge_order (p : UserProfile) (f : File) (t : Trash) : list Step :=
  [decrement_quota p f; delete_blob f; delete_trash_record t; delete_row f].

(** ** emptyTrash in the words of the specification

    The specified loop continues past a failing item and counts the items
    that were purged. *)
Fixpoint for_count_resilient {A} (xs : list A) (body : A → M unit) (count : nat)
    (w : World) : nat * World :=
  match xs with
  | [] => (count, w)
  | x :: rest =>
      match body x w with
      | (Ok _, w') => for_count_resilient rest body (S count) w'
      | (Raise _, w') => for_count_resilient rest body count w'
      end
  end.

Definition spec_empty_trash (raises : Effect → bool) (request_user : UserId) (w : World)
    : Response * World :=
  let trash_items := trash_of request_user w in
  let '(n, w') := for_count_resilient trash_items (empty_trash_item raises) 0%nat w in
  (SuccessCount n, w').

(** ** Subtrees of the folder table

    [children sel w p] are the rows selected by [sel] whose parent is [p],
    in table order; [subtree sel fuel w p] lists in pre-order the folders
    strictly below [p] that are reached through selected folders only.  It
    is undefined when [fuel] does not reach the leaves. *)
Definition live (g : Folder) : bool := negb (folder_is_deleted g).
Definition trashed (g : Folder) : bool := folder_is_deleted g.
Definition any (g : Folder) : bool := true.

Definition children (sel : Folder → bool) (w : World) (p : FolderId) : list Folder :=
  filter (λ g, parent_folder g = Some p ∧ sel g = true) (folders w).

Fixpoint forest (sub : Folder → option (list Folder)) (cs : list Folder)
    : option (list Folder) :=
  match cs with
  | [] => Some []
  | c :: rest => below ← sub c; others ← forest sub rest; Some (c :: below ++ others)
  end.

Fixpoint subtree (sel : Folder → bool) (fuel : nat) (w : World) (p : FolderId)
    : option (list Folder) :=
  match fuel with
  | O => None
  | S fuel' => forest (λ c, subtree sel fuel' w (folder_id c)) (children sel w p)
  end.

(** The files with flag [b] that lie directly in one of the folders [ids]. *)
Definition lies_in (ids : list FolderId) (f : File) : bool :=
  match file_folder f with
  | Some g => bool_decide (g ∈ ids)
  | None => false
  end.

Definition files_in (b : bool) (ids : list FolderId) (w : World) : list File :=
  filter (λ f, file_is_deleted f = b ∧ lies_in ids f = true) (files w).

(** The shape shared by the two recursive closures: visit each selected
    child, then descend into it. *)
Fixpoint cascade (sel : Folder → bool) (visit : Folder → World → World) (fuel : nat)
    (p : FolderId) (w : World) : option World :=
  match fuel with
  | O => None
  | S fuel' =>
      for_fold (λ c w, cascade sel visit fuel' (folder_id c) (visit c w)) (children sel w p) w
  end.

(** Two states of the folder table that differ only on rows whose key
    satisfies [P], and there only by rows that [sel] rejects. *)
Definition frame (sel : Folder → bool) (P : FolderId → Prop) (fs fs' : list Folder) : Prop :=
  Forall2 (λ r r', r' = r ∨ (folder_id r' = folder_id r ∧ P (folder_id r) ∧ sel r' = false))
          fs fs'.

(** What move_folder_to_trash does for one folder of the subtree, and what
    restore_folder does. *)
Definition trash_visit (request_user : UserId) (now : Time) (g : Folder) (w : World) : World :=
  soft_delete_files_in request_user now g
    (create_trash now request_user None (Some (folder_id g)) (parent_folder g)
       (now + thirty_days)
       (save_folder (with_folder_is_deleted true (Some now) g) w)).

Definition restore_visit (request_user : UserId) (g : Folder) (w : World) : World :=
  restore_files_in request_user g
    (delete_trash_where
       (λ t, bool_decide (trash_folder t = Some (folder_id g) ∧ trash_user t = request_user))
       (save_folder (with_folder_is_deleted false None g) w)).

(** ** The outcome of a cascade, table by table *)

(** Rows of the folder table whose key is in [ids] get the flag [b]. *)
Definition flag_folders (b : bool) (at_ : option Time) (ids : list FolderId)
    (gs : list Folder) : list Folder :=
  map (λ r, if bool_decide (folder_id r ∈ ids) then with_folder_is_deleted b at_ r else r) gs.

(** Rows of the file table with flag [b] that lie in one of the folders
    [ids] get the opposite flag. *)
Definition flag_files (b : bool) (ids : list FolderId) (fs : list File) : list File :=
  map (λ r, if decide (file_is_deleted r = b ∧ lies_in ids r = true)
            then with_file_is_deleted (negb b) r else r) fs.

(** What a Trash row records about its item: the file or the folder, and
    the folder it was in. *)
Definition TrashItem : Type := option FileId * option FolderId * option FolderId.

Definition folder_item (g : Folder) : TrashItem := (None, Some (folder_id g), parent_folder g).
Definition file_item (f : File) : TrashItem := (Some (file_id f), None, file_folder f).
Definition item_of (t : Trash) : TrashItem := (trash_file t, trash_folder t, original_folder t).

Definition trash_row (stamp : Time) (u : UserId) (sched : Time) (n : nat) (d : TrashItem)
    : Trash :=
  {| trash_id := n; trash_user := u; trash_file := d.1.1; trash_folder := d.1.2;
     original_folder := d.2; trash_deleted_at := stamp;
     scheduled_permanent_deletion := Some sched |}.

(** Rows created one after the other, from the key [n] on. *)
Fixpoint number (stamp : Time) (u : UserId) (sched : Time) (n : nat) (ds : list TrashItem)
    : list Trash :=
  match ds with
  | [] => []
  | d :: rest => trash_row stamp u sched n d :: number stamp u sched (S n) rest
  end.

(** The items of a pre-order listing: each folder, followed by the
    non-deleted files directly in it. *)
Definition trash_items_of (gs : list Folder) (w : World) : list TrashItem :=
  flat_map (λ g, folder_item g :: map file_item (files_in false [folder_id g] w)) gs.

(** The world after the trash cascade over the listing [gs]. *)
Definition trashed_world (u : UserId) (now : Time) (gs : list Folder) (w : World) : World :=
  {| profiles := profiles w;
     folders := flag_folders true (Some now) (map folder_id gs) (folders w);
     files := flag_files false (map folder_id gs) (files w);
     trash := trash w ++ number now u (now + thirty_days) (trash_seq w) (trash_items_of gs w);
     share_links := share_links w;
     trash_seq := (trash_seq w + length (trash_items_of gs w))%nat;
     blobs := blobs w |}.

(** The Trash rows of user [u] about one of the files [fids] or one of
    the folders [gids] are removed. *)
Definition refers_to (fids : list FileId) (gids : list FolderId) (t : Trash) : bool :=
  match trash_file t with Some i => bool_decide (i ∈ fids) | None => false end
  || match trash_folder t with Some i => bool_decide (i ∈ gids) | None => false end.

Definition drop_records (u : UserId) (fids : list FileId) (gids : list FolderId)
    (ts : list Trash) : list Trash :=
  filter (λ t, ¬ (trash_user t = u ∧ refers_to fids gids t = true)) ts.

(** The world after restore_folder of [root] with the trashed listing
    [below], [tid] being the key of the Trash row of [root]. *)
Definition restored_world (u : UserId) (tid : nat) (root : Folder) (below : list Folder)
    (w : World) : World :=
  {| profiles := profiles w;
     folders := flag_folders false None (map folder_id (root :: below)) (folders w);
     files := flag_files true (map folder_id (root :: below)) (files w);
     trash := filter (λ t, trash_id t ≠ tid)
                (drop_records u
                   (map file_id (files_in true (map folder_id (root :: below)) w))
                   (map folder_id below) (trash w));
     share_links := share_links w; trash_seq := trash_seq w; blobs := blobs w |}.

(** The counts N (non-deleted files) and M (non-deleted folders) of the
    subtree of [root], the root included, for a notion [sel] of subtree. *)
Definition subtree_counts (sel : Folder → bool) (fuel : nat) (w : World) (root : Folder)
    : option (nat * nat) :=
  below ← subtree sel fuel w (folder_id root);
  Some (length (files_in false (map folder_id (root :: below)) w),
        length (filter (λ g, folder_is_deleted g = false) (root :: below))).

(** * Example worlds *)

(** The scenario of the specification: plan of 1000 bytes with files of at
    most 400; uploads of 300 and 400 succeed, a further 400 is refused,
    a further 300 succeeds and fills the quota. *)
Module Scenario.
Definition plan : StoragePlan :=
  {| plan_id := 1; max_storage_size := 1000; max_file_size := 400 |}.
Definition profile0 : UserProfile :=
  {| user := 1%nat; storage_plan := Some plan; used_storage := 0 |}.
Definition w0 : World :=
  {| profiles := [profile0]; folders := []; files := []; trash := [];
     share_links := []; trash_seq := 0; blobs := ∅ |}.
Definition up (n : nat) (s : Z) : Upload :=
  {| upload_id := n; upload_name := "f" +:+ pretty n; upload_size := s |}.
Definition upload (n : nat) (s : Z) (w : World) : Response * World :=
  upload_file (λ _, true) POST 1%nat (up n s) w.
Definition used (w : World) : list Z := map used_storage (profiles w).

Definition w1 := snd (upload 1 300 w0).
Definition w2 := snd (upload 2 400 w1).
Definition w3 := snd (upload 3 400 w2).
Definition w4 := snd (upload 4 300 w3).
End Scenario.

(** User 7 has lost the plan (StoragePlan deleted, the reference set to
    NULL) and owns one file of 300 bytes, which the counter includes. *)
Module NullPlanScenario.
Definition profile : UserProfile :=
  {| user := 7%nat; storage_plan := None; used_storage := 300 |}.
Definition photo : File :=
  {| file_id := 1%nat; file_name := "photo.png"; file_file := "user_7/photo.png";
     size := 300; file_owner := 7%nat; file_folder := None; file_is_deleted := false |}.
Definition w : World :=
  {| profiles := [profile]; folders := []; files := [photo]; trash := [];
     share_links := []; trash_seq := 0; blobs := {[ "user_7/photo.png" ]} |}.
Definition free_plan : StoragePlan :=
  {| plan_id := 1; max_storage_size := 1000; max_file_size := 400 |}.
Definition used (w : World) : list (option StoragePlan * Z) :=
  map (λ p, (storage_plan p, used_storage p)) (profiles w).
End NullPlanScenario.

Module ShareScenario.
Definition report : File :=
  {| file_id := 5%nat; file_name := "report.pdf"; file_file := "user_1/report.pdf";
     size := 120; file_owner := 1%nat; file_folder := None; file_is_deleted := false |}.
(** An active link that expired at time 100, and an active link protected
    by a password that never expires. *)
Definition stale : ShareLink :=
  {| share_file_ref := Some 5%nat; share_folder_ref := None; token := "tok-stale";
     expires_at := Some 100; is_active := true; require_password := false;
     password_hash := None |}.
Definition locked : ShareLink :=
  {| share_file_ref := Some 5%nat; share_folder_ref := None; token := "tok-locked";
     expires_at := None; is_active := true; require_password := true;
     password_hash := Some "hash:secret" |}.
Definition w : World :=
  {| profiles := []; folders := []; files := [report]; trash := [];
     share_links := [stale; locked]; trash_seq := 0;
     blobs := {[ "user_1/report.pdf" ]} |}.
Definition check (password encoded : string) : bool :=
  bool_decide (encoded = "hash:" +:+ password).
Definition presign (key : string) : string := "https://store/" +:+ key.
End ShareScenario.

(** A user with one root folder holding one file, and a user with a chain
    of folders A / B / C holding the files z (in A), x (in B), y (in C). *)
Module Tree.
Definition folder (i : FolderId) (name : string) (parent : option FolderId) (deleted : bool)
    : Folder :=
  {| folder_id := i; folder_name := name; folder_owner := 1%nat; parent_folder := parent;
     folder_is_deleted := deleted; deleted_at := None |}.
Definition file (i : FileId) (name : string) (s : Z) (g : option FolderId) (deleted : bool)
    : File :=
  {| file_id := i; file_name := name; file_file := user_directory_path 1%nat name;
     size := s; file_owner := 1%nat; file_folder := g; file_is_deleted := deleted |}.
Definition profile (used : Z) : UserProfile :=
  {| user := 1%nat; storage_plan := Some Scenario.plan; used_storage := used |}.

Definition flat : World :=
  {| profiles := [profile 300];
     folders := [folder 20%nat "docs" None false];
     files := [file 4%nat "n" 300 (Some 20%nat) false];
     trash := []; share_links := []; trash_seq := 0; blobs := {[ "user_1/n" ]} |}.

Definition deep : World :=
  {| profiles := [profile 375];
     folders := [folder 10%nat "A" None false; folder 11%nat "B" (Some 10%nat) false;
                 folder 12%nat "C" (Some 11%nat) false];
     files := [file 1%nat "x" 300 (Some 11%nat) false; file 2%nat "y" 50 (Some 12%nat) false;
               file 3%nat "z" 25 (Some 10%nat) false];
     trash := []; share_links := []; trash_seq := 0;
     blobs := {[ "user_1/x"; "user_1/y"; "user_1/z" ]} |}.

Definition A : Folder := folder 10%nat "A" None false.
Definition B : Folder := folder 11%nat "B" (Some 10%nat) false.
Definition C : Folder := folder 12%nat "C" (Some 11%nat) false.

(** Folder B of A / B was trashed with its file x, then x alone was
    restored: a non-deleted file inside a deleted folder. *)
Definition nested : World :=
  {| profiles := [profile 300];
     folders := [A; B];
     files := [file 1%nat "x" 300 (Some 11%nat) false];
     trash := []; share_links := []; trash_seq := 0; blobs := {[ "user_1/x" ]} |}.
Definition nested_b_trashed : World :=
  match move_folder_to_trash 3 POST 1%nat 11%nat 1000 nested with
  | Some (_, w) => w
  | None => nested
  end.
Definition stale : World := snd (restore_file POST 1%nat 1%nat nested_b_trashed).
End Tree.

(** The world after the upload of file 1 (300 bytes) and its move to the
    trash, and an environment in which only the deletion of that file's
    row fails. *)
Module PurgeScenario.
Definition w : World := snd (move_to_trash POST 1%nat 1%nat 1000 Scenario.w1).
Definition file_obj : File :=
  {| file_id := 1%nat; file_name := "f1"; file_file := "user_1/f1"; size := 300;
     file_owner := 1%nat; file_folder := None; file_is_deleted := true |}.
Definition trash_item : Trash :=
  {| trash_id := 0%nat; trash_user := 1%nat; trash_file := Some 1%nat; trash_folder := None;
     original_folder := None; trash_deleted_at := 1000;
     scheduled_permanent_deletion := Some (1000 + thirty_days) |}.
Definition profile : UserProfile := with_used_storage 300 Scenario.profile0.
Definition row_delete_fails (e : Effect) : bool :=
  match e with DeleteFileRow 1%nat => true | _ => false end.
End PurgeScenario.

(** Files 1, 2 and 4 uploaded and moved to the trash one after the other;
    the object store refuses to delete the blob of file 2. *)
Module EmptyScenario.
Definition w : World :=
  snd (move_to_trash POST 1%nat 4%nat 1002
         (snd (move_to_trash POST 1%nat 2%nat 1001
                 (snd (move_to_trash POST 1%nat 1%nat 1000 Scenario.w4))))).
Definition second_blob_fails (e : Effect) : bool :=
  match e with
  | DeleteBlob key => bool_decide (key = "user_1/f2")
  | _ => false
  end.
(** The Trash row [n] of the file [fid], created at [stamp], and the
    trashed file [fid] of size [s]. *)
Definition record (n : nat) (fid : FileId) (stamp : Time) : Trash :=
  {| trash_id := n; trash_user := 1%nat; trash_file := Some fid; trash_folder := None;
     original_folder := None; trash_deleted_at := stamp;
     scheduled_permanent_deletion := Some (stamp + thirty_days) |}.
Definition file_obj (fid : FileId) (s : Z) : File :=
  {| file_id := fid; file_name := "f" +:+ pretty fid;
     file_file := "user_1/f" +:+ pretty fid; size := s;
     file_owner := 1%nat; file_folder := None; file_is_deleted := true |}.
End EmptyScenario.

(** Total size of the File rows a user owns, trashed ones included. *)
Definition files_total (u : UserId) (w : World) : Z :=
  sum_sizes (filter (λ f, file_owner f = u) (files w)).

(** ** Quota conservation

    The counter of the user equals the total size of the File rows the
    user owns.  The requests on single files: *)
Definition quota_conserved (u : UserId) (w : World) : Prop :=
  ∃ p, profile_of u w = Ok p ∧ used_storage p = files_total u w.

Inductive FileOp :=
  | OpUpload (up : Upload)
  | OpTrash (fid : FileId) (now : Time)
  | OpRestore (fid : FileId)
  | OpPurge (fid : FileId).

Definition run_file_op (form_is_valid : Upload → bool) (u : UserId) (op : FileOp)
    (w : World) : World :=
  match op with
  | OpUpload up => (upload_file form_is_valid POST u up w).2
  | OpTrash fid now => (move_to_trash POST u fid now w).2
  | OpRestore fid => (restore_file POST u fid w).2
  | OpPurge fid => (permanent_delete_file no_faults POST u fid w).2
  end.

(** uuid4 draws a key that no row has. *)
Definition fresh_key (op : FileOp) (w : World) : Prop :=
  match op with
  | OpUpload up => upload_id up ∉ map file_id (files w)
  | _ => True
  end.

Inductive reached (form_is_valid : Upload → bool) (u : UserId) (w0 : World) : World → Prop :=
  | reached_start : reached form_is_valid u w0 w0
  | reached_step (w : World) (op : FileOp) :
      reached form_is_valid u w0 w → fresh_key op w →
      reached form_is_valid u w0 (run_file_op form_is_valid u op w).

(** A computation that never changes the profile table. *)
Definition keeps_profiles {A} (m : M A) : Prop :=
  ∀ w r w', m w = (r, w') → profiles w' = profiles w.

(** The folder with key [c] is in the table, and every row with that key
    has its parent among [ps]. *)
Definition present (c : FolderId) (w : World) : Prop :=
  ∃ g, g ∈ folders w ∧ folder_id g = c.

Definition hangs_at (c : FolderId) (ps : list (option FolderId)) (w : World) : Prop :=
  ∀ g, g ∈ folders w → folder_id g = c → parent_folder g ∈ ps.

(** ** Well-formed folder tables

    [below w p g]: the row [g] lies strictly below the folder with key [p].
    The table is acyclic when the keys can be ranked so that every folder
    ranks above its parent. *)
Inductive below (w : World) (p : FolderId) : Folder → Prop :=
  | below_child (g : Folder) :
      g ∈ folders w → parent_folder g = Some p → below w p g
  | below_step (g h : Folder) :
      below w p h → g ∈ folders w → parent_folder g = Some (folder_id h) → below w p g.

Definition ranked (rank : FolderId → nat) (w : World) : Prop :=
  ∀ g p, g ∈ folders w → parent_folder g = Some p → (rank p < rank (folder_id g))%nat.

(** Fuel that exceeds every rank lets the recursion reach all leaves. *)
Definition enough_fuel (rank : FolderId → nat) (w : World) : nat :=
  S (S (max_list (map (λ g, rank (folder_id g)) (folders w)))).

(** * Further views

    The views of views.py that the quota, trash and share-link
    properties above do not reach: moving a file, deleting an empty
    folder, restoring every trashed file, creating share links and
    downloading a shared folder, with the model methods they call. *)

From Stdlib Require Import Ascii.

(** Exceptions that these views can meet besides those of the ORM. *)
Inductive Error :=
  | Orm (e : Exception)
  | ValueError
  | OverflowError
  | ValidationError         (* a text that is not a UUID *)
  | JSONDecodeError.

(** ** Text of a request

    A text is a sequence of code points below 256; the str methods are
    given on that range. *)

(** str.isspace() of one character *)
Definition isspace (c : Ascii.ascii) : bool :=
  let n := Ascii.N_of_ascii c in
  ((9 <=? n) && (n <=? 13) || (28 <=? n) && (n <=? 32) || (n =? 133) || (n =? 160))%N.

Fixpoint lstrip (s : string) : string :=
  match s with
  | String c rest => if isspace c then lstrip rest else s
  | EmptyString => EmptyString
  end.

Fixpoint rstrip (s : string) : string :=
  match s with
  | String c rest =>
      match rstrip rest with
      | EmptyString => if isspace c then EmptyString else String c EmptyString
      | kept => String c kept
      end
  | EmptyString => EmptyString
  end.

Definition strip (s : string) : string := rstrip (lstrip s).

Definition is_decimal (c : Ascii.ascii) : bool :=
  ((48 <=? Ascii.N_of_ascii c) && (Ascii.N_of_ascii c <=? 57))%N.

(** The characters of the range whose str.isdigit() is true: the decimal
    digits and the superscripts two, three and one. *)
Definition isdigit_char (c : Ascii.ascii) : bool :=
  is_decimal c
  || ((Ascii.N_of_ascii c =? 178) || (Ascii.N_of_ascii c =? 179) || (Ascii.N_of_ascii c =? 185))%N.

Fixpoint all_chars (p : Ascii.ascii → bool) (s : string) : bool :=
  match s with
  | String c rest => p c && all_chars p rest
  | EmptyString => true
  end.

Definition isdigit (s : string) : bool :=
  negb (bool_decide (s = "")) && all_chars isdigit_char s.

Fixpoint int_digits (acc : Z) (s : string) : option Z :=
  match s with
  | String c rest =>
      if is_decimal c then int_digits (10 * acc + (Z.of_N (Ascii.N_of_ascii c) - 48)) rest
      else None
  | EmptyString => Some acc
  end.

(** int(s) for a text that passed isdigit(): ValueError on a superscript
    digit, and on more digits than [max_str_digits] where the interpreter
    has such a limit. *)
Definition int (max_str_digits : option nat) (s : string) : Error + Z :=
  match max_str_digits with
  | Some n => if decide (n < String.length s)%nat then inl ValueError
              else from_option inr (inl ValueError) (int_digits 0 s)
  | None => from_option inr (inl ValueError) (int_digits 0 s)
  end.

(** sep.join(parts) *)
Fixpoint join (sep : string) (parts : list string) : string :=
  match parts with
  | [] => ""
  | [p] => p
  | p :: rest => p +:+ sep +:+ join sep rest
  end.

(** ** Foreign keys followed on attribute access *)

(** file_obj.folder *)
Definition related_folder (f : File) (w : World) : Result (option Folder) :=
  match file_folder f with
  | None => Ok None
  | Some gid =>
      match objects_get DoesNotExist (λ g, bool_decide (folder_id g = gid)) (folders w) with
      | Ok g => Ok (Some g)
      | Raise e => Raise e
      end
  end.

(** folder.parent_folder *)
Definition parent_of (g : Folder) (w : World) : Result (option Folder) :=
  match parent_folder g with
  | None => Ok None
  | Some pid =>
      match objects_get DoesNotExist (λ r, bool_decide (folder_id r = pid)) (folders w) with
      | Ok p => Ok (Some p)
      | Raise e => Raise e
      end
  end.

(** ** move_file *)

(** json.loads(request.body) and data.get('folder'), as far as the view
    tells the outcomes apart. *)
Inductive FolderArg :=
  | Falsy                   (* no key 'folder', null, the empty text *)
  | NotUuid                 (* a value that is no key of the Folder table *)
  | Key (gid : FolderId).

Inductive MoveBody :=
  | BodyNotJson             (* json.JSONDecodeError *)
  | BodyNotObject           (* a JSON value without the method get *)
  | BodyObject (folder : FolderArg).

Inductive MoveResponse :=
  | MovedToFolder (name : string)
  | MovedToRoot
  | FolderNotFound          (* except Folder.DoesNotExist *)
  | InvalidRequestData      (* except json.JSONDecodeError *)
  | MoveFailed (e : Error)  (* except Exception *)
  | MoveInvalidMethod.

Definition with_file_folder (g : option FolderId) (f : File) : File :=
  {| file_id := file_id f; file_name := file_name f; file_file := file_file f;
     size := size f; file_owner := file_owner f; file_folder := g;
     file_is_deleted := file_is_deleted f |}.

(** The tail of both branches: old_folder = file_obj.folder, the
    assignment and file_obj.save(). *)
Definition move_to (target : option FolderId) (done : MoveResponse) (file_obj : File)
    (w : World) : MoveResponse * World :=
  match related_folder file_obj w with
  | Raise DoesNotExist => (FolderNotFound, w)
  | Raise e => (MoveFailed (Orm e), w)
  | Ok old_folder => (done, save_file (with_file_folder target file_obj) w)
  end.

Definition move_file (method : Method) (request_user : UserId) (fid : FileId)
    (body : MoveBody) (w : World) : MoveResponse * World :=
  match method with
  | GET => (MoveInvalidMethod, w)
  | POST =>
      match get_object_or_404
              (λ f, bool_decide (file_id f = fid ∧ file_owner f = request_user)) (files w) with
      | Raise e => (MoveFailed (Orm e), w)
      | Ok file_obj =>
          match body with
          | BodyNotJson => (InvalidRequestData, w)
          | BodyNotObject => (MoveFailed (Orm AttributeError), w)
          | BodyObject Falsy => move_to None MovedToRoot file_obj w
          | BodyObject NotUuid => (MoveFailed ValidationError, w)
          | BodyObject (Key gid) =>
              match get_object_or_404
                      (λ g, bool_decide (folder_id g = gid ∧ folder_owner g = request_user))
                      (folders w) with
              | Raise e => (MoveFailed (Orm e), w)
              | Ok folder =>
                  move_to (Some (folder_id folder)) (MovedToFolder (folder_name folder))
                          file_obj w
              end
          end
      end
  end.

(** ** delete_folder *)

Inductive DeleteFolderResponse :=
  | FolderDeleted
  | FolderNotEmpty
  | DeleteFolderInvalidRequest
  | DeleteFolderUncaught (e : Exception).   (* no try around the lookup *)

Definition delete_folder (method : Method) (request_user : UserId) (gid : FolderId)
    (w : World) : DeleteFolderResponse * World :=
  match method with
  | GET => (DeleteFolderInvalidRequest, w)
  | POST =>
      match get_object_or_404
              (λ g, bool_decide (folder_id g = gid ∧ folder_owner g = request_user))
              (folders w) with
      | Raise e => (DeleteFolderUncaught e, w)
      | Ok folder =>
          (* folder.files.exists() or folder.subfolders.exists() *)
          if negb (bool_decide (filter (λ f, file_folder f = Some (folder_id folder))
                                       (files w) = []))
             || negb (bool_decide (filter (λ g, parent_folder g = Some (folder_id folder))
                                          (folders w) = []))
          then (FolderNotEmpty, w)
          else (FolderDeleted, delete_folder_row (folder_id folder) w)
      end
  end.

(** ** restore_all_files *)

Inductive RestoreAllResponse :=
  | Restored (restored_count : nat)
  | RestoreAllFailed (e : Exception)
  | RestoreAllInvalidMethod.

(** One round of the loop; true when the item had a file. *)
Definition restore_all_item (trash_item : Trash) : M bool :=
  file_obj ← trash_item_file trash_item ;
  match file_obj with
  | None => ret false
  | Some file_obj =>
      modify (save_file (with_file_is_deleted false file_obj)) ;;
      modify (delete_trash_row (trash_id trash_item)) ;;
      ret true
  end.

Fixpoint restore_all_loop (trash_items : list Trash) (restored_count : nat) : M nat :=
  match trash_items with
  | [] => ret restored_count
  | trash_item :: rest =>
      bind (restore_all_item trash_item) (λ restored : bool,
        restore_all_loop rest (if restored then S restored_count else restored_count))
  end.

Definition restore_all_files (method : Method) (request_user : UserId)
    : World → RestoreAllResponse * World :=
  match method with
  | GET => λ w, (RestoreAllInvalidMethod, w)
  | POST => λ w,
      let trash_items := trash_of request_user w in
      match restore_all_loop trash_items 0%nat w with
      | (Ok restored_count, w') => (Restored restored_count, w')
      | (Raise e, w') => (RestoreAllFailed e, w')
      end
  end.

(** The rows of the file table whose key is in [fids], taken out of the
    trash. *)
Definition unflag_files (fids : list FileId) (fs : list File) : list File :=
  map (λ r, if bool_decide (file_id r ∈ fids) then with_file_is_deleted false r else r) fs.

(** ** Creating share links *)

(** The fields of request.POST that the two views read. *)
Record ShareForm := {
  form_expires_in : option string;
  form_enable_password : option string;
  form_password : option string
}.

Inductive ShareCreated :=
  | ShareUrl (share_url : string) (expires : option Time) (with_password : bool)
  | ShareCreateFailed (e : Error)
  | ShareCreateInvalidMethod.

(** The last second of the year 9999, where datetime arithmetic ends, and
    the largest number of days of a timedelta. *)
Definition datetime_max : Time := 253402300799.
Definition timedelta_max_days : Z := 999999999.

Definition with_expires_at (t : option Time) (l : ShareLink) : ShareLink :=
  {| share_file_ref := share_file_ref l; share_folder_ref := share_folder_ref l;
     token := token l; expires_at := t; is_active := is_active l;
     require_password := require_password l; password_hash := password_hash l |}.

Definition with_password (required : bool) (hash : option string) (l : ShareLink)
    : ShareLink :=
  {| share_file_ref := share_file_ref l; share_folder_ref := share_folder_ref l;
     token := token l; expires_at := expires_at l; is_active := is_active l;
     require_password := required; password_hash := hash |}.

(** ShareLink(file=..., folder=...) with the defaults of the model and the
    drawn token. *)
Definition new_share_link (file : option FileId) (folder : option FolderId) (tok : string)
    : ShareLink :=
  {| share_file_ref := file; share_folder_ref := folder; token := tok;
     expires_at := None; is_active := true; require_password := false;
     password_hash := None |}.

Section ShareCreate.
(** django.contrib.auth.hashers.make_password with the salt it draws, and
    the interpreter's limit on the digits of an integer text. *)
Variable hashers_make_password : string → string → string.
Variable int_max_str_digits : option nat.

(** timezone.now() + timezone.timedelta(days=int(expires_in)) *)
Definition requested_expiry (form : ShareForm) (now : Time) : Error + option Time :=
  match form_expires_in form with
  | Some expires_in =>
      if negb (bool_decide (expires_in = "")) && isdigit expires_in then
        match int int_max_str_digits expires_in with
        | inl e => inl e
        | inr days =>
            if decide (timedelta_max_days < days) then inl OverflowError
            else if decide (datetime_max < now + days * 86400) then inl OverflowError
            else inr (Some (now + days * 86400))
        end
      else inr None
  | None => inr None
  end.

(** The body that create_share_link and create_folder_share_link share
    after the lookup of the item: the row is created, then completed in
    memory and saved under its primary key, which is its position here. *)
Definition create_link (path : string) (form : ShareForm) (tok salt : string) (now : Time)
    (share_link : ShareLink) (w : World) : ShareCreated * World :=
  let pk := length (share_links w) in
  let w1 := set_share_links (share_links w ++ [share_link]) w in
  match requested_expiry form now with
  | inl e => (ShareCreateFailed e, w1)
  | inr expires =>
      let share_link := with_expires_at expires share_link in
      let enable_password := bool_decide (form_enable_password form = Some "on") in
      let password := strip (default "" (form_password form)) in
      let share_link :=
        if enable_password && negb (bool_decide (password = ""))
        then (* share_link.set_password(password) *)
          with_password true (Some (hashers_make_password salt password)) share_link
        else with_password false None share_link in
      (ShareUrl (path +:+ token share_link +:+ "/") (expires_at share_link)
                (has_password share_link),
       set_share_links (<[pk := share_link]> (share_links w1)) w1)
  end.

Definition create_share_link (method : Method) (request_user : UserId) (fid : FileId)
    (form : ShareForm) (tok salt : string) (now : Time) (w : World)
    : ShareCreated * World :=
  match method with
  | GET => (ShareCreateInvalidMethod, w)
  | POST =>
      match get_object_or_404
              (λ f, bool_decide (file_id f = fid ∧ file_owner f = request_user)) (files w) with
      | Raise e => (ShareCreateFailed (Orm e), w)
      | Ok file_obj =>
          create_link "/share/" form tok salt now
            (new_share_link (Some (file_id file_obj)) None tok) w
      end
  end.

Definition create_folder_share_link (method : Method) (request_user : UserId)
    (gid : FolderId) (form : ShareForm) (tok salt : string) (now : Time) (w : World)
    : ShareCreated * World :=
  match method with
  | GET => (ShareCreateInvalidMethod, w)
  | POST =>
      match get_object_or_404
              (λ g, bool_decide (folder_id g = gid ∧ folder_owner g = request_user))
              (folders w) with
      | Raise e => (ShareCreateFailed (Orm e), w)
      | Ok folder =>
          create_link "/share/folder/" form tok salt now
            (new_share_link None (Some (folder_id folder)) tok) w
      end
  end.
End ShareCreate.

(** ** Folder paths *)

(** [chain w p g names]: the folder [g] lies below the folder with key
    [p], and [names] are the names on the way from the child of [p] down
    to [g]. *)
Inductive chain (w : World) (p : FolderId) : Folder → list string → Prop :=
  | chain_child (g : Folder) :
      g ∈ folders w → parent_folder g = Some p → chain w p g [folder_name g]
  | chain_step (g h : Folder) (names : list string) :
      chain w p h names → g ∈ folders w → parent_folder g = Some (folder_id h) →
      chain w p g (names ++ [folder_name g]).

(** Every reference to a parent folder leads to a row. *)
Definition parents_exist (w : World) : Prop :=
  ∀ g p, g ∈ folders w → parent_folder g = Some p → ∃ h, h ∈ folders w ∧ folder_id h = p.

(** The folders reached from the folder [p] by going down through
    non-deleted folders only. *)
Inductive live_below (w : World) (p : FolderId) : Folder → Prop :=
  | live_child (g : Folder) :
      g ∈ folders w → parent_folder g = Some p → folder_is_deleted g = false →
      live_below w p g
  | live_step (g h : Folder) :
      live_below w p h → g ∈ folders w → parent_folder g = Some (folder_id h) →
      folder_is_deleted g = false → live_below w p g.


(** Folder.get_full_path; [fuel] bounds the depth of the recursion. *)
Fixpoint get_full_path (fuel : nat) (w : World) (g : Folder) : option (Result string) :=
  match fuel with
  | O => None
  | S fuel' =>
      match parent_of g w with
      | Raise e => Some (Raise e)
      | Ok None => Some (Ok (folder_name g))
      | Ok (Some parent) =>
          match get_full_path fuel' w parent with
          | Some (Ok path) => Some (Ok (path +:+ "/" +:+ folder_name g))
          | other => other
          end
      end
  end.

(** The loop of get_relative_folder_path: the names are put in front of
    [path_parts] while the folder is not the root and has a parent. *)
Fixpoint relative_path_parts (fuel : nat) (w : World) (folder root_folder : Folder)
    (path_parts : list string) : option (Result (list string)) :=
  match fuel with
  | O => None
  | S fuel' =>
      if decide (folder_id folder = folder_id root_folder) then Some (Ok path_parts)
      else
        match parent_of folder w with
        | Raise e => Some (Raise e)
        | Ok None => Some (Ok path_parts)
        | Ok (Some parent) =>
            relative_path_parts fuel' w parent root_folder (folder_name folder :: path_parts)
        end
  end.

Definition get_relative_folder_path (fuel : nat) (w : World)
    (current_folder root_folder : Folder) : option (Result string) :=
  match relative_path_parts fuel w current_folder root_folder [] with
  | Some (Ok path_parts) => Some (Ok (join "/" path_parts))
  | Some (Raise e) => Some (Raise e)
  | None => None
  end.

(** ** download_shared_folder *)

#[global] Instance File_eq_dec : EqDecision File.
Proof. solve_decision. Defined.

(** The responses: the archive with its entries (the path inside the
    archive and the key of the blob that was read), 410, 404 and 500. *)
Inductive Download :=
  | Archive (filename : string) (entries : list (string * string))
  | DownloadExpired
  | NoFilesToDownload
  | DownloadError (e : Error).

(** One round of the loop over the files: [Some None] when the round ends
    in the except clause and the file is skipped. *)
Definition zip_entry (fuel : nat) (w : World) (folder : Folder) (file_obj : File)
    : option (option (string * string)) :=
  if decide (file_file file_obj ∈ blobs w) then       (* file_obj.file.read() *)
    match related_folder file_obj w with
    | Raise e => Some None
    | Ok None => Some (Some (file_name file_obj, file_file file_obj))
    | Ok (Some g) =>
        if decide (folder_id g = folder_id folder)
        then Some (Some (file_name file_obj, file_file file_obj))
        else
          match get_relative_folder_path fuel w g folder with
          | None => None
          | Some (Raise e) => Some None
          | Some (Ok relative_path) =>
              Some (Some (relative_path +:+ "/" +:+ file_name file_obj, file_file file_obj))
          end
    end
  else Some None.

Fixpoint zip_entries (fuel : nat) (w : World) (folder : Folder) (all_files : list File)
    : option (list (string * string)) :=
  match all_files with
  | [] => Some []
  | file_obj :: rest =>
      entry ← zip_entry fuel w folder file_obj;
      entries ← zip_entries fuel w folder rest;
      Some (option_list entry ++ entries)
  end.

Section SharedFolderDownload.
(** UUIDField.to_python accepts the text of the URL (the route takes any
    text). *)
Variable is_uuid : string → bool.

Definition download_shared_folder (fuel : nat) (tok : string) (now : Time) (w : World)
    : option Download :=
  if is_uuid tok then
    match active_link true tok w with
    | Raise e => Some (DownloadError (Orm e))
    | Ok share_link =>
        if expired share_link now then Some DownloadExpired
        else
          match share_folder_ref share_link with
          | None => Some (DownloadError (Orm AttributeError))
          | Some gid =>
              match objects_get DoesNotExist (λ g, bool_decide (folder_id g = gid))
                                (folders w) with
              | Raise e => Some (DownloadError (Orm e))
              | Ok folder =>
                  all_files ← get_all_files_in_folder fuel w (folder_id folder);
                  if decide (fetch all_files w = []) then Some NoFilesToDownload
                  else
                    entries ← zip_entries fuel w folder (fetch all_files w);
                    Some (Archive (folder_name folder +:+ "_files.zip") entries)
              end
          end
    end
  else Some (DownloadError ValidationError).
End SharedFolderDownload.

(** ** download_file *)

Inductive FileDownload :=
  | DownloadUrl (download_url : string) (filename : string)   (* JSON, for XMLHttpRequest *)
  | DownloadRedirect (download_url : string)
  | FileDownloadFailed (e : Exception).

Section DownloadFile.
Variable generate_presigned_url : string → string.

Definition download_file (xml_http_request : bool) (request_user : UserId) (fid : FileId)
    (w : World) : FileDownload :=
  match get_object_or_404
          (λ f, bool_decide (file_id f = fid ∧ file_owner f = request_user)) (files w) with
  | Raise e => FileDownloadFailed e
  | Ok file_obj =>
      let presigned_url := generate_presigned_url (actual_key (file_file file_obj) w) in
      if xml_http_request then DownloadUrl presigned_url (file_name file_obj)
      else DownloadRedirect presigned_url
  end.
End DownloadFile.

(** The page with the file row it shows rewritten by [h]. *)
Definition page_map (h : File → File) (page : SharePage) : SharePage :=
  match page with
  | ShareFile f download_url => ShareFile (h f) download_url
  | _ => page
  end.

(** A request for a link to the report of [ShareScenario] that expires
    in seven days, with a password that is blank, and one with a password
    between blanks; the hasher of that scenario. *)
Module LinkScenario.
Definition make (salt password : string) : string := "hash:" +:+ password.
Definition blank : ShareForm :=
  {| form_expires_in := Some "7"; form_enable_password := Some "on";
     form_password := Some "   " |}.
Definition secret : ShareForm :=
  {| form_expires_in := Some "7"; form_enable_password := Some "on";
     form_password := Some " secret " |}.
End LinkScenario.

(** The trashed file of [PurgeScenario] with an active share link. *)
Module RevokeScenario.
Definition link : ShareLink := new_share_link (Some 1%nat) None "tok-f1".
Definition w : World := set_share_links [link] PurgeScenario.w.
End RevokeScenario.

(** The chain A / B / C of [Tree.deep] with a password-protected link to
    the folder A. *)
Module FolderShareScenario.
Definition link : ShareLink :=
  with_password true (Some "hash:secret") (new_share_link None (Some 10%nat) "tok-A").
Definition w : World := set_share_links [link] Tree.deep.
End FolderShareScenario.

(** The same chain with a password-protected link to the folder A whose
    token is a UUID, as uuid.uuid4 draws it. *)
Module ProtectedFolderScenario.
Definition tok : string := "3f2b8c1e-5a44-4d09-9b7a-0c6e2d1f8a55".
Definition link : ShareLink :=
  with_password true (Some "hash:secret") (new_share_link None (Some 10%nat) tok).
Definition w : World := set_share_links [link] Tree.deep.
End ProtectedFolderScenario.

(** * Usernames for social accounts (adapters.py) *)

(** s.split(sep)[0]: the text before the first separator. *)
Fixpoint before (sep : Ascii.ascii) (s : string) : string :=
  match s with
  | String c rest => if decide (c = sep) then EmptyString else String c (before sep rest)
  | EmptyString => EmptyString
  end.

(** The loop of generate_unique_username over the usernames of the User
    table; [randint] is random.randint, which returns a number between its
    two arguments, and [fuel] bounds the rounds. *)
Fixpoint username_loop (randint : Z → Z → Z) (fuel : nat) (users : list string)
    (base_username : string) (counter : nat) (username : string) : option string :=
  match fuel with
  | O => None
  | S fuel' =>
      if bool_decide (username ∈ users) then
        let username := base_username +:+ pretty counter in
        let counter := S counter in
        if decide (100 < counter)%nat
        then Some (base_username +:+ pretty (randint 1000 9999))
        else username_loop randint fuel' users base_username counter username
      else Some username
  end.

Definition generate_unique_username (randint : Z → Z → Z) (fuel : nat)
    (users : list string) (email : string) : option string :=
  let base_username := before "@"%char email in
  username_loop randint fuel users base_username 1 base_username.

(** The names the loop tries, in order: the base, then the base followed
    by 1, 2, ... *)
Definition candidate (base_username : string) (i : nat) : string :=
  match i with
  | O => base_username
  | S _ => base_username +:+ pretty i
  end.

(** * The features of a plan (forms.py, admin_plan_edit) *)

(** s.replace(a, b) for single characters, s.split(sep) and the test
    whether a character occurs. *)
Fixpoint replace_char (a b : ascii) (s : string) : string :=
  match s with
  | String c rest => String (if decide (c = a) then b else c) (replace_char a b rest)
  | EmptyString => EmptyString
  end.

Fixpoint split (sep : ascii) (s : string) : list string :=
  match s with
  | String c rest =>
      if decide (c = sep) then EmptyString :: split sep rest
      else match split sep rest with
           | piece :: pieces => String c piece :: pieces
           | [] => [String c EmptyString]
           end
  | EmptyString => [EmptyString]
  end.

Fixpoint contains (a : ascii) (s : string) : bool :=
  match s with
  | String c rest => bool_decide (c = a) || contains a rest
  | EmptyString => false
  end.

(** StoragePlanForm.clean_features *)
Definition clean_features (features : string) : list string :=
  map strip
    (filter (λ feature, strip feature ≠ "")
            (split "," (replace_char "010" "," features))).

(** The text that admin_plan_edit puts into the form for the stored
    list. *)
Definition features_text (features : list string) : string := join ", " features.

(** A feature as clean_features returns it: not empty, no blank at either
    end, no comma and no line feed. *)
Definition clean_feature (x : string) : Prop :=
  x ≠ "" ∧ strip x = x ∧ contains "," x = false ∧ contains "010" x = false.

(** * Sizes typed by the administrator (forms.py)

    StoragePlanForm shows a stored size as a text with a unit and reads
    the typed text back into bytes.  The texts of this part are ASCII:
    str.upper() is given on that range only. *)

Definition is_ascii (s : string) : bool := all_chars (λ c, (N_of_ascii c <? 128)%N) s.

Definition upper_char (c : ascii) : ascii :=
  let n := N_of_ascii c in
  if ((97 <=? n) && (n <=? 122))%N then ascii_of_N (n - 32) else c.

Fixpoint upper (s : string) : string :=
  match s with
  | String c rest => String (upper_char c) (upper rest)
  | EmptyString => EmptyString
  end.

(** s.replace(a, '') *)
Fixpoint remove_char (a : ascii) (s : string) : string :=
  match s with
  | String c rest => if decide (c = a) then remove_char a rest else String c (remove_char a rest)
  | EmptyString => EmptyString
  end.

(** The longest prefix of characters with [p], and the rest. *)
Fixpoint span (p : ascii → bool) (s : string) : string * string :=
  match s with
  | String c rest =>
      if p c then (String c (span p rest).1, (span p rest).2) else (EmptyString, s)
  | EmptyString => (EmptyString, EmptyString)
  end.

(** What [$] leaves out: one line feed at the very end. *)
Fixpoint chomp (s : string) : string :=
  match s with
  | String c EmptyString => if decide (c = "010"%char) then EmptyString else s
  | String c rest => String c (chomp rest)
  | EmptyString => EmptyString
  end.

(** re.match(r'^(\d+(?:\.\d+)?)\s*([KMGTP]?B)?$', s): the digits before the
    point, the digits after it and the unit. *)
Definition match_size (s : string) : option (string * string * option string) :=
  let '(whole, rest) := span is_decimal s in
  if decide (whole = "") then None
  else
    let '(fraction, rest) :=
      match rest with
      | String "." after =>
          if decide ((span is_decimal after).1 = "") then (EmptyString, rest)
          else span is_decimal after
      | _ => (EmptyString, rest)
      end in
    let tail := chomp (span isspace rest).2 in
    if decide (tail = "") then Some (whole, fraction, None)
    else if bool_decide (tail ∈ ["B"; "KB"; "MB"; "GB"; "TB"; "PB"])
    then Some (whole, fraction, Some tail)
    else None.

(** The dictionary units of the two clean methods. *)
Definition units (unit : string) : option Z :=
  if decide (unit = "KB") then Some 1024
  else if decide (unit = "MB") then Some (1024 ^ 2)
  else if decide (unit = "GB") then Some (1024 ^ 3)
  else if decide (unit = "TB") then Some (1024 ^ 4)
  else None.

(** ** Floating-point numbers

    A float that is not negative is [m * 2 ^ e] with [m < 2 ^ 53], or
    infinity.  The exponent has no lower bound here: the numbers below
    the normal range are only ever multiplied by at most [2 ^ 40] and cut
    to an integer, which gives 0 with or without that bound. *)
Inductive Float :=
  | Finite (m e : Z)
  | Infinity.

(** The integer nearest to [num / den], the even one of two. *)
Definition round_half_even (num den : Z) : Z :=
  let q := num / den in
  let r := num mod den in
  if 2 * r <? den then q
  else if den <? 2 * r then q + 1
  else if Z.even q then q else q + 1.

(** [num / den] rounded to 53 bits, for [0 ≤ num] and [0 < den]: what
    float(text) gives for a decimal text and what the true division of
    two integers gives. *)
Definition float_of_ratio (num den : Z) : Float :=
  if decide (num = 0) then Finite 0 0
  else
    let l := Z.log2 num - Z.log2 den in
    let e := (if num * 2 ^ Z.max 0 (- l) <? den * 2 ^ Z.max 0 l then l - 1 else l) - 52 in
    let m := round_half_even (num * 2 ^ Z.max 0 (- e)) (den * 2 ^ Z.max 0 e) in
    let e := if decide (m = 2 ^ 53) then e + 1 else e in
    let m := if decide (m = 2 ^ 53) then 2 ^ 52 else m in
    if decide (972 ≤ e) then Infinity else Finite m e.

(** x * factor for a factor that is a power of two *)
Definition float_scale (x : Float) (factor : Z) : Float :=
  match x with
  | Finite m e =>
      if decide (m = 0) then x
      else if decide (972 ≤ e + Z.log2 factor) then Infinity
      else Finite m (e + Z.log2 factor)
  | Infinity => Infinity
  end.

(** int(x): None is OverflowError *)
Definition float_to_int (x : Float) : option Z :=
  match x with
  | Finite m e => Some (if decide (0 ≤ e) then m * 2 ^ e else m / 2 ^ (- e))
  | Infinity => None
  end.

(** f'{x:.0f}' *)
Definition format_0f (x : Float) : string :=
  match x with
  | Finite m e => pretty (if decide (0 ≤ e) then m * 2 ^ e else round_half_even m (2 ^ (- e)))
  | Infinity => "inf"
  end.

(** ** The clean methods *)

Inductive Cleaned :=
  | Bytes (n : Z)
  | ValidationErr (message : string)
  | Overflowed.                 (* OverflowError, which leaves the form *)

(** The body that clean_max_storage_size_input and
    clean_max_file_size_input share; None is a text outside ASCII. *)
Definition clean_size (required invalid : string) (unknown : string → string)
    (typed : string) : option Cleaned :=
  if is_ascii typed then
    Some (
      let storage_input := strip (upper typed) in
      if decide (storage_input = "") then ValidationErr required
      else
        let storage_input := upper (remove_char " " storage_input) in
        match match_size storage_input with
        | None => ValidationErr invalid
        | Some (whole, fraction, unit) =>
            let number :=
              float_of_ratio (default 0 (int_digits 0 (whole +:+ fraction)))
                             (10 ^ Z.of_nat (String.length fraction)) in
            let unit := default "B" unit in
            if decide (unit = "B") then from_option Bytes Overflowed (float_to_int number)
            else
              match units unit with
              | Some factor =>
                  from_option Bytes Overflowed (float_to_int (float_scale number factor))
              | None => ValidationErr (unknown unit)
              end
        end)
  else None.

Definition clean_max_storage_size_input : string → option Cleaned :=
  clean_size "Total storage size is required"
    "Please enter a valid storage size (e.g., 5GB, 50GB, 1TB, 500MB)"
    (λ unit, "Unknown unit: " +:+ unit +:+ ". Use MB, GB, or TB").

Definition clean_max_file_size_input : string → option Cleaned :=
  clean_size "Max file size is required"
    "Please enter a valid file size (e.g., 100MB, 2GB, 5GB)"
    (λ unit, "Unknown unit: " +:+ unit +:+ ". Use MB or GB").

(** ** The texts that StoragePlanForm.__init__ shows for a stored plan;
    None is the OverflowError of a division beyond the floats. *)
Definition in_unit (bytes factor : Z) (unit : string) : option string :=
  match float_of_ratio bytes factor with
  | Infinity => None
  | x => Some (format_0f x +:+ unit)
  end.

Definition storage_size_text (storage_bytes : Z) : option string :=
  if decide (1024 ^ 4 ≤ storage_bytes) then in_unit storage_bytes (1024 ^ 4) "TB"
  else if decide (1024 ^ 3 ≤ storage_bytes) then in_unit storage_bytes (1024 ^ 3) "GB"
  else if decide (1024 ^ 2 ≤ storage_bytes) then in_unit storage_bytes (1024 ^ 2) "MB"
  else Some (pretty storage_bytes +:+ " bytes").

Definition file_size_text (file_size_bytes : Z) : option string :=
  if decide (1024 ^ 3 ≤ file_size_bytes) then in_unit file_size_bytes (1024 ^ 3) "GB"
  else if decide (1024 ^ 2 ≤ file_size_bytes) then in_unit file_size_bytes (1024 ^ 2) "MB"
  else Some (pretty file_size_bytes +:+ " bytes").

(** The units that the pattern of the clean methods admits, and none. *)
Definition admitted_units : list string := [""; "B"; "KB"; "MB"; "GB"; "TB"; "PB"].

(** * Properties *)

(** ** Lookups *)

Lemma objects_get_Ok {A} (missing : Exception) (p : A → bool) (l : list A) (x : A) :
  objects_get missing p l = Ok x ↔ filter (λ y, p y = true) l = [x].
Proof.
  unfold objects_get. destruct (filter _ l) as [|y [|z r]]; split; intros H;
    try discriminate; congruence.
Qed.

Lemma filter_map_stable {A} (P : A → Prop) `{!∀ x, Decision (P x)} (f : A → A) (l : list A) :
  (∀ x, P (f x) ↔ P x) → filter P (map f l) = map f (filter P l).
Proof.
  intros Hf. induction l as [|a l IH]; [done|]. simpl.
  rewrite !filter_cons. specialize (Hf a).
  repeat case_decide; simpl; rewrite IH; tauto.
Qed.

Lemma filter_none {A} (P : A → Prop) `{!∀ x, Decision (P x)} (l : list A) :
  (∀ x, x ∈ l → ¬ P x) → filter P l = [].
Proof.
  induction l as [|a l IH]; [done|]. intros Hl.
  rewrite filter_cons_False by (apply Hl; left).
  apply IH. intros x Hx. apply Hl. by right.
Qed.

Lemma filter_all {A} (P : A → Prop) `{!∀ x, Decision (P x)} (l : list A) :
  (∀ x, x ∈ l → P x) → filter P l = l.
Proof.
  induction l as [|a l IH]; [done|]. intros Hl.
  rewrite filter_cons_True by (apply Hl; left).
  f_equal. apply IH. intros x Hx. apply Hl. by right.
Qed.

Lemma map_ext_elem {A B} (f g : A → B) (l : list A) :
  (∀ x, x ∈ l → f x = g x) → map f l = map g l.
Proof.
  intros Hfg. induction l as [|a l IH]; [done|]. simpl. f_equal.
  - apply Hfg. left.
  - apply IH. intros x Hx. apply Hfg. by right.
Qed.

Lemma profile_of_save (u : UserId) (n : Z) (p : UserProfile) (w : World) :
  profile_of u w = Ok p →
  profile_of u (save_profile (with_used_storage n p) w) = Ok (with_used_storage n p).
Proof.
  unfold profile_of. rewrite !objects_get_Ok. intros H. simpl.
  assert (Hu : user p = u).
  { assert (Hin : p ∈ filter (λ y, bool_decide (user y = u) = true) (profiles w))
      by (rewrite H; set_solver).
    apply list_elem_of_filter in Hin as [Hp _]. by apply bool_decide_eq_true in Hp. }
  rewrite filter_map_stable.
  - rewrite H. simpl. rewrite Hu. by rewrite decide_True.
  - intros x. simpl. rewrite Hu. destruct (decide (user x = u)) as [->|Hne].
    + simpl. rewrite Hu. by rewrite !bool_decide_eq_true.
    + done.
Qed.

(** ** Upload admission *)

(** C2. An upload of size [s] by a user whose profile has plan [p] is
    refused with the file-size error when [s > max_file_size p], else
    with the storage-limit error when [used_storage + s > max_storage_size p],
    in both cases without any change; otherwise it succeeds, the file row
    is created and [used_storage] grows by exactly [s]. *)
Theorem upload_admission (form_is_valid : Upload → bool) (request_user : UserId)
    (up : Upload) (w : World) (profile : UserProfile) (plan : StoragePlan) :
  form_is_valid up = true →
  profile_of request_user w = Ok profile →
  storage_plan profile = Some plan →
  let s := upload_size up in
  let result := upload_file form_is_valid POST request_user up w in
  (s > max_file_size plan → result = (FileSizeExceedsLimit, w)) ∧
  (s ≤ max_file_size plan → used_storage profile + s > max_storage_size plan →
     result = (StorageLimitExceeded, w)) ∧
  (s ≤ max_file_size plan → used_storage profile + s ≤ max_storage_size plan →
     fst result = Success ∧
     (∃ file_obj, files (snd result) = files w ++ [file_obj] ∧
        file_id file_obj = upload_id up ∧ size file_obj = s ∧
        file_owner file_obj = request_user ∧ file_is_deleted file_obj = false ∧
        file_file file_obj ∈ blobs (snd result)) ∧
     (∃ profile', profile_of request_user (snd result) = Ok profile' ∧
        used_storage profile' = used_storage profile + s ∧
        user profile' = user profile ∧ storage_plan profile' = storage_plan profile)).
Proof.
  intros Hvalid Hprof Hplan s result. subst result s.
  unfold upload_file. rewrite Hvalid. fold (profile_of request_user w).
  rewrite Hprof, Hplan. simpl. repeat split.
  - intros Hbig. by rewrite decide_True.
  - intros Hsmall Hfull. rewrite decide_False by lia. by rewrite decide_True.
  - rewrite decide_False by lia. by rewrite decide_False by lia.
  - rewrite decide_False by lia. rewrite decide_False by lia. simpl.
    eexists. split; [reflexivity|]. simpl. repeat split. set_solver.
  - rewrite decide_False by lia. rewrite decide_False by lia. simpl.
    eexists. split.
    + apply (profile_of_save request_user _ profile
               (set_blobs _ (set_files _ w))). exact Hprof.
    + done.
Qed.

Example upload_scenario :
  let '(r1, w1) := Scenario.upload 1 300 Scenario.w0 in
  let '(r2, w2) := Scenario.upload 2 400 w1 in
  let '(r3, w3) := Scenario.upload 3 400 w2 in
  let '(r4, w4) := Scenario.upload 4 300 w3 in
  [r1; r2; r3; r4] = [Success; Success; StorageLimitExceeded; Success] ∧
  [Scenario.used w1; Scenario.used w2; Scenario.used w3; Scenario.used w4]
    = [[300]; [700]; [700]; [1000]] ∧
  map file_id (files w4) = [1; 2; 4]%nat.
Proof. vm_compute. done. Qed.

Lemma upload_admission_witness :
  fst (Scenario.upload 1 300 Scenario.w0) = Success ∧
  ∃ profile', profile_of 1%nat (snd (Scenario.upload 1 300 Scenario.w0)) = Ok profile' ∧
              used_storage profile' = 300.
Proof.
  destruct (upload_admission (λ _, true) 1%nat (Scenario.up 1 300) Scenario.w0
              Scenario.profile0 Scenario.plan) as (_ & _ & Hok);
    [reflexivity | reflexivity | reflexivity |].
  destruct Hok as (Hr & _ & profile' & Hp & Hused & _); [simpl; lia | simpl; lia|].
  split; [exact Hr|]. exists profile'. split; [exact Hp | exact Hused].
Defined.

(** ** Null plan *)

(** C10 (amended). For a profile whose plan reference is null the usage
    percent is 0 and [can_upload_file] is false for every size.  No upload
    of such a user gets through: the view does not ask [can_upload_file],
    it fails on the missing plan before anything is written, so the world
    (hence [used_storage]) stays as it was, whatever the size. *)
Theorem null_plan_behaviour (p : UserProfile) :
  storage_plan p = None →
  get_storage_usage_percent p = Ok (QArith_base.inject_Z 0) ∧
  (∀ file_size, can_upload_file p file_size = false) ∧
  (∀ form_is_valid up w,
     profile_of (user p) w = Ok p →
     upload_file form_is_valid POST (user p) up w
     = (if form_is_valid up then Uncaught AttributeError else InvalidFile, w)) ∧
  (∀ form_is_valid method up w,
     profile_of (user p) w = Ok p →
     snd (upload_file form_is_valid method (user p) up w) = w).
Proof.
  intros Hnull. unfold get_storage_usage_percent, can_upload_file. rewrite Hnull.
  repeat split.
  - intros valid up w Hp. unfold upload_file. destruct (valid up); [|done].
    fold (profile_of (user p) w). by rewrite Hp, Hnull.
  - intros valid method up w Hp. unfold upload_file. destruct method; [done|].
    destruct (valid up); [|done].
    fold (profile_of (user p) w). rewrite Hp, Hnull. done.
Qed.

Lemma null_plan_behaviour_witness :
  get_storage_usage_percent NullPlanScenario.profile = Ok (QArith_base.inject_Z 0) ∧
  can_upload_file NullPlanScenario.profile 1 = false ∧
  upload_file (λ _, true) POST 7%nat (Scenario.up 2 1) NullPlanScenario.w
  = (Uncaught AttributeError, NullPlanScenario.w).
Proof.
  destruct (null_plan_behaviour NullPlanScenario.profile) as (Hpct & Hcan & Hup & _);
    [reflexivity|].
  split; [exact Hpct|]. split; [exact (Hcan 1)|].
  apply (Hup (λ _, true) (Scenario.up 2 1) NullPlanScenario.w). reflexivity.
Defined.

(** The counter of a user without a plan can still rise.  The file is
    moved to the trash, the dashboard recounts (0: trashed files are left
    out), the file is restored and the dashboard recounts again: the
    counter goes from 0 to 300 while the plan is null. *)
Lemma null_plan_counter_can_rise :
  let w1 := snd (move_to_trash POST 7%nat 1%nat 1000 NullPlanScenario.w) in
  let w2 := snd (dashboard NullPlanScenario.free_plan 7%nat w1) in
  let w3 := snd (restore_file POST 7%nat 1%nat w2) in
  let w4 := snd (dashboard NullPlanScenario.free_plan 7%nat w3) in
  NullPlanScenario.used w2 = [(None, 0)] ∧ NullPlanScenario.used w4 = [(None, 300)] ∧
  ¬ (∀ p2 p4, profile_of 7%nat w2 = Ok p2 → profile_of 7%nat w4 = Ok p4 →
              storage_plan p2 = None → used_storage p4 ≤ used_storage p2).
Proof.
  split; [by vm_compute|]. split; [by vm_compute|].
  intros Hnever.
  specialize (Hnever (with_used_storage 0 NullPlanScenario.profile)
                     (with_used_storage 300 NullPlanScenario.profile)).
  assert (300 ≤ 0); [|lia].
  apply Hnever; by vm_compute.
Qed.

(** ** Share links: expiry and password verification *)

Lemma filter_unique {A B} (P : A → Prop) `{!∀ x, Decision (P x)} (key : A → B)
    (l : list A) (x : A) :
  NoDup (map key l) → x ∈ l → P x → (∀ y, P y → key y = key x) → filter P l = [x].
Proof.
  intros Hnd Hin HP Hkey. induction l as [|a l IH]; [by apply elem_of_nil in Hin|].
  simpl in Hnd. apply NoDup_cons in Hnd as [Hnotin Hnd].
  assert (Hout : x ∉ l → filter P l = []).
  { intros Hx. apply filter_none. intros y Hy HPy.
    apply Hkey in HPy. apply elem_of_cons in Hin as [->|Hin]; [|done].
    apply Hnotin. rewrite <- HPy. by apply list_elem_of_fmap_2. }
  rewrite filter_cons. apply elem_of_cons in Hin as [->|Hin].
  - rewrite decide_True by done. f_equal. apply Hout.
    intros Hx. apply Hnotin. by apply list_elem_of_fmap_2.
  - case_decide as Ha.
    + exfalso. apply Hnotin. rewrite (Hkey a Ha). by apply list_elem_of_fmap_2.
    + by apply IH.
Qed.

Lemma active_link_found (folder_only : bool) (w : World) (link : ShareLink) :
  NoDup (map token (share_links w)) →
  link ∈ share_links w →
  is_active link = true →
  (folder_only = true → share_folder_ref link ≠ None) →
  active_link folder_only (token link) w = Ok link.
Proof.
  intros Hnd Hin Hact Hfolder. unfold active_link, get_object_or_404.
  apply objects_get_Ok. apply (filter_unique _ token); try done.
  - by apply bool_decide_eq_true.
  - intros y Hy. apply bool_decide_eq_true in Hy. tauto.
Qed.

(** C8. A link whose [expires_at] is set and in the past resolves to the
    expired page although [is_active] is true, for the file view and (for a
    folder link) the folder view, and resolution leaves the database, the
    link included, and the session untouched. *)
Theorem expiry_precedence (check : string → string → bool) (presign : string → string)
    (fuel : nat) (w : World) (link : ShareLink) (t now : Time) (session : Session) :
  NoDup (map token (share_links w)) →
  link ∈ share_links w →
  is_active link = true →
  expires_at link = Some t →
  t < now →
  share_file presign (token link) now session w = (ShareExpired, w, session) ∧
  (share_folder_ref link ≠ None →
   share_folder fuel (token link) now session w = Some (ShareExpired, w, session)) ∧
  (∀ password method,
     share_links (verify_share_password check method (token link) password session w).1.2
       = share_links w).
Proof.
  intros Hnd Hin Hact Hexp Hpast.
  assert (Hexpired : expired link now = true).
  { unfold expired. rewrite Hexp. by apply bool_decide_eq_true. }
  repeat split.
  - unfold share_file. rewrite active_link_found by done. by rewrite Hexpired.
  - intros Hfolder. unfold share_folder. rewrite active_link_found by done.
    by rewrite Hexpired.
  - intros password method. unfold verify_share_password.
    destruct method; [done|]. rewrite active_link_found by done.
    repeat case_match; done.
Qed.

Lemma expiry_precedence_witness :
  share_file ShareScenario.presign "tok-stale" 101 ∅ ShareScenario.w
    = (ShareExpired, ShareScenario.w, ∅).
Proof.
  apply (expiry_precedence ShareScenario.check ShareScenario.presign 1
           ShareScenario.w ShareScenario.stale 100 101 ∅).
  - simpl. apply NoDup_cons. split; [|apply NoDup_singleton].
    intros Hin. apply list_elem_of_singleton in Hin. discriminate.
  - unfold ShareScenario.w. simpl. left.
  - reflexivity.
  - reflexivity.
  - lia.
Defined.

(** The session flag itself is kept apart.  When the password of a
    protected token is verified in session [a], the flag is written to
    [a]'s session only: the session of any other key [b] is as before, and
    share_file still shows [b] the password page. *)
Theorem password_isolation (check : string → string → bool) (presign : string → string)
    (w : World) (link : ShareLink) (password : string) (now : Time)
    (store : Sessions) (a b : string) :
  NoDup (map token (share_links w)) →
  link ∈ share_links w →
  is_active link = true →
  has_password link = true →
  expired link now = false →
  password ≠ "" →
  check_password check link password = true →
  a ≠ b →
  is_share_verified (token link) (default ∅ (store !! b)) = false →
  let '(r, w', store') :=
    in_session a (verify_share_password check POST (token link) (Some password)) store w in
  r = VerifyOk ∧ w' = w ∧
  is_share_verified (token link) (default ∅ (store' !! a)) = true ∧
  store' !! b = store !! b ∧
  is_share_verified (token link) (default ∅ (store' !! b)) = false ∧
  (in_session b (share_file presign (token link) now) store' w').1.1 = SharePassword.
Proof.
  intros Hnd Hin Hact Hpw Hexp Hne Hcheck Hab Hb.
  unfold in_session, verify_share_password.
  rewrite active_link_found by done. rewrite Hpw. simpl.
  rewrite bool_decide_eq_false_2 by done. simpl. rewrite Hcheck.
  unfold Sessions, Session in *.
  repeat split.
  - rewrite (lookup_insert_eq store a). unfold is_share_verified, session_get.
    generalize (default ∅ (store !! a)). intros s. cbv [from_option id].
    by rewrite (lookup_insert_eq s).
  - by rewrite (lookup_insert_ne store a b).
  - by rewrite (lookup_insert_ne store a b).
  - rewrite (lookup_insert_ne store a b) by done. unfold share_file.
    rewrite active_link_found by done. rewrite Hexp, Hpw.
    unfold is_share_verified in Hb. by rewrite Hb.
Qed.

Lemma password_isolation_witness :
  let link := ShareScenario.locked in
  let '(r, w', store') :=
    in_session "alice" (verify_share_password ShareScenario.check POST (token link)
                          (Some "secret")) ∅ ShareScenario.w in
  r = VerifyOk ∧ w' = ShareScenario.w ∧
  is_share_verified (token link) (default ∅ (store' !! "alice")) = true ∧
  store' !! "bob" = (∅ : Sessions) !! "bob" ∧
  is_share_verified (token link) (default ∅ (store' !! "bob")) = false ∧
  (in_session "bob" (share_file ShareScenario.presign (token link) 101) store' w').1.1
    = SharePassword.
Proof.
  apply (password_isolation ShareScenario.check ShareScenario.presign
           ShareScenario.w ShareScenario.locked "secret" 101 ∅ "alice" "bob").
  - simpl. apply NoDup_cons. split; [|apply NoDup_singleton].
    intros Hin. apply list_elem_of_singleton in Hin. discriminate.
  - unfold ShareScenario.w. simpl. right. left.
  - reflexivity.
  - reflexivity.
  - reflexivity.
  - discriminate.
  - reflexivity.
  - discriminate.
  - reflexivity.
Defined.

(** C9 at a folder link.  The link to the folder A is protected by a
    password.  Session "alice" verifies it; the session "bob" is not
    marked and share_folder shows bob the password page.  The download of
    the same token reads neither the password nor a session: it hands the
    files of the folder to bob all the same. *)
Theorem folder_download_asks_no_password :
  let link := ProtectedFolderScenario.link in
  let '(r, w', store') :=
    in_session "alice" (verify_share_password ShareScenario.check POST (token link)
                          (Some "secret")) ∅ ProtectedFolderScenario.w in
  let bob := default ∅ (store' !! "bob") in
  has_password link = true ∧ r = VerifyOk ∧
  is_share_verified (token link) bob = false ∧
  share_folder 4 (token link) 101 bob w' = Some (SharePassword, w', bob) ∧
  download_shared_folder (λ _, true) 4 (token link) 101 w'
  = Some (Archive "A_files.zip"
            [("B/x", "user_1/x"); ("B/C/y", "user_1/y"); ("z", "user_1/z")]).
Proof. vm_compute. repeat split. Qed.

(** ** Quota accounting on concrete runs *)

(** C1. Quota conservation holds up to the trashing of a folder, which
    leaves [used_storage] as it is, but purging the trashed folder removes
    its file without decrementing the counter: [used_storage] stays 300
    while no file of the user exists any more. *)
Theorem folder_purge_keeps_used_storage :
  files_total 1%nat Tree.flat = 300 ∧
  match move_folder_to_trash 2 POST 1%nat 20%nat 1000 Tree.flat with
  | Some (r1, w1) =>
      r1 = Success ∧ map used_storage (profiles w1) = [300] ∧ files_total 1%nat w1 = 300 ∧
      let '(r2, w2) := permanent_delete_folder no_faults POST 1%nat 20%nat w1 in
      r2 = Success ∧ files w2 = [] ∧ files_total 1%nat w2 = 0 ∧
      map used_storage (profiles w2) = [300]
  | None => False
  end.
Proof. vm_compute. repeat split. Qed.

(** C7. After an upload of 300 bytes, trashing the file, a visit of the
    dashboard (which recomputes the counter from the non-deleted files
    only) and the purge of the file, [used_storage] is -300; a second
    purge of the same file is refused and changes nothing. *)
Theorem purge_after_dashboard_goes_negative :
  let '(r1, w1) := Scenario.upload 1 300 Scenario.w0 in
  let '(r2, w2) := move_to_trash POST 1%nat 1%nat 1000 w1 in
  let '(r3, w3) := dashboard Scenario.plan 1%nat w2 in
  let '(r4, w4) := permanent_delete_file no_faults POST 1%nat 1%nat w3 in
  let '(r5, w5) := permanent_delete_file no_faults POST 1%nat 1%nat w4 in
  [r1; r2; r3; r4; r5] = [Success; Success; Success; Success; Failure Http404] ∧
  [Scenario.used w1; Scenario.used w2; Scenario.used w3; Scenario.used w4; Scenario.used w5]
    = [[300]; [300]; [0]; [-300]; [-300]] ∧
  files w4 = [] ∧ trash w4 = [] ∧ files w5 = [] ∧ trash w5 = [].
Proof. vm_compute. repeat split. Qed.

(** ** Folder purge on a concrete tree *)

(** C4. Purging the trashed folder A of the chain A / B / C removes A, B
    and the rows of z and x, but C survives, re-attached at the root, with
    its file y and both their Trash rows; the blob of x, whose row went
    with B, stays in the object store. *)
Theorem folder_purge_is_one_level_deep :
  match move_folder_to_trash 4 POST 1%nat 10%nat 1000 Tree.deep with
  | Some (r1, w1) =>
      r1 = Success ∧ length (trash w1) = 6%nat ∧
      let '(r2, w2) := permanent_delete_folder no_faults POST 1%nat 10%nat w1 in
      r2 = Success ∧
      map (λ g, (folder_id g, parent_folder g, folder_is_deleted g)) (folders w2)
        = [(12%nat, None, true)] ∧
      map file_id (files w2) = [2%nat] ∧
      map (λ t, (trash_file t, trash_folder t)) (trash w2)
        = [(None, Some 12%nat); (Some 2%nat, None)] ∧
      bool_decide ("user_1/z" ∈ blobs w2) = false ∧
      bool_decide ("user_1/x" ∈ blobs w2) = true ∧
      bool_decide ("user_1/y" ∈ blobs w2) = true
  | None => False
  end.
Proof. vm_compute. repeat split. Qed.

(** ** Order of the effects of permanent_delete_file *)

Lemma objects_get_elem {A} (missing : Exception) (p : A → bool) (l : list A) (x : A) :
  objects_get missing p l = Ok x → x ∈ l ∧ p x = true.
Proof.
  rewrite objects_get_Ok. intros Hf.
  assert (Hin : x ∈ filter (λ y, p y = true) l) by (rewrite Hf; left).
  apply list_elem_of_filter in Hin. tauto.
Qed.

Lemma profile_of_user (u : UserId) (w : World) (p : UserProfile) :
  profile_of u w = Ok p → user p = u.
Proof.
  intros Hp. apply objects_get_elem in Hp as [_ Hp]. by apply bool_decide_eq_true in Hp.
Qed.

Lemma permanent_delete_file_replay (raises : Effect → bool) (request_user : UserId)
    (fid : FileId) (w : World) (file_obj : File) (trash_item : Trash)
    (user_profile : UserProfile) :
  get_object_or_404
    (λ f, bool_decide (file_id f = fid ∧ file_owner f = request_user
                       ∧ file_is_deleted f = true)) (files w) = Ok file_obj →
  get_object_or_404
    (λ t, bool_decide (trash_file t = Some (file_id file_obj)
                       ∧ trash_user t = request_user)) (trash w) = Ok trash_item →
  profile_of request_user w = Ok user_profile →
  permanent_delete_file raises POST request_user fid w
    = run_steps raises (view_purge_order user_profile file_obj trash_item) w.
Proof.
  intros Hfile Htrash Hprofile. pose proof (profile_of_user _ _ _ Hprofile) as Huser.
  unfold permanent_delete_file, run_steps, try_except, view_purge_order, for_each.
  unfold mbind, M_bind, bind, query, mret, M_ret, ret, perform. simpl.
  rewrite Hfile, Htrash, Hprofile, Huser.
  repeat (case_match; simplify_eq; try done).
Qed.

(** C6 (amended). Permanent deletion of a trashed file performs its effects
    in the order: decrement [used_storage] by the file's size, delete the
    blob, delete the Trash record, delete the file's row.  Whatever calls
    fail, the view stops at the first failing one with an error response
    and the effects of the earlier steps stay: the world is [w] when the
    decrement fails, [w1] (decremented) when the blob deletion fails, [w2]
    (blob gone) when the deletion of the Trash record fails, [w3] (Trash
    record gone) when the deletion of the row fails, and [w4] on success. *)
Theorem purge_effect_order (raises : Effect → bool) (request_user : UserId)
    (fid : FileId) (w : World) (file_obj : File) (trash_item : Trash)
    (user_profile : UserProfile) :
  get_object_or_404
    (λ f, bool_decide (file_id f = fid ∧ file_owner f = request_user
                       ∧ file_is_deleted f = true)) (files w) = Ok file_obj →
  get_object_or_404
    (λ t, bool_decide (trash_file t = Some (file_id file_obj)
                       ∧ trash_user t = request_user)) (trash w) = Ok trash_item →
  profile_of request_user w = Ok user_profile →
  let result := permanent_delete_file raises POST request_user fid w in
  let w1 := save_profile (with_used_storage (used_storage user_profile - size file_obj)
                                            user_profile) w in
  let w2 := storage_delete (file_file file_obj) w1 in
  let w3 := delete_trash_row (trash_id trash_item) w2 in
  let w4 := delete_file_row (file_id file_obj) w3 in
  let fails1 := raises (SaveProfile request_user) in
  let fails2 := raises (DeleteBlob (file_file file_obj)) in
  let fails3 := raises (DeleteTrashRow (trash_id trash_item)) in
  let fails4 := raises (DeleteFileRow (file_id file_obj)) in
  result = run_steps raises (view_purge_order user_profile file_obj trash_item) w ∧
  result =
    if fails1 then (Failure DatabaseError, w)
    else if fails2 then (Failure StorageError, w1)
    else if fails3 then (Failure DatabaseError, w2)
    else if fails4 then (Failure DatabaseError, w3)
    else (Success, w4).
Proof.
  intros Hfile Htrash Hprofile result w1 w2 w3 w4 fails1 fails2 fails3 fails4.
  subst result.
  rewrite (permanent_delete_file_replay raises request_user fid w file_obj trash_item
             user_profile) by done.
  split; [done|]. pose proof (profile_of_user _ _ _ Hprofile) as Huser.
  subst w1 w2 w3 w4 fails1 fails2 fails3 fails4.
  unfold run_steps, try_except, view_purge_order, for_each.
  unfold mbind, M_bind, bind, mret, M_ret, ret, perform. simpl. rewrite Huser.
  repeat (case_match; simplify_eq; try done).
Qed.

Lemma purge_effect_order_witness :
  permanent_delete_file PurgeScenario.row_delete_fails POST 1%nat 1%nat PurgeScenario.w
    = run_steps PurgeScenario.row_delete_fails
        (view_purge_order PurgeScenario.profile PurgeScenario.file_obj
           PurgeScenario.trash_item) PurgeScenario.w.
Proof.
  destruct (purge_effect_order PurgeScenario.row_delete_fails 1%nat 1%nat PurgeScenario.w
              PurgeScenario.file_obj PurgeScenario.trash_item PurgeScenario.profile)
    as [Hreplay _]; [reflexivity|reflexivity|reflexivity|].
  exact Hreplay.
Defined.

(** The order of the specification (row before Trash record) is not the
    one of the view: when only the deletion of the row fails, the view has
    already deleted the Trash record, which the specified order would have
    kept. *)
Lemma purge_order_not_as_specified :
  let view := permanent_delete_file PurgeScenario.row_delete_fails POST 1%nat 1%nat
                PurgeScenario.w in
  let spec := run_steps PurgeScenario.row_delete_fails
                (spec_purge_order PurgeScenario.profile PurgeScenario.file_obj
                   PurgeScenario.trash_item) PurgeScenario.w in
  view ≠ spec ∧
  fst view = Failure DatabaseError ∧ fst spec = Failure DatabaseError ∧
  files view.2 = [PurgeScenario.file_obj] ∧ trash view.2 = [] ∧
  files spec.2 = [PurgeScenario.file_obj] ∧ trash spec.2 = [PurgeScenario.trash_item].
Proof.
  split.
  - intros Heq. apply (f_equal (λ r, length (trash r.2))) in Heq.
    vm_compute in Heq. discriminate.
  - vm_compute. repeat split.
Qed.

(** ** Loops that count their rounds *)

Lemma for_count_Ok {A} (body : A → M unit) (xs : list A) (c n : nat) (w w' : World) :
  for_count xs body c w = (Ok n, w') → n = (c + length xs)%nat.
Proof.
  revert c w. induction xs as [|x xs IH]; intros c w; simpl.
  - unfold ret. intros [= <- _]. lia.
  - unfold mbind, M_bind, bind. destruct (body x w) as [[[]|e] w1]; [|done].
    intros Hrest. apply IH in Hrest. lia.
Qed.

Lemma for_count_stops {A} (body : A → M unit) (pre : list A) (t : A) (post : list A)
    (c k : nat) (w w1 w2 : World) (e : Exception) :
  for_count pre body c w = (Ok k, w1) →
  body t w1 = (Raise e, w2) →
  for_count (pre ++ t :: post) body c w = (Raise e, w2).
Proof.
  revert c w. induction pre as [|x pre IH]; intros c w; simpl.
  - unfold ret. intros [= _ <-] Ht. unfold mbind, M_bind, bind. by rewrite Ht.
  - unfold mbind, M_bind, bind. destruct (body x w) as [[[]|e'] w'] eqn:Hx; [|done].
    intros Hpre Ht. by apply (IH (S c) w').
Qed.

(** ** Folder cascades

    The recursive closures are first shown to be a plain left fold of the
    per-folder visit over the pre-order listing of the subtree, computed on
    the world in which the cascade starts. *)

Section CascadeFlat.
Context (sel : Folder → bool) (visit : Folder → World → World) (flip : Folder → Folder).
Hypothesis visit_folders : ∀ g w,
  folders (visit g w)
    = map (λ r, if decide (folder_id r = folder_id g) then flip g else r) (folders w).
Hypothesis flip_id : ∀ g, folder_id (flip g) = folder_id g.
Hypothesis flip_sel : ∀ g, sel (flip g) = false.

Lemma frame_refl (P : FolderId → Prop) (fs : list Folder) : frame sel P fs fs.
Proof. apply Forall2_same_length_lookup_2; [done|]. intros i x y Hx Hy. left. congruence. Qed.

Lemma frame_mono (P Q : FolderId → Prop) (fs fs' : list Folder) :
  (∀ i, P i → Q i) → frame sel P fs fs' → frame sel Q fs fs'.
Proof.
  intros HPQ Hfr. eapply Forall2_impl; [exact Hfr|].
  intros r r' [->|(Hid & HP & Hsel)]; [by left|]. right. auto.
Qed.

Lemma frame_visit (P : FolderId → Prop) (fs : list Folder) (g : Folder) (w : World) :
  frame sel P fs (folders w) →
  frame sel (λ i, P i ∨ i = folder_id g) fs (folders (visit g w)).
Proof.
  rewrite visit_folders. unfold frame. generalize (folders w). intros fs' Hfr.
  induction Hfr as [|r r' fs fs' Hr _ IH]; simpl; constructor; [|exact IH].
  case_decide as Hg.
  - right. rewrite flip_id, flip_sel. destruct Hr as [->|(Hid & _ & _)].
    + split; [by symmetry|]. split; [by right|done].
    + split; [congruence|]. split; [right; congruence|done].
  - destruct Hr as [->|(Hid & HP & Hsel)]; [by left|]. right. auto.
Qed.

Lemma frame_children (P : FolderId → Prop) (w w' : World) (q : FolderId) :
  frame sel P (folders w) (folders w') →
  (∀ c, c ∈ children sel w q → ¬ P (folder_id c)) →
  children sel w' q = children sel w q.
Proof.
  unfold children. generalize (folders w) (folders w'). intros fs fs' Hfr.
  induction Hfr as [|r r' fs fs' Hr _ IH]; [done|]. intros Hout.
  rewrite !filter_cons. destruct Hr as [->|(Hid & HP & Hsel)].
  - case_decide.
    + f_equal. apply IH. intros c Hc. apply Hout. rewrite filter_cons_True by done. by right.
    + apply IH. intros c Hc. apply Hout. by rewrite filter_cons_False.
  - rewrite decide_False by (rewrite Hsel; intros [_ ?]; done).
    case_decide as Hr.
    + exfalso. apply (Hout r); [|done]. rewrite filter_cons_True by done. left.
    + apply IH. intros c Hc. apply Hout. by rewrite filter_cons_False.
Qed.

Lemma frame_foldl (P : FolderId → Prop) (fs : list Folder) (l : list Folder) (w : World) :
  frame sel P fs (folders w) →
  frame sel (λ i, P i ∨ i ∈ map folder_id l) fs (folders (foldl (λ w g, visit g w) w l)).
Proof.
  revert P w. induction l as [|a l IH]; intros P w Hfr; simpl.
  - eapply frame_mono; [|exact Hfr]. auto.
  - eapply frame_mono; [|apply IH, frame_visit, Hfr].
    intros i [[HP| ->]|Hin]; [by left| |]; right; [left|by right].
Qed.

Lemma forest_cons (sub : Folder → option (list Folder)) (c : Folder) (rest L : list Folder) :
  forest sub (c :: rest) = Some L →
  ∃ below others, sub c = Some below ∧ forest sub rest = Some others
                  ∧ L = c :: below ++ others.
Proof.
  simpl. destruct (sub c) as [below|]; [|done]. simpl.
  destruct (forest sub rest) as [others|]; [|done]. simpl.
  intros [= <-]. eauto.
Qed.

Lemma forest_elem (sub : Folder → option (list Folder)) (cs L : list Folder) :
  forest sub cs = Some L → ∀ c, c ∈ cs → c ∈ L.
Proof.
  revert L. induction cs as [|a cs IH]; intros L Hf c Hc; [by apply elem_of_nil in Hc|].
  apply forest_cons in Hf as (below & others & _ & Hrest & ->).
  apply elem_of_cons in Hc as [->|Hc]; [left|].
  right. apply elem_of_app. right. by apply (IH others).
Qed.

Lemma forest_ext_in (sub sub' : Folder → option (list Folder)) (cs L : list Folder) :
  forest sub cs = Some L →
  (∀ c below, c ∈ cs → sub c = Some below → (∀ g, g ∈ below → g ∈ L) →
     sub' c = Some below) →
  forest sub' cs = Some L.
Proof.
  revert L. induction cs as [|a cs IH]; intros L Hf Hsub; [done|].
  apply forest_cons in Hf as (below & others & Ha & Hrest & ->). simpl.
  rewrite (Hsub a below); [|left|done|].
  - simpl. rewrite (IH others); [done|done|].
    intros c b Hc Hb Hin. apply Hsub; [by right|done|].
    intros g Hg. right. apply elem_of_app. right. by apply Hin.
  - intros g Hg. right. apply elem_of_app. by left.
Qed.

Lemma subtree_frame (P : FolderId → Prop) (w w' : World) (fuel : nat) :
  frame sel P (folders w) (folders w') →
  ∀ q L, subtree sel fuel w q = Some L →
         (∀ g, g ∈ L → ¬ P (folder_id g)) →
         subtree sel fuel w' q = Some L.
Proof.
  intros Hfr. induction fuel as [|k IH]; intros q L Hsub Hout; [done|].
  simpl in *. rewrite (frame_children P w w' q Hfr).
  - eapply forest_ext_in; [exact Hsub|]. intros c below Hc Hbelow Hin.
    apply IH; [done|]. intros g Hg. by apply Hout, Hin.
  - intros c Hc. apply Hout. by apply (forest_elem _ _ _ Hsub).
Qed.

(** The recursion is the fold of the visits over the pre-order listing. *)
Lemma cascade_flat (fuel : nat) :
  ∀ p w L, subtree sel fuel w p = Some L →
           NoDup (map folder_id L) →
           cascade sel visit fuel p w = Some (foldl (λ w g, visit g w) w L).
Proof.
  induction fuel as [|k IHk]; intros p w L Hsub Hnd; [done|].
  simpl in *. revert Hsub. generalize (children sel w p). intros cs Hsub.
  assert (Hloop : ∀ cs w' L P,
    forest (λ c, subtree sel k w (folder_id c)) cs = Some L →
    NoDup (map folder_id L) →
    frame sel P (folders w) (folders w') →
    (∀ g, g ∈ L → ¬ P (folder_id g)) →
    for_fold (λ c w, cascade sel visit k (folder_id c) (visit c w)) cs w'
      = Some (foldl (λ w g, visit g w) w' L)).
  { clear cs L Hsub Hnd. induction cs as [|c cs IH]; intros w' L P Hf Hnd Hfr Hout.
    - simpl in Hf. by injection Hf as <-.
    - apply forest_cons in Hf as (below & others & Hc & Hrest & ->).
      simpl in Hnd. apply NoDup_cons in Hnd as [Hc_fresh Hnd].
      rewrite fmap_app in Hc_fresh, Hnd. apply NoDup_app in Hnd as (Hnd1 & Hdisj & Hnd2).
      simpl. rewrite (IHk (folder_id c) (visit c w') below); [|  |done].
      + rewrite foldl_app.
        apply (IH _ others (λ i, (P i ∨ i = folder_id c) ∨ i ∈ map folder_id below));
          [done|done| |].
        * apply frame_foldl, frame_visit, Hfr.
        * intros g Hg [[HP|Heq]|Hin].
          -- apply (Hout g); [|done]. right. apply elem_of_app. by right.
          -- apply Hc_fresh. apply elem_of_app. right. rewrite <- Heq.
             by apply list_elem_of_fmap_2.
          -- apply (Hdisj (folder_id g)); [done|]. by apply list_elem_of_fmap_2.
      + apply (subtree_frame (λ i, P i ∨ i = folder_id c) w); [by apply frame_visit|done|].
        intros g Hg [HP|Heq].
        * apply (Hout g); [|done]. right. apply elem_of_app. by left.
        * apply Hc_fresh. apply elem_of_app. left. rewrite <- Heq.
          by apply list_elem_of_fmap_2. }
  apply (Hloop cs w L (λ _, False)); [done|done|apply frame_refl|tauto].
Qed.
End CascadeFlat.

(** ** Tables updated by key *)

Section Tables.
Context {A : Type} (key : A → nat).

Lemma key_inj_on (tbl : list A) (x y : A) :
  NoDup (map key tbl) → x ∈ tbl → y ∈ tbl → key x = key y → x = y.
Proof.
  induction tbl as [|a tbl IH]; intros Hnd Hx Hy Hk; [by apply elem_of_nil in Hx|].
  simpl in Hnd. apply NoDup_cons in Hnd as [Ha Hnd].
  apply elem_of_cons in Hx as [->|Hx], Hy as [->|Hy]; try done.
  - exfalso. apply Ha. rewrite Hk. by apply list_elem_of_fmap_2.
  - exfalso. apply Ha. rewrite <- Hk. by apply list_elem_of_fmap_2.
  - by apply IH.
Qed.

Lemma map_key_preserved (h : A → A) (tbl : list A) :
  (∀ x, key (h x) = key x) → map key (map h tbl) = map key tbl.
Proof.
  intros Hh. induction tbl as [|a tbl IH]; [done|]. simpl. by rewrite Hh, IH.
Qed.

(** Saving the rows [l], each modified by [change], one after the other. *)
Lemma foldl_save (change : A → A) (tbl l : list A) :
  NoDup (map key tbl) →
  (∀ x, x ∈ l → x ∈ tbl) →
  (∀ x, key (change x) = key x) →
  foldl (λ t x, map (λ r, if decide (key r = key x) then change x else r) t) tbl l
  = map (λ r, if bool_decide (key r ∈ map key l) then change r else r) tbl.
Proof.
  intros Hnd Hl Hkey. induction l as [|a l IH] using rev_ind.
  - simpl. clear. induction tbl as [|r tbl IHt]; [done|]. simpl. by rewrite <- IHt.
  - rewrite foldl_snoc, IH by (intros x Hx; apply Hl, elem_of_app; by left).
    rewrite map_map. apply map_ext_elem. intros r Hr. simpl.
    assert (Ha : a ∈ tbl) by (apply Hl, elem_of_app; right; left).
    rewrite fmap_app. simpl.
    destruct (decide (key r = key a)) as [Hra|Hra].
    + assert (r = a) as -> by (by eapply key_inj_on).
      rewrite (bool_decide_eq_true_2 (key a ∈ _ ++ _))
        by (apply elem_of_app; right; left).
      case_bool_decide; [by rewrite Hkey, decide_True|by rewrite decide_True].
    + case_bool_decide as Hin.
      * rewrite Hkey, decide_False by done.
        by rewrite bool_decide_eq_true_2 by (apply elem_of_app; by left).
      * rewrite decide_False by done.
        rewrite bool_decide_eq_false_2; [done|].
        intros [?|Hin']%elem_of_app; [done|].
        apply list_elem_of_singleton in Hin'. done.
Qed.

Lemma elem_of_filter_key (P : A → Prop) `{!∀ x, Decision (P x)} (tbl : list A) (r : A) :
  NoDup (map key tbl) → r ∈ tbl → key r ∈ map key (filter P tbl) ↔ P r.
Proof.
  intros Hnd Hr. split.
  - intros (x & Hk & Hx)%list_elem_of_fmap. apply list_elem_of_filter in Hx as [HP Hx].
    by rewrite (key_inj_on tbl r x).
  - intros HP. apply list_elem_of_fmap_2. by apply list_elem_of_filter.
Qed.
End Tables.

(** ** One visit of the trash cascade, field by field *)

Lemma number_app (stamp : Time) (u : UserId) (sched : Time) (n : nat) (ds es : list TrashItem) :
  number stamp u sched n (ds ++ es) = number stamp u sched n ds ++ number stamp u sched (n + length ds) es.
Proof.
  revert n. induction ds as [|d ds IH]; intros n; simpl.
  - by rewrite Nat.add_0_r.
  - rewrite IH. do 3 f_equal. lia.
Qed.

Lemma length_number (stamp : Time) (u : UserId) (sched : Time) (n : nat) (ds : list TrashItem) :
  length (number stamp u sched n ds) = length ds.
Proof. revert n. induction ds as [|d ds IH]; intros n; simpl; [done|]. by rewrite IH. Qed.

Lemma item_of_number (stamp : Time) (u : UserId) (sched : Time) (n : nat) (ds : list TrashItem) :
  map item_of (number stamp u sched n ds) = ds.
Proof.
  revert n. induction ds as [|[[a b] c] ds IH]; intros n; simpl; [done|]. by rewrite IH.
Qed.

Lemma lies_in_singleton (g : FolderId) (f : File) :
  lies_in [g] f = true ↔ file_folder f = Some g.
Proof.
  unfold lies_in. destruct (file_folder f) as [h|]; [|done].
  rewrite bool_decide_eq_true, list_elem_of_singleton. split; congruence.
Qed.

Lemma lies_in_app (ids ids' : list FolderId) (f : File) :
  lies_in (ids ++ ids') f = lies_in ids f || lies_in ids' f.
Proof.
  unfold lies_in. destruct (file_folder f) as [h|]; [|done].
  apply eq_true_iff_eq. rewrite orb_true_iff, !bool_decide_eq_true. apply elem_of_app.
Qed.

Lemma files_in_singleton (b : bool) (g : FolderId) (w : World) :
  files_in b [g] w = filter (λ f, file_folder f = Some g ∧ file_is_deleted f = b) (files w).
Proof.
  unfold files_in. apply list_filter_iff. intros f. rewrite lies_in_singleton. tauto.
Qed.

Lemma soft_delete_fold (stamp : Time) (u : UserId) (sched : Time) (orig : option FolderId) (l : list File) :
  ∀ w,
  foldl (λ w f, create_trash stamp u (Some (file_id f)) None orig sched
                  (save_file (with_file_is_deleted true f) w)) w l
  = {| profiles := profiles w; folders := folders w;
       files := foldl (λ t x, map (λ r, if decide (file_id r = file_id x)
                                        then with_file_is_deleted true x else r) t)
                      (files w) l;
       trash := trash w ++ number stamp u sched (trash_seq w)
                             (map (λ f, (Some (file_id f), None, orig)) l);
       share_links := share_links w; trash_seq := (trash_seq w + length l)%nat;
       blobs := blobs w |}.
Proof.
  induction l as [|f l IH]; intros w; simpl.
  - destruct w; simpl. by rewrite app_nil_r, Nat.add_0_r.
  - rewrite IH. simpl. f_equal; [|lia].
    rewrite <- app_assoc. simpl. do 3 f_equal.
Qed.

Lemma flag_files_key (b : bool) (ids : list FolderId) (fs : list File) :
  map file_id (flag_files b ids fs) = map file_id fs.
Proof.
  unfold flag_files. apply map_key_preserved. intros x. by case_decide.
Qed.

Lemma soft_delete_files_in_eq (u : UserId) (now : Time) (g : Folder) (w : World) :
  NoDup (map file_id (files w)) →
  soft_delete_files_in u now g w
  = {| profiles := profiles w; folders := folders w;
       files := flag_files false [folder_id g] (files w);
       trash := trash w ++ number now u (now + thirty_days) (trash_seq w)
                             (map file_item (files_in false [folder_id g] w));
       share_links := share_links w;
       trash_seq := (trash_seq w + length (files_in false [folder_id g] w))%nat;
       blobs := blobs w |}.
Proof.
  intros Hnd. unfold soft_delete_files_in. rewrite soft_delete_fold.
  rewrite files_in_singleton. f_equal.
  - rewrite (foldl_save file_id (with_file_is_deleted true)); [|done| |done].
    + unfold flag_files. apply map_ext_elem. intros r Hr.
      case_bool_decide as Hin; case_decide as Hp; try done.
      * exfalso. apply Hp. apply (elem_of_filter_key file_id) in Hin; [|done|done].
        rewrite lies_in_singleton. tauto.
      * exfalso. apply Hin. apply (elem_of_filter_key file_id); [done|done|].
        rewrite lies_in_singleton in Hp. tauto.
    + intros x Hx. apply list_elem_of_filter in Hx. tauto.
  - f_equal. f_equal. apply map_ext_elem. intros f Hf.
    apply list_elem_of_filter in Hf as [[Hfolder _] _]. unfold file_item. by rewrite Hfolder.
Qed.

Lemma trash_visit_eq (u : UserId) (now : Time) (g : Folder) (w : World) :
  NoDup (map file_id (files w)) →
  trash_visit u now g w
  = {| profiles := profiles w;
       folders := map (λ r, if decide (folder_id r = folder_id g)
                            then with_folder_is_deleted true (Some now) g else r) (folders w);
       files := flag_files false [folder_id g] (files w);
       trash := trash w ++ number now u (now + thirty_days) (trash_seq w)
                  (folder_item g :: map file_item (files_in false [folder_id g] w));
       share_links := share_links w;
       trash_seq := (trash_seq w + S (length (files_in false [folder_id g] w)))%nat;
       blobs := blobs w |}.
Proof.
  intros Hnd. unfold trash_visit. rewrite soft_delete_files_in_eq by done.
  unfold files_in. simpl. f_equal.
  - by rewrite <- app_assoc.
  - lia.
Qed.

Lemma filter_map_fixed {A} (P : A → Prop) `{!∀ x, Decision (P x)} (h : A → A) (l : list A) :
  (∀ r, P r → h r = r) → (∀ r, P (h r) → P r) → filter P (map h l) = filter P l.
Proof.
  intros Hfix Hback. induction l as [|a l IH]; [done|]. simpl. rewrite !filter_cons.
  destruct (decide (P a)) as [Ha|Ha].
  - rewrite (Hfix a Ha), decide_True by done. by rewrite IH.
  - rewrite decide_False by (intros ?; by apply Ha, Hback). done.
Qed.

Lemma flag_folders_nil (b : bool) (at_ : option Time) (gs : list Folder) :
  flag_folders b at_ [] gs = gs.
Proof.
  unfold flag_folders. induction gs as [|g gs IH]; [done|]. simpl in *. by rewrite IH.
Qed.

Lemma flag_files_nil (b : bool) (fs : list File) : flag_files b [] fs = fs.
Proof.
  unfold flag_files. induction fs as [|f fs IH]; [done|]. simpl. rewrite IH.
  rewrite decide_False; [done|]. intros [_ Hin]. unfold lies_in in Hin.
  destruct (file_folder f); [|done]. apply bool_decide_eq_true in Hin.
  by apply elem_of_nil in Hin.
Qed.

Lemma flag_folders_snoc (b : bool) (at_ : option Time) (ids : list FolderId)
    (a : Folder) (gs : list Folder) :
  NoDup (map folder_id gs) → a ∈ gs →
  map (λ r, if decide (folder_id r = folder_id a) then with_folder_is_deleted b at_ a else r)
      (flag_folders b at_ ids gs)
  = flag_folders b at_ (ids ++ [folder_id a]) gs.
Proof.
  intros Hnd Ha. unfold flag_folders. rewrite map_map. apply map_ext_elem. intros r Hr.
  destruct (decide (folder_id r = folder_id a)) as [Hra|Hra].
  - assert (r = a) as -> by (by eapply (key_inj_on folder_id)).
    rewrite (bool_decide_eq_true_2 (_ ∈ _ ++ _)) by (apply elem_of_app; right; left).
    case_bool_decide; simpl; by rewrite decide_True.
  - case_bool_decide as Hin; simpl.
    + rewrite decide_False by done.
      by rewrite bool_decide_eq_true_2 by (apply elem_of_app; by left).
    + rewrite decide_False by done. rewrite bool_decide_eq_false_2; [done|].
      intros [?|Hin']%elem_of_app; [done|]. by apply list_elem_of_singleton in Hin'.
Qed.

Lemma flag_files_snoc (b : bool) (ids : list FolderId) (a : FolderId) (fs : list File) :
  flag_files b [a] (flag_files b ids fs) = flag_files b (ids ++ [a]) fs.
Proof.
  unfold flag_files. rewrite map_map. apply map_ext_elem. intros r _.
  rewrite lies_in_app.
  destruct (decide (file_is_deleted r = b ∧ lies_in ids r = true)) as [[Hb Hin]|Hn].
  - rewrite Hin. simpl. rewrite decide_False by (simpl; destruct b; intros [? _]; done).
    by rewrite decide_True.
  - destruct (decide (file_is_deleted r = b ∧ lies_in [a] r = true)) as [[Hb Hin]|Hn'].
    + rewrite Hin, orb_true_r. by rewrite decide_True.
    + rewrite decide_False; [done|]. intros [Hb Hor]. apply orb_true_iff in Hor. tauto.
Qed.

Lemma files_in_flag_other (b : bool) (ids : list FolderId) (a : FolderId) (w w' : World) :
  files w' = flag_files b ids (files w) → a ∉ ids → files_in b [a] w' = files_in b [a] w.
Proof.
  intros Hfiles Ha. unfold files_in. rewrite Hfiles. unfold flag_files.
  apply filter_map_fixed.
  - intros r [Hb Hin]. rewrite decide_False; [done|]. intros [_ Hin'].
    apply lies_in_singleton in Hin. unfold lies_in in Hin'. rewrite Hin in Hin'.
    by apply bool_decide_eq_true in Hin'.
  - intros r. case_decide as Hr; [|done]. simpl. destruct b; intros [? _]; done.
Qed.

Lemma trash_items_of_snoc (gs : list Folder) (a : Folder) (w : World) :
  trash_items_of (gs ++ [a]) w
  = trash_items_of gs w ++ folder_item a :: map file_item (files_in false [folder_id a] w).
Proof. unfold trash_items_of. rewrite flat_map_app. simpl. by rewrite app_nil_r. Qed.

(** The fold of the trash visits over a listing without repetition, as one
    update of the tables. *)
Lemma trash_fold_eq (u : UserId) (now : Time) (gs : list Folder) (w : World) :
  NoDup (map folder_id (folders w)) →
  NoDup (map file_id (files w)) →
  (∀ g, g ∈ gs → g ∈ folders w) →
  NoDup (map folder_id gs) →
  foldl (λ w g, trash_visit u now g w) w gs
  = {| profiles := profiles w;
       folders := flag_folders true (Some now) (map folder_id gs) (folders w);
       files := flag_files false (map folder_id gs) (files w);
       trash := trash w ++ number now u (now + thirty_days) (trash_seq w) (trash_items_of gs w);
       share_links := share_links w;
       trash_seq := (trash_seq w + length (trash_items_of gs w))%nat;
       blobs := blobs w |}.
Proof.
  intros Hfolders Hfiles. induction gs as [|a gs IH] using rev_ind; intros Hin Hnd.
  - simpl. rewrite flag_folders_nil, flag_files_nil, app_nil_r, Nat.add_0_r. by destruct w.
  - rewrite fmap_app in Hnd. apply NoDup_app in Hnd as (Hnd & Hdisj & _).
    rewrite foldl_snoc, IH; [|intros g Hg; apply Hin, elem_of_app; by left|done].
    rewrite trash_visit_eq by (simpl; by rewrite flag_files_key). simpl.
    assert (Ha : folder_id a ∉ map folder_id gs).
    { intros Ha. apply (Hdisj _ Ha). left. }
    rewrite (files_in_flag_other false (map folder_id gs) (folder_id a) w) by done.
    rewrite fmap_app, trash_items_of_snoc. simpl. f_equal.
    + apply flag_folders_snoc; [done|]. apply Hin, elem_of_app. right. left.
    + apply flag_files_snoc.
    + rewrite <- app_assoc. f_equal. by rewrite number_app.
    + rewrite length_app. simpl. rewrite length_map. lia.
Qed.

(** ** move_folder_to_trash as a fold over the live subtree *)

Lemma for_fold_ext_in {A} (body body' : A → World → option World) (xs : list A) (w : World) :
  (∀ x w, x ∈ xs → body x w = body' x w) → for_fold body xs w = for_fold body' xs w.
Proof.
  revert w. induction xs as [|x xs IH]; intros w Hext; [done|]. simpl.
  rewrite Hext by left. destruct (body' x w); [|done].
  apply IH. intros y w' Hy. apply Hext. by right.
Qed.

Lemma children_flag (b : bool) (sel : Folder → bool) (w : World) (p : FolderId) :
  (∀ g, sel g = true ↔ folder_is_deleted g = b) →
  children sel w p
  = filter (λ g, parent_folder g = Some p ∧ folder_is_deleted g = b) (folders w).
Proof. intros Hsel. unfold children. apply list_filter_iff. intros g. by rewrite Hsel. Qed.

Lemma live_spec (g : Folder) : live g = true ↔ folder_is_deleted g = false.
Proof. unfold live. by destruct (folder_is_deleted g). Qed.

Lemma trashed_spec (g : Folder) : trashed g = true ↔ folder_is_deleted g = true.
Proof. done. Qed.

Lemma soft_delete_files_in_folders (u : UserId) (now : Time) (g : Folder) (w : World) :
  folders (soft_delete_files_in u now g w) = folders w.
Proof. unfold soft_delete_files_in. by rewrite soft_delete_fold. Qed.

Lemma trash_visit_folders (u : UserId) (now : Time) (g : Folder) (w : World) :
  folders (trash_visit u now g w)
  = map (λ r, if decide (folder_id r = folder_id g)
              then with_folder_is_deleted true (Some now) g else r) (folders w).
Proof. unfold trash_visit. by rewrite soft_delete_files_in_folders. Qed.

Lemma delete_subfolders_recursive_cascade (u : UserId) (now : Time) (fuel : nat) :
  ∀ p w, delete_subfolders_recursive fuel u now p w
         = cascade live (trash_visit u now) fuel p w.
Proof.
  induction fuel as [|k IH]; intros p w; [done|]. simpl.
  rewrite (children_flag false live w p live_spec).
  apply for_fold_ext_in. intros c w' Hc.
  apply list_elem_of_filter in Hc as [[Hparent _] _].
  rewrite IH. unfold trash_visit. by rewrite Hparent.
Qed.

Lemma find_folder (u : UserId) (b : bool) (w : World) (root : Folder) :
  NoDup (map folder_id (folders w)) →
  root ∈ folders w → folder_owner root = u → folder_is_deleted root = b →
  get_object_or_404
    (λ g, bool_decide (folder_id g = folder_id root ∧ folder_owner g = u
                       ∧ folder_is_deleted g = b)) (folders w) = Ok root.
Proof.
  intros Hnd Hin Hu Hb. apply objects_get_Ok. apply (filter_unique _ folder_id); try done.
  - by apply bool_decide_eq_true.
  - intros y Hy. apply bool_decide_eq_true in Hy. tauto.
Qed.

Lemma move_folder_to_trash_fold (fuel : nat) (u : UserId) (now : Time) (w : World)
    (root : Folder) (below : list Folder) :
  NoDup (map folder_id (folders w)) →
  root ∈ folders w → folder_owner root = u → folder_is_deleted root = false →
  subtree live fuel w (folder_id root) = Some below →
  NoDup (map folder_id (root :: below)) →
  move_folder_to_trash fuel POST u (folder_id root) now w
  = Some (Success, foldl (λ w g, trash_visit u now g w) w (root :: below)).
Proof.
  intros Hnd Hin Hu Hlive Hsub Hnodup. unfold move_folder_to_trash.
  rewrite (find_folder u false) by done.
  change (soft_delete_files_in u now root _) with (trash_visit u now root w).
  rewrite delete_subfolders_recursive_cascade.
  simpl in Hnodup. apply NoDup_cons in Hnodup as [Hroot Hbelow].
  rewrite (cascade_flat live (trash_visit u now) (with_folder_is_deleted true (Some now))
             (trash_visit_folders u now) (λ _, eq_refl) (λ _, eq_refl) fuel
             (folder_id root) (trash_visit u now root w) below); [done| |done].
  apply (subtree_frame live (λ i, False ∨ i = folder_id root) w); [|done|].
  - apply (frame_visit live (trash_visit u now) (with_folder_is_deleted true (Some now)));
      auto using trash_visit_folders. apply frame_refl.
  - intros g Hg [[]|Heq]. apply Hroot. rewrite <- Heq. by apply list_elem_of_fmap_2.
Qed.

(** ** Facts about listings *)

Lemma forest_lookup (sub : Folder → option (list Folder)) (cs L : list Folder) (c : Folder) :
  forest sub cs = Some L → c ∈ cs →
  ∃ below, sub c = Some below ∧ c ∈ L ∧ ∀ g, g ∈ below → g ∈ L.
Proof.
  revert L. induction cs as [|a cs IH]; intros L Hf Hc; [by apply elem_of_nil in Hc|].
  apply forest_cons in Hf as (below & others & Ha & Hrest & ->).
  apply elem_of_cons in Hc as [->|Hc].
  - exists below. split; [done|]. split; [left|].
    intros g Hg. right. apply elem_of_app. by left.
  - destruct (IH others Hrest Hc) as (b & Hb & Hin & Hsub). exists b. split; [done|].
    split; [right; apply elem_of_app; by right|].
    intros g Hg. right. apply elem_of_app. right. by apply Hsub.
Qed.

Lemma forest_all (Q : Folder → Prop) (sub : Folder → option (list Folder))
    (cs L : list Folder) :
  forest sub cs = Some L →
  (∀ c, c ∈ cs → Q c) →
  (∀ c below, c ∈ cs → sub c = Some below → ∀ g, g ∈ below → Q g) →
  ∀ g, g ∈ L → Q g.
Proof.
  revert L. induction cs as [|a cs IH]; intros L Hf Hcs Hsub g Hg.
  - simpl in Hf. injection Hf as <-. by apply elem_of_nil in Hg.
  - apply forest_cons in Hf as (below & others & Ha & Hrest & ->).
    apply elem_of_cons in Hg as [->|Hg]; [apply Hcs; left|].
    apply elem_of_app in Hg as [Hg|Hg].
    + apply (Hsub a below); [left|done|done].
    + apply (IH others); [done| | |done].
      * intros c Hc. apply Hcs. by right.
      * intros c b Hc. apply Hsub. by right.
Qed.

Lemma subtree_elem (sel : Folder → bool) (w : World) (fuel : nat) :
  ∀ p L, subtree sel fuel w p = Some L → ∀ g, g ∈ L → g ∈ folders w ∧ sel g = true.
Proof.
  induction fuel as [|k IH]; intros p L Hsub; [done|]. simpl in Hsub.
  apply (forest_all _ _ _ _ Hsub).
  - intros c Hc. apply list_elem_of_filter in Hc. tauto.
  - intros c below _ Hbelow. by apply (IH (folder_id c)).
Qed.

Lemma length_files_in_cons (b : bool) (a : FolderId) (ids : list FolderId) (w : World) :
  a ∉ ids →
  length (files_in b (a :: ids) w)
  = (length (files_in b [a] w) + length (files_in b ids w))%nat.
Proof.
  intros Ha. unfold files_in. induction (files w) as [|f fs IH]; [done|].
  rewrite !filter_cons. change (a :: ids) with ([a] ++ ids).
  rewrite (lies_in_app [a] ids f).
  destruct (decide (file_is_deleted f = b ∧ lies_in [a] f = true)) as [[Hb H1]|H1];
  destruct (decide (file_is_deleted f = b ∧ lies_in ids f = true)) as [[Hb' H2]|H2].
  - exfalso. apply lies_in_singleton in H1. unfold lies_in in H2. rewrite H1 in H2.
    by apply bool_decide_eq_true in H2.
  - rewrite decide_True by (by rewrite H1). simpl. by rewrite IH.
  - rewrite decide_True by (by rewrite H2, orb_true_r). simpl. rewrite IH. lia.
  - rewrite decide_False; [done|]. intros [Hb Hor]. apply orb_true_iff in Hor. tauto.
Qed.

(** One record per folder of the listing and one per non-deleted file
    directly inside one of them. *)
Lemma length_trash_items_of (gs : list Folder) (w : World) :
  NoDup (map folder_id gs) →
  length (trash_items_of gs w)
  = (length (files_in false (map folder_id gs) w) + length gs)%nat.
Proof.
  induction gs as [|a gs IH]; intros Hnd.
  - simpl. unfold files_in. rewrite filter_none; [done|].
    intros f _ [_ Hin]. unfold lies_in in Hin. destruct (file_folder f); [|done].
    apply bool_decide_eq_true in Hin. by apply elem_of_nil in Hin.
  - simpl in Hnd. apply NoDup_cons in Hnd as [Ha Hnd].
    change (trash_items_of (a :: gs) w)
      with ((folder_item a :: map file_item (files_in false [folder_id a] w))
            ++ trash_items_of gs w).
    rewrite length_app, IH by done. simpl. rewrite length_map.
    rewrite (length_files_in_cons false (folder_id a) (map folder_id gs)) by done. lia.
Qed.

(** The trash cascade in closed form. *)
Lemma move_folder_to_trash_eq (fuel : nat) (u : UserId) (now : Time) (w : World)
    (root : Folder) (below : list Folder) :
  NoDup (map folder_id (folders w)) →
  NoDup (map file_id (files w)) →
  root ∈ folders w → folder_owner root = u → folder_is_deleted root = false →
  subtree live fuel w (folder_id root) = Some below →
  NoDup (map folder_id (root :: below)) →
  move_folder_to_trash fuel POST u (folder_id root) now w
  = Some (Success, trashed_world u now (root :: below) w).
Proof.
  intros Hfolders Hfiles Hin Hu Hlive Hsub Hnd.
  rewrite (move_folder_to_trash_fold fuel u now w root below) by done.
  rewrite trash_fold_eq; [done|done|done| |done].
  intros g [->|Hg]%elem_of_cons; [done|]. by apply (subtree_elem live w fuel _ _ Hsub).
Qed.

(** ** The restore cascade, field by field *)

Lemma refers_to_app (f1 f2 : list FileId) (g1 g2 : list FolderId) (t : Trash) :
  refers_to (f1 ++ f2) (g1 ++ g2) t = refers_to f1 g1 t || refers_to f2 g2 t.
Proof.
  unfold refers_to. apply eq_true_iff_eq. rewrite !orb_true_iff.
  destruct (trash_file t), (trash_folder t);
    rewrite ?bool_decide_eq_true, ?elem_of_app; intuition congruence.
Qed.

Lemma drop_records_nil (u : UserId) (ts : list Trash) : drop_records u [] [] ts = ts.
Proof.
  unfold drop_records. apply filter_all. intros t _ [_ Href]. unfold refers_to in Href.
  destruct (trash_file t), (trash_folder t); simpl in Href;
    rewrite ?orb_true_iff, ?bool_decide_eq_true in Href;
    repeat match goal with
           | H : _ ∨ _ |- _ => destruct H
           | H : _ ∈ [] |- _ => by apply elem_of_nil in H
           end; done.
Qed.

Lemma drop_records_drop (u : UserId) (f1 f2 : list FileId) (g1 g2 : list FolderId)
    (ts : list Trash) :
  drop_records u f2 g2 (drop_records u f1 g1 ts) = drop_records u (f1 ++ f2) (g1 ++ g2) ts.
Proof.
  unfold drop_records. rewrite list_filter_filter. apply list_filter_iff. intros t.
  rewrite refers_to_app, orb_true_iff. tauto.
Qed.

Lemma drop_records_equiv (u : UserId) (f1 f2 : list FileId) (g1 g2 : list FolderId)
    (ts : list Trash) :
  (∀ i, i ∈ f1 ↔ i ∈ f2) → (∀ i, i ∈ g1 ↔ i ∈ g2) →
  drop_records u f1 g1 ts = drop_records u f2 g2 ts.
Proof.
  intros Hf Hg. unfold drop_records. apply list_filter_iff. intros t.
  assert (refers_to f1 g1 t = refers_to f2 g2 t) as ->; [|done].
  unfold refers_to. apply eq_true_iff_eq. rewrite !orb_true_iff.
  destruct (trash_file t), (trash_folder t); rewrite ?bool_decide_eq_true, ?Hf, ?Hg; done.
Qed.

Lemma delete_file_records (u : UserId) (i : FileId) (ts : list Trash) :
  filter (λ t, bool_decide (trash_file t = Some i ∧ trash_user t = u) = false) ts
  = drop_records u [i] [] ts.
Proof.
  unfold drop_records. apply list_filter_iff. intros t.
  rewrite bool_decide_eq_false. unfold refers_to.
  destruct (trash_file t) as [j|], (trash_folder t); simpl;
    rewrite ?orb_false_r, ?bool_decide_eq_true, ?list_elem_of_singleton;
    split; intros H1 H2; apply H1; intuition congruence.
Qed.

Lemma delete_folder_records (u : UserId) (i : FolderId) (ts : list Trash) :
  filter (λ t, bool_decide (trash_folder t = Some i ∧ trash_user t = u) = false) ts
  = drop_records u [] [i] ts.
Proof.
  unfold drop_records. apply list_filter_iff. intros t.
  rewrite bool_decide_eq_false. unfold refers_to.
  destruct (trash_file t) as [j|], (trash_folder t) as [k|]; simpl;
    rewrite ?orb_false_r, ?bool_decide_eq_true, ?list_elem_of_singleton;
    split; intros H1 H2; apply H1; intuition congruence.
Qed.

Lemma restore_fold (u : UserId) (l : list File) :
  ∀ w,
  foldl (λ w f, delete_trash_where
                  (λ t, bool_decide (trash_file t = Some (file_id f) ∧ trash_user t = u))
                  (save_file (with_file_is_deleted false f) w)) w l
  = {| profiles := profiles w; folders := folders w;
       files := foldl (λ t x, map (λ r, if decide (file_id r = file_id x)
                                        then with_file_is_deleted false x else r) t)
                      (files w) l;
       trash := drop_records u (map file_id l) [] (trash w);
       share_links := share_links w; trash_seq := trash_seq w; blobs := blobs w |}.
Proof.
  induction l as [|f l IH]; intros w; simpl.
  - rewrite drop_records_nil. by destruct w.
  - rewrite IH. simpl. f_equal.
    rewrite delete_file_records. by rewrite (drop_records_drop u [file_id f] _ [] []).
Qed.

Lemma restore_files_in_eq (u : UserId) (g : Folder) (w : World) :
  NoDup (map file_id (files w)) →
  restore_files_in u g w
  = {| profiles := profiles w; folders := folders w;
       files := flag_files true [folder_id g] (files w);
       trash := drop_records u (map file_id (files_in true [folder_id g] w)) [] (trash w);
       share_links := share_links w; trash_seq := trash_seq w; blobs := blobs w |}.
Proof.
  intros Hnd. unfold restore_files_in. rewrite restore_fold.
  rewrite files_in_singleton. f_equal.
  rewrite (foldl_save file_id (with_file_is_deleted false)); [|done| |done].
  - unfold flag_files. apply map_ext_elem. intros r Hr.
    case_bool_decide as Hin; case_decide as Hp; try done.
    + exfalso. apply Hp. apply (elem_of_filter_key file_id) in Hin; [|done|done].
      rewrite lies_in_singleton. tauto.
    + exfalso. apply Hin. apply (elem_of_filter_key file_id); [done|done|].
      rewrite lies_in_singleton in Hp. tauto.
  - intros x Hx. apply list_elem_of_filter in Hx. tauto.
Qed.

Lemma restore_visit_eq (u : UserId) (g : Folder) (w : World) :
  NoDup (map file_id (files w)) →
  restore_visit u g w
  = {| profiles := profiles w;
       folders := map (λ r, if decide (folder_id r = folder_id g)
                            then with_folder_is_deleted false None g else r) (folders w);
       files := flag_files true [folder_id g] (files w);
       trash := drop_records u (map file_id (files_in true [folder_id g] w))
                  [folder_id g] (trash w);
       share_links := share_links w; trash_seq := trash_seq w; blobs := blobs w |}.
Proof.
  intros Hnd. unfold restore_visit. rewrite restore_files_in_eq by done.
  unfold files_in, delete_trash_where. simpl. f_equal.
  rewrite delete_folder_records.
  by rewrite (drop_records_drop u [] _ [folder_id g] []), app_nil_r.
Qed.

Lemma elem_of_files_in_app (b : bool) (ids ids' : list FolderId) (w : World) (i : FileId) :
  i ∈ map file_id (files_in b (ids ++ ids') w)
  ↔ i ∈ map file_id (files_in b ids w) ++ map file_id (files_in b ids' w).
Proof.
  rewrite elem_of_app, !list_elem_of_fmap. unfold files_in.
  setoid_rewrite list_elem_of_filter. setoid_rewrite lies_in_app.
  setoid_rewrite orb_true_iff. split.
  - intros (f & -> & (Hb & [Hin|Hin]) & Hf); [left|right]; by exists f.
  - intros [(f & -> & (Hb & Hin) & Hf)|(f & -> & (Hb & Hin) & Hf)]; exists f; tauto.
Qed.

(** The fold of the restore visits over a listing without repetition. *)
Lemma restore_fold_eq (u : UserId) (gs : list Folder) (w : World) :
  NoDup (map folder_id (folders w)) →
  NoDup (map file_id (files w)) →
  (∀ g, g ∈ gs → g ∈ folders w) →
  NoDup (map folder_id gs) →
  foldl (λ w g, restore_visit u g w) w gs
  = {| profiles := profiles w;
       folders := flag_folders false None (map folder_id gs) (folders w);
       files := flag_files true (map folder_id gs) (files w);
       trash := drop_records u (map file_id (files_in true (map folder_id gs) w))
                  (map folder_id gs) (trash w);
       share_links := share_links w; trash_seq := trash_seq w; blobs := blobs w |}.
Proof.
  intros Hfolders Hfiles. induction gs as [|a gs IH] using rev_ind; intros Hin Hnd.
  - simpl. rewrite flag_folders_nil, flag_files_nil.
    replace (files_in true [] w) with (@nil File).
    + simpl. rewrite drop_records_nil. by destruct w.
    + symmetry. apply filter_none. intros f _ [_ Hf]. unfold lies_in in Hf.
      destruct (file_folder f); [|done]. apply bool_decide_eq_true in Hf.
      by apply elem_of_nil in Hf.
  - rewrite fmap_app in Hnd. apply NoDup_app in Hnd as (Hnd & Hdisj & _).
    rewrite foldl_snoc, IH; [|intros g Hg; apply Hin, elem_of_app; by left|done].
    rewrite restore_visit_eq by (simpl; by rewrite flag_files_key). simpl.
    assert (Ha : folder_id a ∉ map folder_id gs).
    { intros Ha. apply (Hdisj _ Ha). left. }
    rewrite (files_in_flag_other true (map folder_id gs) (folder_id a) w) by done.
    rewrite fmap_app. simpl. f_equal.
    + apply flag_folders_snoc; [done|]. apply Hin, elem_of_app. right. left.
    + apply flag_files_snoc.
    + rewrite drop_records_drop. apply drop_records_equiv; [|done].
      intros i. symmetry. apply elem_of_files_in_app.
Qed.

(** ** restore_folder as a fold over the trashed subtree *)

Lemma flag_files_app (b : bool) (ids ids' : list FolderId) (fs : list File) :
  flag_files b ids' (flag_files b ids fs) = flag_files b (ids ++ ids') fs.
Proof.
  unfold flag_files. rewrite map_map. apply map_ext_elem. intros r _.
  rewrite lies_in_app.
  destruct (decide (file_is_deleted r = b ∧ lies_in ids r = true)) as [[Hb Hin]|Hn].
  - rewrite Hin. simpl. rewrite decide_False by (simpl; destruct b; intros [? _]; done).
    by rewrite decide_True.
  - destruct (decide (file_is_deleted r = b ∧ lies_in ids' r = true)) as [[Hb Hin]|Hn'].
    + rewrite Hin, orb_true_r. by rewrite decide_True.
    + rewrite decide_False; [done|]. intros [Hb Hor]. apply orb_true_iff in Hor. tauto.
Qed.

Lemma flag_folders_saved (b : bool) (at_ : option Time) (ids : list FolderId)
    (a : Folder) (gs : list Folder) :
  NoDup (map folder_id gs) → a ∈ gs →
  flag_folders b at_ ids
    (map (λ r, if decide (folder_id r = folder_id a) then with_folder_is_deleted b at_ a
               else r) gs)
  = flag_folders b at_ (folder_id a :: ids) gs.
Proof.
  intros Hnd Ha. unfold flag_folders. rewrite map_map. apply map_ext_elem. intros r Hr.
  destruct (decide (folder_id r = folder_id a)) as [Hra|Hra].
  - assert (r = a) as -> by (by eapply (key_inj_on folder_id)).
    rewrite (bool_decide_eq_true_2 (_ ∈ _ :: _)) by left.
    by case_bool_decide.
  - case_bool_decide as Hin.
    + by rewrite bool_decide_eq_true_2 by (by right).
    + rewrite bool_decide_eq_false_2; [done|]. intros [?|?]%elem_of_cons; done.
Qed.

Lemma files_in_flag_disjoint (b : bool) (ids ids' : list FolderId) (w w' : World) :
  files w' = flag_files b ids (files w) →
  (∀ a, a ∈ ids' → a ∉ ids) →
  files_in b ids' w' = files_in b ids' w.
Proof.
  intros Hfiles Hdisj. unfold files_in. rewrite Hfiles. unfold flag_files.
  apply filter_map_fixed.
  - intros r [Hb Hin]. rewrite decide_False; [done|]. intros [_ Hin'].
    unfold lies_in in Hin, Hin'. destruct (file_folder r) as [g|]; [|done].
    apply bool_decide_eq_true in Hin, Hin'. by apply (Hdisj g).
  - intros r. case_decide as Hr; [|done]. simpl. destruct b; intros [? _]; done.
Qed.

Lemma restore_files_in_folders (u : UserId) (g : Folder) (w : World) :
  folders (restore_files_in u g w) = folders w.
Proof. unfold restore_files_in. by rewrite restore_fold. Qed.

Lemma restore_visit_folders (u : UserId) (g : Folder) (w : World) :
  folders (restore_visit u g w)
  = map (λ r, if decide (folder_id r = folder_id g)
              then with_folder_is_deleted false None g else r) (folders w).
Proof. unfold restore_visit. by rewrite restore_files_in_folders. Qed.

Lemma restore_subfolders_recursive_cascade (u : UserId) (fuel : nat) :
  ∀ p w, restore_subfolders_recursive fuel u p w
         = cascade trashed (restore_visit u) fuel p w.
Proof.
  induction fuel as [|k IH]; intros p w; [done|]. simpl.
  rewrite (children_flag true trashed w p trashed_spec).
  apply for_fold_ext_in. intros c w' Hc. by rewrite IH.
Qed.

Lemma elem_of_saved (a : Folder) (change : Folder → Folder) (gs : list Folder) (g : Folder) :
  g ∈ gs → folder_id g ≠ folder_id a →
  g ∈ map (λ r, if decide (folder_id r = folder_id a) then change a else r) gs.
Proof.
  intros Hg Hne. apply list_elem_of_fmap. exists g. by rewrite decide_False.
Qed.

Lemma restore_folder_eq (fuel : nat) (u : UserId) (w : World) (root : Folder)
    (below : list Folder) (trash_item : Trash) :
  NoDup (map folder_id (folders w)) →
  NoDup (map file_id (files w)) →
  root ∈ folders w → folder_owner root = u → folder_is_deleted root = true →
  get_object_or_404
    (λ t, bool_decide (trash_folder t = Some (folder_id root) ∧ trash_user t = u))
    (trash w) = Ok trash_item →
  subtree trashed fuel w (folder_id root) = Some below →
  NoDup (map folder_id (root :: below)) →
  restore_folder fuel POST u (folder_id root) w
  = Some (Success, restored_world u (trash_id trash_item) root below w).
Proof.
  intros Hfolders Hfiles Hin Hu Hdel Htrash Hsub Hnodup. unfold restore_folder.
  rewrite (find_folder u true) by done. rewrite Htrash.
  simpl in Hnodup. apply NoDup_cons in Hnodup as [Hroot Hbelow].
  rewrite restore_subfolders_recursive_cascade.
  set (w0 := restore_files_in u root _).
  assert (Hw0 : folders w0 = folders (restore_visit u root w)).
  { unfold w0. by rewrite restore_files_in_folders, restore_visit_folders. }
  rewrite (cascade_flat trashed (restore_visit u) (with_folder_is_deleted false None)
             (restore_visit_folders u) (λ _, eq_refl) (λ _, eq_refl) fuel
             (folder_id root) w0 below); [| |done].
  - simpl. do 2 f_equal. unfold w0.
    rewrite restore_files_in_eq by done.
    rewrite restore_fold_eq; simpl.
    + unfold restored_world, delete_trash_row, set_trash. simpl. f_equal.
      * by apply flag_folders_saved.
      * apply (flag_files_app true [folder_id root]).
      * f_equal. rewrite drop_records_drop. simpl.
        change (files_in true [folder_id root] (save_folder _ w))
          with (files_in true [folder_id root] w).
        erewrite (files_in_flag_disjoint true [folder_id root] (map folder_id below) w);
          [| simpl; reflexivity |].
        -- apply drop_records_equiv; [|done]. intros i. symmetry.
           apply (elem_of_files_in_app true [folder_id root]).
        -- intros a Ha [->|Hnil]%elem_of_cons; [done|]. by apply elem_of_nil in Hnil.
    + by rewrite map_key_preserved by (intros x; by case_decide).
    + by rewrite flag_files_key.
    + intros g Hg. apply elem_of_saved.
      * by apply (subtree_elem trashed w fuel _ _ Hsub).
      * intros Heq. apply Hroot. rewrite <- Heq. by apply list_elem_of_fmap_2.
    + done.
  - apply (subtree_frame trashed (λ i, False ∨ i = folder_id root) w); [|done|].
    + rewrite Hw0.
      apply (frame_visit trashed (restore_visit u) (with_folder_is_deleted false None));
        auto using restore_visit_folders. apply frame_refl.
    + intros g Hg [[]|Heq]. apply Hroot. rewrite <- Heq. by apply list_elem_of_fmap_2.
Qed.

(** ** Relating the live, the trashed and the whole subtree *)

Lemma forest_fmap (h : Folder → Folder) (sub sub' : Folder → option (list Folder))
    (cs : list Folder) :
  (∀ c, sub' (h c) = map h <$> sub c) →
  forest sub' (map h cs) = map h <$> forest sub cs.
Proof.
  intros Hsub. induction cs as [|c cs IH]; [done|]. simpl. rewrite Hsub, IH.
  destruct (sub c) as [below|]; [|done]. simpl.
  destruct (forest sub cs) as [others|]; [|done]. simpl. by rewrite map_app.
Qed.

(** A change of rows that keeps keys and parents maps the whole subtree. *)
Lemma subtree_any_fmap (h : Folder → Folder) (w w' : World) (fuel : nat) :
  folders w' = map h (folders w) →
  (∀ x, folder_id (h x) = folder_id x) →
  (∀ x, parent_folder (h x) = parent_folder x) →
  ∀ p, subtree any fuel w' p = map h <$> subtree any fuel w p.
Proof.
  intros Hfolders Hid Hparent. induction fuel as [|k IH]; intros p; [done|]. simpl.
  assert (children any w' p = map h (children any w p)) as ->.
  { unfold children. rewrite Hfolders. apply filter_map_stable.
    intros x. by rewrite Hparent. }
  apply forest_fmap. intros c. by rewrite Hid.
Qed.

Lemma sublist_filter_impl {A} (P Q : A → Prop) `{!∀ x, Decision (P x)}
    `{!∀ x, Decision (Q x)} (l : list A) :
  (∀ x, P x → Q x) → sublist (filter P l) (filter Q l).
Proof.
  intros HPQ. induction l as [|a l IH]; [constructor|]. rewrite !filter_cons.
  destruct (decide (P a)) as [HP|HP].
  - rewrite decide_True by auto. by apply sublist_skip.
  - case_decide; [by apply sublist_cons|done].
Qed.

Lemma forest_sublist (sub subA : Folder → option (list Folder)) (cs csA : list Folder) :
  sublist cs csA →
  ∀ TA, forest subA csA = Some TA →
        (∀ c ta, c ∈ csA → subA c = Some ta → ∃ l, sub c = Some l ∧ sublist l ta) →
        ∃ L, forest sub cs = Some L ∧ sublist L TA.
Proof.
  induction 1 as [|c cs csA Hsl IH|a cs csA Hsl IH]; intros TA Hf Hsub.
  - exists []. split; [done|apply sublist_nil_l].
  - apply forest_cons in Hf as (ta & others & Hc & Hrest & ->).
    destruct (Hsub c ta) as (l & Hl & Hlta); [left|done|].
    destruct (IH others Hrest) as (L & HL & HLo).
    { intros c' ta' Hc'. apply Hsub. by right. }
    exists (c :: l ++ L). simpl. rewrite Hl, HL. split; [done|].
    apply sublist_skip. by apply sublist_app.
  - apply forest_cons in Hf as (ta & others & Hc & Hrest & ->).
    destruct (IH others Hrest) as (L & HL & HLo).
    { intros c' ta' Hc'. apply Hsub. by right. }
    exists L. split; [done|]. apply sublist_cons. by apply sublist_inserts_l.
Qed.

(** Where the whole subtree is listed, so is the part that [sel] selects. *)
Lemma subtree_select (sel : Folder → bool) (w : World) (fuel : nat) :
  ∀ p T, subtree any fuel w p = Some T →
         ∃ L, subtree sel fuel w p = Some L ∧ sublist L T.
Proof.
  induction fuel as [|k IH]; intros p T Hany; [done|]. simpl in *.
  apply (forest_sublist (λ c, subtree sel k w (folder_id c))
           (λ c, subtree any k w (folder_id c)) (children sel w p) (children any w p));
    [|done|].
  - unfold children. apply sublist_filter_impl. tauto.
  - intros c ta _ Hta. by apply IH.
Qed.

Lemma subtree_included (sel sel' : Folder → bool) (h : Folder → Folder)
    (w w' : World) (fuel : nat) :
  folders w' = map h (folders w) →
  (∀ x, folder_id (h x) = folder_id x) →
  (∀ x, parent_folder (h x) = parent_folder x) →
  ∀ p L L', subtree sel fuel w p = Some L →
            subtree sel' fuel w' p = Some L' →
            (∀ g, g ∈ L → sel' (h g) = true) →
            ∀ g, g ∈ L → h g ∈ L'.
Proof.
  intros Hfolders Hid Hparent. induction fuel as [|k IH]; intros p L L' HL HL' Hsel;
    [done|].
  simpl in HL, HL'.
  assert (Hchild : ∀ c, c ∈ children sel w p → h c ∈ children sel' w' p).
  { intros c Hc. pose proof (forest_elem _ _ _ HL c Hc) as HcL.
    apply list_elem_of_filter in Hc as [[Hp _] Hc]. apply list_elem_of_filter.
    rewrite Hparent, Hfolders. split; [auto|]. by apply list_elem_of_fmap_2. }
  apply (forest_all _ _ _ _ HL).
  - intros c Hc. apply (forest_elem _ _ _ HL'). by apply Hchild.
  - intros c below Hc Hbelow g Hg.
    destruct (forest_lookup _ _ _ _ HL Hc) as (b & Hb & _ & HbL).
    assert (b = below) as -> by congruence.
    destruct (forest_lookup _ _ _ _ HL' (Hchild c Hc)) as (b' & Hb' & _ & Hb'L).
    rewrite Hid in Hb'. apply Hb'L.
    apply (IH (folder_id c) below b'); auto.
Qed.

(** ** The records created by the trash cascade *)

Lemma elem_of_number (stamp : Time) (u : UserId) (sched : Time) (ds : list TrashItem) :
  ∀ n t, t ∈ number stamp u sched n ds → trash_user t = u ∧ item_of t ∈ ds.
Proof.
  induction ds as [|[[a b] c] ds IH]; intros n t Ht; [by apply elem_of_nil in Ht|].
  simpl in Ht. apply elem_of_cons in Ht as [->|Ht].
  - split; [done|]. left.
  - destruct (IH _ _ Ht) as [Hu Hin]. split; [done|]. by right.
Qed.

Lemma elem_of_trash_items_of (gs : list Folder) (w : World) (d : TrashItem) :
  d ∈ trash_items_of gs w ↔
  ∃ g, g ∈ gs ∧ (d = folder_item g
                 ∨ ∃ f, f ∈ files_in false [folder_id g] w ∧ d = file_item f).
Proof.
  unfold trash_items_of. induction gs as [|a gs IH]; simpl.
  - split; [by intros ?%elem_of_nil|]. by intros (g & ?%elem_of_nil & _).
  - rewrite elem_of_cons, elem_of_app, IH, list_elem_of_fmap. split.
    + intros [->|[(f & -> & Hf)|(g & Hg & Hd)]].
      * exists a. split; [left|by left].
      * exists a. split; [left|]. right. eauto.
      * exists g. split; [by right|done].
    + intros (g & [->|Hg]%elem_of_cons & Hd).
      * destruct Hd as [->|(f & Hf & ->)]; [by left|]. right. left. eauto.
      * right. right. eauto.
Qed.

Lemma flag_folders_key (b : bool) (at_ : option Time) (ids : list FolderId)
    (gs : list Folder) :
  map folder_id (flag_folders b at_ ids gs) = map folder_id gs.
Proof.
  unfold flag_folders. apply map_key_preserved. intros x. by case_bool_decide.
Qed.

(** The Trash row of the root is the only row of the user about the root. *)
Lemma root_record_found (u : UserId) (now : Time) (w : World) (root : Folder)
    (below : list Folder) :
  NoDup (map folder_id (root :: below)) →
  (∀ t, t ∈ trash w → trash_folder t = Some (folder_id root) → trash_user t ≠ u) →
  get_object_or_404
    (λ t, bool_decide (trash_folder t = Some (folder_id root) ∧ trash_user t = u))
    (trash (trashed_world u now (root :: below) w))
  = Ok (trash_row now u (now + thirty_days) (trash_seq w) (folder_item root)).
Proof.
  intros Hnd Hfresh. apply objects_get_Ok. simpl. rewrite filter_app.
  rewrite (filter_none _ (trash w)).
  - simpl. rewrite filter_cons_True by (by apply bool_decide_eq_true).
    f_equal. apply filter_none. intros t Ht Hmatch.
    apply bool_decide_eq_true in Hmatch as [Hfolder _].
    apply elem_of_number in Ht as [_ Hitem]. apply elem_of_app in Hitem as [Hitem|Hitem].
    + apply list_elem_of_fmap in Hitem as (f & Hf & _).
      unfold item_of, file_item in Hf. congruence.
    + apply elem_of_trash_items_of in Hitem as (g & Hg & [Hd|(f & _ & Hd)]).
      * unfold item_of, folder_item in Hd. simpl in Hnd.
        apply NoDup_cons in Hnd as [Hroot _]. apply Hroot.
        assert (folder_id root = folder_id g) as -> by congruence.
        by apply list_elem_of_fmap_2.
      * unfold item_of, file_item in Hd. congruence.
  - intros t Ht Hmatch. apply bool_decide_eq_true in Hmatch as [Hfolder Huser].
    by apply (Hfresh t).
Qed.

Lemma lies_in_mono (ids ids' : list FolderId) (f : File) :
  (∀ i, i ∈ ids → i ∈ ids') → lies_in ids f = true → lies_in ids' f = true.
Proof.
  intros Hsub. unfold lies_in. destruct (file_folder f); [|done].
  rewrite !bool_decide_eq_true. apply Hsub.
Qed.

Lemma flag_folders_cleared (ids : list FolderId) (gs : list Folder) (g : Folder) :
  g ∈ flag_folders false None ids gs → folder_id g ∈ ids → folder_is_deleted g = false.
Proof.
  unfold flag_folders. intros (r & -> & Hr)%list_elem_of_fmap.
  case_bool_decide as Hin; [done|]. intros Hg. by destruct Hin.
Qed.

Lemma flag_files_cleared (ids : list FolderId) (fs : list File) (f : File) :
  f ∈ flag_files true ids fs → lies_in ids f = true → file_is_deleted f = false.
Proof.
  unfold flag_files. intros (r & -> & Hr)%list_elem_of_fmap.
  case_decide as Hin; [done|]. intros Hf. destruct (file_is_deleted r); [|done].
  by destruct Hin.
Qed.

Lemma elem_of_flag_folders (b : bool) (at_ : option Time) (ids : list FolderId)
    (gs : list Folder) (g : Folder) :
  g ∈ gs → folder_id g ∈ ids → with_folder_is_deleted b at_ g ∈ flag_folders b at_ ids gs.
Proof.
  intros Hg Hin. unfold flag_folders. apply list_elem_of_fmap. exists g.
  by rewrite bool_decide_eq_true_2.
Qed.

Lemma elem_of_flag_files (b : bool) (ids : list FolderId) (fs : list File) (f : File) :
  f ∈ fs → file_is_deleted f = b → lies_in ids f = true →
  with_file_is_deleted (negb b) f ∈ flag_files b ids fs.
Proof.
  intros Hf Hb Hin. unfold flag_files. apply list_elem_of_fmap. exists f.
  by rewrite decide_True.
Qed.

(** Every record that the trash cascade created is removed by the restore
    of the same root. *)
Lemma new_records_dropped (u : UserId) (now : Time) (w : World) (root : Folder)
    (below : list Folder) (ids' : list FolderId) (gids' : list FolderId) (t : Trash) :
  let w1 := trashed_world u now (root :: below) w in
  let tid := trash_seq w in
  NoDup (map folder_id (root :: below)) →
  (∀ t, t ∈ trash w → trash_folder t = Some (folder_id root) → trash_user t ≠ u) →
  (∀ i, i ∈ map folder_id (root :: below) → i ∈ ids') →
  (∀ i, i ∈ map folder_id below → i ∈ gids') →
  t ∈ number now u (now + thirty_days) (trash_seq w) (trash_items_of (root :: below) w) →
  t ∉ filter (λ t, trash_id t ≠ tid)
        (drop_records u (map file_id (files_in true ids' w1)) gids' (trash w1)).
Proof.
  intros w1 tid Hnd Hfresh Hids Hgids Ht Hkept.
  apply list_elem_of_filter in Hkept as [Htid Hkept].
  apply list_elem_of_filter in Hkept as [Hkeep Hin1].
  pose proof (elem_of_number _ _ _ _ _ _ Ht) as [Hu Hitem].
  apply elem_of_trash_items_of in Hitem as (g & Hg & [Hd|(f & Hf & Hd)]).
  - apply elem_of_cons in Hg as [->|Hg].
    + (* the record of the root is the one found by the view *)
      pose proof (root_record_found u now w root below Hnd Hfresh) as Hfound.
      apply objects_get_Ok in Hfound.
      assert (Hmatch : t ∈ filter (λ t, bool_decide (trash_folder t = Some (folder_id root)
                                                      ∧ trash_user t = u) = true)
                             (trash w1)).
      { apply list_elem_of_filter. split; [|done]. apply bool_decide_eq_true.
        unfold item_of, folder_item in Hd. split; congruence. }
      fold w1 in Hfound. rewrite Hfound in Hmatch.
      apply list_elem_of_singleton in Hmatch. subst t. by apply Htid.
    + apply Hkeep. split; [done|]. unfold refers_to.
      unfold item_of, folder_item in Hd.
      assert (trash_folder t = Some (folder_id g)) as -> by congruence.
      rewrite (bool_decide_eq_true_2 (folder_id g ∈ gids')), orb_true_r; [done|].
      apply Hgids. by apply list_elem_of_fmap_2.
  - apply Hkeep. split; [done|]. unfold refers_to.
    unfold item_of, file_item in Hd.
    assert (trash_file t = Some (file_id f)) as -> by congruence.
    rewrite (bool_decide_eq_true_2 (file_id f ∈ _)); [done|].
    apply list_elem_of_filter in Hf as [[Hlive Hfolder] Hf].
    apply (list_elem_of_fmap_2' file_id _ (with_file_is_deleted true f)); [|done].
    apply list_elem_of_filter. split.
    + split; [done|]. apply (lies_in_mono (map folder_id (root :: below))); [done|].
      apply (lies_in_mono [folder_id g]); [|done].
      intros i ->%list_elem_of_singleton. by apply list_elem_of_fmap_2.
    + apply (elem_of_flag_files false); [done|done|].
      apply (lies_in_mono [folder_id g]); [|done].
      intros i ->%list_elem_of_singleton. by apply list_elem_of_fmap_2.
Qed.

(** ** Cascade completeness *)

(** Closed form of trashing and restoring a folder whose whole subtree is
    listed without repetition by [subtree any]. *)
Lemma cascade_closed_form (fuel : nat) (u : UserId) (now : Time) (w : World)
    (root : Folder) (whole : list Folder) :
  NoDup (map folder_id (folders w)) →
  NoDup (map file_id (files w)) →
  root ∈ folders w → folder_owner root = u → folder_is_deleted root = false →
  subtree any fuel w (folder_id root) = Some whole →
  NoDup (map folder_id (root :: whole)) →
  (∀ t, t ∈ trash w → trash_folder t = Some (folder_id root) → trash_user t ≠ u) →
  ∃ below n m w1 w2 new,
    subtree live fuel w (folder_id root) = Some below ∧
    subtree_counts live fuel w root = Some (n, m) ∧
    move_folder_to_trash fuel POST u (folder_id root) now w = Some (Success, w1) ∧
    trash w1 = trash w ++ new ∧ length new = (n + m)%nat ∧
    map item_of new = trash_items_of (root :: below) w ∧
    (∀ t, t ∈ new → trash_user t = u) ∧
    folders w1 = flag_folders true (Some now) (map folder_id (root :: below)) (folders w) ∧
    files w1 = flag_files false (map folder_id (root :: below)) (files w) ∧
    profiles w1 = profiles w ∧
    restore_folder fuel POST u (folder_id root) w1 = Some (Success, w2) ∧
    (∀ g, g ∈ folders w2 → folder_id g ∈ map folder_id (root :: below) →
          folder_is_deleted g = false) ∧
    (∀ f, f ∈ files w2 → lies_in (map folder_id (root :: below)) f = true →
          file_is_deleted f = false) ∧
    (∀ t, t ∈ new → t ∉ trash w2) ∧
    sublist (trash w2) (trash w) ∧
    profiles w2 = profiles w.
Proof.
  intros Hfolders Hfiles Hroot Hu Hlive Hwhole Hnd Hfresh.
  (* the live subtree *)
  destruct (subtree_select live w fuel _ _ Hwhole) as (below & Hbelow & Hsub).
  assert (Hnd_live : NoDup (map folder_id (root :: below))).
  { eapply sublist_NoDup; [exact Hnd|]. simpl. apply sublist_skip.
    by apply fmap_sublist. }
  pose proof (move_folder_to_trash_eq fuel u now w root below Hfolders Hfiles Hroot Hu
                Hlive Hbelow Hnd_live) as Htrash.
  set (ids := map folder_id (root :: below)) in *.
  set (w1 := trashed_world u now (root :: below) w) in *.
  set (h := λ r, if bool_decide (folder_id r ∈ ids)
                 then with_folder_is_deleted true (Some now) r else r).
  assert (Hh_id : ∀ x, folder_id (h x) = folder_id x).
  { intros x. unfold h. by case_bool_decide. }
  assert (Hh_parent : ∀ x, parent_folder (h x) = parent_folder x).
  { intros x. unfold h. by case_bool_decide. }
  assert (Hw1 : folders w1 = map h (folders w)) by done.
  (* the trashed subtree after the cascade *)
  pose proof (subtree_any_fmap h w w1 fuel Hw1 Hh_id Hh_parent (folder_id root)) as Hany1.
  rewrite Hwhole in Hany1. simpl in Hany1.
  destruct (subtree_select trashed w1 fuel _ _ Hany1) as (below' & Hbelow' & Hsub').
  set (root1 := with_folder_is_deleted true (Some now) root).
  assert (Hids_whole : map folder_id (map h whole) = map folder_id whole).
  { by apply map_key_preserved. }
  assert (Hnd' : NoDup (map folder_id (root1 :: below'))).
  { eapply sublist_NoDup; [exact Hnd|]. simpl. apply sublist_skip.
    rewrite <- Hids_whole. by apply fmap_sublist. }
  assert (Hroot_ids : folder_id root ∈ ids) by (unfold ids; simpl; left).
  assert (Hincl : ∀ i, i ∈ map folder_id below → i ∈ map folder_id below').
  { intros i (g & -> & Hg)%list_elem_of_fmap. rewrite <- (Hh_id g).
    apply list_elem_of_fmap_2.
    apply (subtree_included live trashed h w w1 fuel Hw1 Hh_id Hh_parent
             (folder_id root) below below'); [done|done| |done].
    intros g' Hg'. unfold h. rewrite bool_decide_eq_true_2; [done|].
    unfold ids. simpl. right. by apply list_elem_of_fmap_2. }
  assert (Hincl_ids : ∀ i, i ∈ ids → i ∈ map folder_id (root1 :: below')).
  { intros i [->|Hi]%elem_of_cons; [left|right]. by apply Hincl. }
  pose proof (root_record_found u now w root below Hnd_live Hfresh) as Hrecord.
  fold w1 in Hrecord.
  pose proof (restore_folder_eq fuel u w1 root1 below' _
                ltac:(simpl; by rewrite flag_folders_key)
                ltac:(simpl; by rewrite flag_files_key)
                ltac:(by apply elem_of_flag_folders)
                Hu eq_refl Hrecord Hbelow' Hnd') as Hrestore.
  set (new := number now u (now + thirty_days) (trash_seq w)
                (trash_items_of (root :: below) w)).
  exists below, (length (files_in false ids w)), (length (root :: below)), w1,
    (restored_world u (trash_seq w) root1 below' w1), new.
  assert (Hgone : ∀ t, t ∈ new → t ∉ trash (restored_world u (trash_seq w) root1 below' w1)).
  { intros t Ht. apply (new_records_dropped u now w root below); try done. }
  split; [done|]. split.
  { unfold subtree_counts. rewrite Hbelow. simpl. do 3 f_equal.
    rewrite filter_cons_True by done. simpl. f_equal. f_equal. apply filter_all.
    intros g Hg. apply (subtree_elem live w fuel _ _ Hbelow) in Hg as [_ Hg].
    by apply live_spec. }
  split; [done|]. split; [done|]. split.
  { unfold new. rewrite length_number, length_trash_items_of by done. done. }
  split; [apply item_of_number|]. split.
  { intros t Ht. by apply elem_of_number in Ht as [? _]. }
  split; [done|]. split; [done|]. split; [done|]. split; [exact Hrestore|]. split.
  { intros g Hg Hin. apply (flag_folders_cleared _ _ _ Hg). by apply Hincl_ids. }
  split.
  { intros f Hf Hin. apply (flag_files_cleared _ _ _ Hf).
    by apply (lies_in_mono ids). }
  split; [exact Hgone|]. split; [|done].
  (* what is left in the trash was there before *)
  simpl. unfold drop_records. rewrite !filter_app.
  match goal with
  | |- sublist (?kept ++ ?rest) _ => assert (rest = []) as ->
  end.
  { apply filter_none. intros t Ht Htid.
    apply (Hgone t).
    - by apply list_elem_of_filter in Ht as [_ Ht].
    - simpl. unfold drop_records. apply list_elem_of_filter. split; [done|].
      rewrite filter_app. apply elem_of_app. by right. }
  rewrite app_nil_r. etransitivity; apply sublist_filter.
Qed.

(** The example of the specification on the chain A / B / C with one file
    in each folder: trashing A flags the three folders and the three
    files and creates six Trash rows, each with the parent of its item;
    restoring A clears all flags and leaves no Trash row. *)
Example trash_and_restore_chain :
  match move_folder_to_trash 4 POST 1%nat 10%nat 1000 Tree.deep with
  | Some (r1, w1) =>
      r1 = Success ∧
      map folder_is_deleted (folders w1) = [true; true; true] ∧
      map file_is_deleted (files w1) = [true; true; true] ∧
      map item_of (trash w1)
        = [(None, Some 10%nat, None); (Some 3%nat, None, Some 10%nat);
           (None, Some 11%nat, Some 10%nat); (Some 1%nat, None, Some 11%nat);
           (None, Some 12%nat, Some 11%nat); (Some 2%nat, None, Some 12%nat)] ∧
      match restore_folder 4 POST 1%nat 10%nat w1 with
      | Some (r2, w2) =>
          r2 = Success ∧
          map folder_is_deleted (folders w2) = [false; false; false] ∧
          map file_is_deleted (files w2) = [false; false; false] ∧
          trash w2 = []
      | None => False
      end
  | None => False
  end.
Proof. vm_compute. repeat split. Qed.

(** With the subtree taken as every folder below the root, whatever its
    flag, the count fails: in [Tree.stale] the subtree of A holds one
    non-deleted file (x, inside the deleted folder B) and one non-deleted
    folder (A), but trashing A creates one Trash row only and leaves x
    non-deleted, because the cascade does not enter deleted subfolders. *)
Lemma cascade_skips_deleted_subfolders :
  subtree_counts any 3 Tree.stale Tree.A = Some (1%nat, 1%nat) ∧
  map (λ g, (folder_id g, folder_is_deleted g)) (folders Tree.stale)
    = [(10%nat, false); (11%nat, true)] ∧
  match move_folder_to_trash 3 POST 1%nat 10%nat 2000 Tree.stale with
  | Some (r, w1) =>
      r = Success ∧
      length (trash w1) = (length (trash Tree.stale) + 1)%nat ∧
      length (trash w1) ≠ (length (trash Tree.stale) + (1 + 1))%nat ∧
      map file_is_deleted (files w1) = [false]
  | None => False
  end.
Proof. vm_compute. repeat split. discriminate. Qed.

(** ** More fuel changes nothing *)

Lemma subtree_fuel_mono (sel : Folder → bool) (w : World) (fuel : nat) :
  ∀ p L, subtree sel fuel w p = Some L → subtree sel (S fuel) w p = Some L.
Proof.
  induction fuel as [|k IH]; intros p L Hsub; [done|].
  change (forest (λ c, subtree sel (S k) w (folder_id c)) (children sel w p) = Some L).
  simpl in Hsub. eapply forest_ext_in; [exact Hsub|].
  intros c below _ Hbelow _. by apply IH.
Qed.

Lemma for_fold_mono {A} (body body' : A → World → option World) (xs : list A) :
  (∀ x w w', body x w = Some w' → body' x w = Some w') →
  ∀ w w', for_fold body xs w = Some w' → for_fold body' xs w = Some w'.
Proof.
  intros Hbody. induction xs as [|x xs IH]; intros w w' Hrun; [done|]. simpl in *.
  destruct (body x w) as [w1|] eqn:Hx; [|done].
  rewrite (Hbody x w w1 Hx). by apply IH.
Qed.

Lemma delete_subfolders_recursive_fuel_mono (u : UserId) (now : Time) (fuel : nat) :
  ∀ p w w', delete_subfolders_recursive fuel u now p w = Some w' →
            delete_subfolders_recursive (S fuel) u now p w = Some w'.
Proof.
  induction fuel as [|k IH]; intros p w w' Hrun; [done|].
  simpl in Hrun. simpl. eapply for_fold_mono; [|exact Hrun].
  intros c v v' Hc. by apply IH.
Qed.

Lemma restore_subfolders_recursive_fuel_mono (u : UserId) (fuel : nat) :
  ∀ p w w', restore_subfolders_recursive fuel u p w = Some w' →
            restore_subfolders_recursive (S fuel) u p w = Some w'.
Proof.
  induction fuel as [|k IH]; intros p w w' Hrun; [done|].
  simpl in Hrun. simpl. eapply for_fold_mono; [|exact Hrun].
  intros c v v' Hc. by apply IH.
Qed.

(** ** Trashing leaves the quota counter alone *)

Lemma for_fold_preserves {A B} (proj : World → B) (body : A → World → option World)
    (xs : list A) :
  (∀ x w w', body x w = Some w' → proj w' = proj w) →
  ∀ w w', for_fold body xs w = Some w' → proj w' = proj w.
Proof.
  intros Hbody. induction xs as [|x xs IH]; intros w w' Hrun; simpl in Hrun.
  - by injection Hrun as <-.
  - destruct (body x w) as [w1|] eqn:Hx; [|done].
    rewrite (IH _ _ Hrun). by apply (Hbody x).
Qed.

Lemma soft_delete_files_in_profiles (u : UserId) (now : Time) (g : Folder) (w : World) :
  profiles (soft_delete_files_in u now g w) = profiles w.
Proof. unfold soft_delete_files_in. by rewrite soft_delete_fold. Qed.

Lemma delete_subfolders_recursive_profiles (u : UserId) (now : Time) (fuel : nat) :
  ∀ p w w', delete_subfolders_recursive fuel u now p w = Some w' →
            profiles w' = profiles w.
Proof.
  induction fuel as [|k IH]; intros p w w' Hrun; [done|]. simpl in Hrun.
  apply (for_fold_preserves profiles) in Hrun; [done|].
  intros c v v' Hc. apply IH in Hc. by rewrite Hc, soft_delete_files_in_profiles.
Qed.

(** Moving a file or a folder to the trash never changes a profile, so
    [used_storage] still counts the trashed files. *)
Lemma trashing_keeps_used_storage (fuel : nat) (method : Method) (u : UserId)
    (i : nat) (now : Time) (w : World) :
  profiles (move_to_trash method u i now w).2 = profiles w ∧
  ∀ r w', move_folder_to_trash fuel method u i now w = Some (r, w') →
          profiles w' = profiles w.
Proof.
  split.
  - unfold move_to_trash. destruct method; [done|].
    unfold try_except, mbind, M_bind, bind, query, modify, mret, M_ret, ret. simpl.
    by destruct (get_object_or_404 _ (files w)).
  - intros r w'. unfold move_folder_to_trash. destruct method; [by intros [= _ <-]|].
    destruct (get_object_or_404 _ (folders w)) as [folder|e]; [|by intros [= _ <-]].
    destruct (delete_subfolders_recursive _ _ _ _ _) as [w4|] eqn:Hrec; [|done].
    simpl. intros [= _ <-]. apply delete_subfolders_recursive_profiles in Hrec.
    by rewrite Hrec, soft_delete_files_in_profiles.
Qed.

(** ** Quota conservation over the single-file requests *)

Lemma sum_sizes_app (fs gs : list File) : sum_sizes (fs ++ gs) = sum_sizes fs + sum_sizes gs.
Proof. unfold sum_sizes. induction fs as [|f fs IH]; simpl; lia. Qed.

Lemma files_total_map (u : UserId) (h : File → File) (fs : list File) :
  (∀ r, r ∈ fs → file_owner (h r) = file_owner r ∧ size (h r) = size r) →
  sum_sizes (filter (λ f, file_owner f = u) (map h fs))
  = sum_sizes (filter (λ f, file_owner f = u) fs).
Proof.
  induction fs as [|r fs IH]; intros Hh; [done|]. simpl. rewrite !filter_cons.
  destruct (Hh r) as [Howner Hsize]; [left|]. rewrite Howner.
  case_decide; simpl; rewrite ?Hsize, IH; try done; intros x Hx; apply Hh; by right.
Qed.

Lemma files_total_save_flag (u : UserId) (b : bool) (f : File) (w : World) :
  NoDup (map file_id (files w)) → f ∈ files w →
  files_total u (save_file (with_file_is_deleted b f) w) = files_total u w.
Proof.
  intros Hnd Hf. unfold files_total. simpl. apply files_total_map. intros r Hr.
  case_decide as Hid; [|done]. by rewrite (key_inj_on file_id (files w) r f).
Qed.

Lemma files_total_delete (u : UserId) (f : File) (fs : list File) :
  NoDup (map file_id fs) → f ∈ fs → file_owner f = u →
  sum_sizes (filter (λ x, file_owner x = u) (filter (λ x, file_id x ≠ file_id f) fs))
  = sum_sizes (filter (λ x, file_owner x = u) fs) - size f.
Proof.
  induction fs as [|r fs IH]; intros Hnd Hf Hu; [by apply elem_of_nil in Hf|].
  simpl in Hnd. apply NoDup_cons in Hnd as [Hr Hnd]. rewrite !filter_cons.
  apply elem_of_cons in Hf as [->|Hf].
  - rewrite decide_False by (intros Hne; by apply Hne).
    rewrite decide_True by done. simpl.
    rewrite (filter_all (λ x, file_id x ≠ file_id r)); [lia|].
    intros x Hx Heq. apply Hr. rewrite <- Heq. by apply list_elem_of_fmap_2.
  - rewrite decide_True
      by (intros Heq; apply Hr; rewrite Heq; by apply list_elem_of_fmap_2).
    rewrite filter_cons. case_decide; simpl; rewrite IH by done; lia.
Qed.

Lemma saved_keys (f : File) (fs : list File) :
  map file_id (map (λ r, if decide (file_id r = file_id f) then f else r) fs)
  = map file_id fs.
Proof.
  induction fs as [|r fs IH]; [done|]. simpl. rewrite IH.
  by case_decide as Hid; [rewrite Hid|].
Qed.

(** Each single-file request keeps the keys unique and the counter equal
    to the total size of the user's files, trashed files included. *)
Lemma file_op_conserves_quota (form_is_valid : Upload → bool) (u : UserId) (op : FileOp)
    (w : World) :
  NoDup (map file_id (files w)) → quota_conserved u w → fresh_key op w →
  NoDup (map file_id (files (run_file_op form_is_valid u op w)))
  ∧ quota_conserved u (run_file_op form_is_valid u op w).
Proof.
  intros Hnd (p & Hp & Hused) Hfresh. destruct op as [up|fid now|fid|fid]; simpl.
  - (* upload *)
    unfold upload_file. destruct (form_is_valid up); [|by split; [|exists p]].
    fold (profile_of u w). rewrite Hp.
    destruct (storage_plan p) as [plan|]; [|by split; [|exists p]]. simpl.
    case_decide; [by split; [|exists p]|]. case_decide; [by split; [|exists p]|].
    simpl. split.
    + rewrite fmap_app. apply NoDup_app. split; [done|]. split; [|apply NoDup_singleton].
      intros i Hi ->%list_elem_of_singleton. by apply Hfresh.
    + eexists. split.
      * apply (profile_of_save u _ p (set_blobs _ (set_files _ w))). exact Hp.
      * simpl. unfold files_total. simpl. rewrite filter_app, sum_sizes_app.
        rewrite filter_cons_True by done. simpl. unfold files_total in Hused. lia.
  - (* move_to_trash *)
    unfold move_to_trash, try_except, mbind, M_bind, bind, query, modify, mret, M_ret, ret.
    simpl. destruct (get_object_or_404 _ (files w)) as [file_obj|e] eqn:Hget;
      [|by split; [|exists p]].
    apply objects_get_elem in Hget as [Hin _]. simpl. split.
    + by rewrite (saved_keys (with_file_is_deleted true file_obj)).
    + exists p. split; [done|].
      rewrite Hused. symmetry.
      apply (files_total_save_flag u true file_obj (create_trash _ _ _ _ _ _ w) Hnd Hin).
  - (* restore_file *)
    unfold restore_file, try_except, mbind, M_bind, bind, query, modify, mret, M_ret, ret.
    simpl. destruct (get_object_or_404 _ (files w)) as [file_obj|e] eqn:Hget;
      [|by split; [|exists p]].
    destruct (get_object_or_404 _ (trash w)) as [trash_item|e]; [|by split; [|exists p]].
    apply objects_get_elem in Hget as [Hin _]. simpl. split.
    + by rewrite (saved_keys (with_file_is_deleted false file_obj)).
    + exists p. split; [done|].
      rewrite Hused. symmetry.
      apply (files_total_save_flag u false file_obj w Hnd Hin).
  - (* permanent_delete_file *)
    unfold permanent_delete_file, try_except, mbind, M_bind, bind, query, perform,
      mret, M_ret, ret. simpl.
    destruct (get_object_or_404 _ (files w)) as [file_obj|e] eqn:Hget;
      [|by split; [|exists p]].
    destruct (get_object_or_404 _ (trash w)) as [trash_item|e]; [|by split; [|exists p]].
    rewrite Hp. simpl.
    apply objects_get_elem in Hget as [Hin Hmatch].
    apply bool_decide_eq_true in Hmatch as (_ & Howner & _). split.
    + eapply sublist_NoDup; [exact Hnd|]. apply fmap_sublist, sublist_filter.
    + eexists. split.
      * apply (profile_of_save u _ p w Hp).
      * simpl. unfold files_total. simpl.
        rewrite (files_total_delete u file_obj (files w) Hnd Hin Howner).
        unfold files_total in Hused. lia.
Qed.

(** Quota conservation holds in every world reached by uploads, moves to
    the trash, restores and purges of single files. *)
Lemma quota_conserved_by_file_ops (form_is_valid : Upload → bool) (u : UserId)
    (w0 w : World) :
  NoDup (map file_id (files w0)) → quota_conserved u w0 →
  reached form_is_valid u w0 w →
  NoDup (map file_id (files w)) ∧ quota_conserved u w.
Proof.
  intros Hnd Hq Hreach. induction Hreach as [|w op _ IH Hfresh]; [done|].
  destruct IH as [Hnd' Hq']. by apply file_op_conserves_quota.
Qed.

(** ** The folder purge and empty_trash never touch a profile *)

Lemma keeps_bind {A B} (m : M A) (k : A → M B) :
  keeps_profiles m → (∀ a, keeps_profiles (k a)) → keeps_profiles (m ≫= k).
Proof.
  intros Hm Hk w r w'. unfold mbind, M_bind, bind.
  destruct (m w) as [[a|e] w1] eqn:Hmw.
  - intros Hka. rewrite (Hk a _ _ _ Hka). by apply (Hm w (Ok a)).
  - intros [= <- <-]. by apply (Hm w (Raise e)).
Qed.

Lemma keeps_query {A} (q : World → Result A) : keeps_profiles (query q).
Proof. by intros w r w' [= _ <-]. Qed.

Lemma keeps_ret {A} (a : A) : keeps_profiles (mret a).
Proof. by intros w r w' [= _ <-]. Qed.

Lemma keeps_perform (raises : Effect → bool) (e : Effect) (f : World → World) :
  (∀ w, profiles (f w) = profiles w) → keeps_profiles (perform raises e f).
Proof.
  intros Hf w r w'. unfold perform. destruct (raises e); intros [= _ <-]; [done|apply Hf].
Qed.

Lemma keeps_for_each {A} (xs : list A) (body : A → M unit) :
  (∀ x, keeps_profiles (body x)) → keeps_profiles (for_each xs body).
Proof.
  intros Hbody. induction xs as [|x xs IH]; simpl; [apply (keeps_ret tt)|].
  apply keeps_bind; [apply Hbody|]. by intros _.
Qed.

Lemma keeps_for_count {A} (xs : list A) (body : A → M unit) :
  (∀ x, keeps_profiles (body x)) → ∀ c, keeps_profiles (for_count xs body c).
Proof.
  intros Hbody. induction xs as [|x xs IH]; intros c; simpl; [apply (keeps_ret c)|].
  apply keeps_bind; [apply Hbody|]. intros _. apply IH.
Qed.

Lemma delete_folder_row_profiles (gid : FolderId) (w : World) :
  profiles (delete_folder_row gid w) = profiles w.
Proof.
  unfold delete_folder_row. simpl.
  induction (filter _ (files w)) as [|f fs IH]; [done|]. simpl. exact IH.
Qed.

Lemma try_except_profiles (body : M Response) (w : World) :
  keeps_profiles body → profiles (try_except body w).2 = profiles w.
Proof.
  intros Hbody. unfold try_except. destruct (body w) as [[r|e] w'] eqn:Hrun; simpl;
    by apply (Hbody w _ w' Hrun).
Qed.

(** Whatever they delete and whichever calls fail, permanent_delete_folder
    and empty_trash leave every profile, hence [used_storage], as it was. *)
Lemma folder_purge_never_decrements (raises : Effect → bool) (method : Method)
    (u : UserId) (gid : FolderId) (w : World) :
  profiles (permanent_delete_folder raises method u gid w).2 = profiles w ∧
  profiles (empty_trash raises method u w).2 = profiles w.
Proof.
  split.
  - unfold permanent_delete_folder. destruct method; [done|].
    apply try_except_profiles.
    apply keeps_bind; [apply keeps_query|]. intros folder.
    apply keeps_bind; [apply keeps_query|]. intros trash_item.
    apply keeps_bind; [apply keeps_query|]. intros folder_files.
    apply keeps_bind.
    { apply keeps_for_each. intros file.
      apply keeps_bind; [by apply keeps_perform|]. intros _. by apply keeps_perform. }
    intros _. apply keeps_bind; [apply keeps_query|]. intros subfolders.
    apply keeps_bind.
    { apply keeps_for_each. intros subfolder. apply keeps_perform.
      apply delete_folder_row_profiles. }
    intros _. apply keeps_bind; [by apply keeps_perform|]. intros _.
    apply keeps_bind; [|intros _; apply keeps_ret].
    apply keeps_perform. apply delete_folder_row_profiles.
  - unfold empty_trash. destruct method; [done|].
    apply try_except_profiles.
    apply keeps_bind; [apply keeps_query|]. intros trash_items.
    apply keeps_bind; [|intros n; apply keeps_ret].
    apply keeps_for_count. intros trash_item. unfold empty_trash_item.
    apply keeps_bind.
    { unfold trash_item_file. destruct (trash_file trash_item);
        [apply keeps_query|apply keeps_ret]. }
    intros [file_obj|]; [|by intros w0 r w' [= _ <-]].
    apply keeps_bind; [by apply keeps_perform|]. intros _.
    apply keeps_bind; [by apply keeps_perform|]. intros _. by apply keeps_perform.
Qed.

(** ** The folder purge is one level deep *)

Lemma for_each_pure {A} (f : A → World → World) (body : A → M unit) (xs : list A) :
  (∀ x w, body x w = (Ok tt, f x w)) →
  ∀ w, for_each xs body w = (Ok tt, foldl (λ w x, f x w) w xs).
Proof.
  intros Hbody. induction xs as [|x xs IH]; intros w; [done|]. simpl.
  unfold mbind, M_bind, bind. by rewrite Hbody, IH.
Qed.

(** Without failures the view is a composition of deletions. *)
Lemma permanent_delete_folder_pure (u : UserId) (gid : FolderId) (w : World)
    (folder : Folder) (trash_item : Trash) :
  get_object_or_404
    (λ g, bool_decide (folder_id g = gid ∧ folder_owner g = u
                       ∧ folder_is_deleted g = true)) (folders w) = Ok folder →
  get_object_or_404
    (λ t, bool_decide (trash_folder t = Some (folder_id folder) ∧ trash_user t = u))
    (trash w) = Ok trash_item →
  let w_files :=
    foldl (λ w f, delete_file_row (file_id f) (storage_delete (file_file f) w)) w
          (filter (λ f, file_folder f = Some (folder_id folder)) (files w)) in
  let w_subfolders :=
    foldl (λ w s, delete_folder_row (folder_id s) w) w_files
          (filter (λ g, parent_folder g = Some (folder_id folder)) (folders w_files)) in
  permanent_delete_folder no_faults POST u gid w
  = (Success, delete_folder_row (folder_id folder)
                (delete_trash_row (trash_id trash_item) w_subfolders)).
Proof.
  intros Hfolder Htrash w_files w_subfolders.
  unfold permanent_delete_folder, try_except.
  unfold mbind at 1, M_bind at 1, bind at 1, query at 1. rewrite Hfolder.
  unfold mbind at 1, M_bind at 1, bind at 1, query at 1. rewrite Htrash.
  unfold mbind at 1, M_bind at 1, bind at 1, query at 1.
  unfold mbind at 1, M_bind at 1, bind at 1.
  rewrite (for_each_pure (λ f w, delete_file_row (file_id f)
                                   (storage_delete (file_file f) w))); [|done].
  fold w_files.
  unfold mbind at 1, M_bind at 1, bind at 1, query at 1.
  unfold mbind at 1, M_bind at 1, bind at 1.
  rewrite (for_each_pure (λ s w, delete_folder_row (folder_id s) w)); [|done].
  fold w_subfolders. done.
Qed.

Lemma delete_folder_row_folders (gid : FolderId) (w : World) :
  folders (delete_folder_row gid w)
  = map (λ g, if decide (parent_folder g = Some gid) then with_parent_folder None g else g)
        (filter (λ g, folder_id g ≠ gid) (folders w)).
Proof.
  unfold delete_folder_row. simpl. do 2 f_equal.
  induction (filter _ (files w)) as [|f fs IH]; [done|]. simpl. exact IH.
Qed.

Lemma present_delete (c gid : FolderId) (w : World) :
  gid ≠ c → present c w → present c (delete_folder_row gid w).
Proof.
  intros Hne (g & Hg & Hid). unfold present. rewrite delete_folder_row_folders.
  exists (if decide (parent_folder g = Some gid) then with_parent_folder None g else g).
  split; [|by case_decide].
  apply list_elem_of_fmap. exists g. split; [done|].
  apply list_elem_of_filter. split; [congruence|done].
Qed.

Lemma hangs_delete (c gid : FolderId) (ps : list (option FolderId)) (w : World) :
  None ∈ ps → hangs_at c ps w → hangs_at c ps (delete_folder_row gid w).
Proof.
  intros Hnone Hw g Hg Hid. rewrite delete_folder_row_folders in Hg.
  apply list_elem_of_fmap in Hg as (r & -> & Hr).
  apply list_elem_of_filter in Hr as [_ Hr].
  case_decide; [done|]. by apply Hw.
Qed.

Lemma hangs_delete_parent (c b : FolderId) (w : World) :
  hangs_at c [Some b; None] w → hangs_at c [None] (delete_folder_row b w).
Proof.
  intros Hw g Hg Hid. rewrite delete_folder_row_folders in Hg.
  apply list_elem_of_fmap in Hg as (r & -> & Hr).
  apply list_elem_of_filter in Hr as [_ Hr].
  case_decide as Hp; [left|]. simpl in Hid.
  pose proof (Hw r Hr Hid) as Hin.
  apply elem_of_cons in Hin as [Hin|Hin]; done.
Qed.

Lemma present_loop (c : FolderId) (subfolders : list Folder) :
  c ∉ map folder_id subfolders →
  ∀ w, present c w →
       present c (foldl (λ w s, delete_folder_row (folder_id s) w) w subfolders).
Proof.
  induction subfolders as [|s subfolders IH]; intros Hc w Hw; [done|].
  simpl in Hc. apply not_elem_of_cons in Hc as [Hcs Hc]. simpl.
  apply IH; [done|]. apply present_delete; [congruence|done].
Qed.

Lemma hangs_loop (c : FolderId) (ps : list (option FolderId)) (subfolders : list Folder) :
  None ∈ ps →
  ∀ w, hangs_at c ps w →
       hangs_at c ps (foldl (λ w s, delete_folder_row (folder_id s) w) w subfolders).
Proof.
  intros Hnone. induction subfolders as [|s subfolders IH]; intros w Hw; [done|].
  simpl. apply IH. by apply hangs_delete.
Qed.

Lemma hangs_loop_parent (c b : FolderId) (subfolders : list Folder) :
  b ∈ map folder_id subfolders →
  ∀ w, hangs_at c [Some b; None] w →
       hangs_at c [None] (foldl (λ w s, delete_folder_row (folder_id s) w) w subfolders).
Proof.
  induction subfolders as [|s subfolders IH]; intros Hb w Hw;
    [by apply elem_of_nil in Hb|].
  simpl. destruct (decide (folder_id s = b)) as [->|Hne].
  - apply hangs_loop; [left|]. by apply hangs_delete_parent.
  - apply IH.
    + simpl in Hb. apply elem_of_cons in Hb as [?|?]; [congruence|done].
    + apply hangs_delete; [right; left|done].
Qed.

Lemma delete_files_folders (fs : list File) :
  ∀ w, folders (foldl (λ w f, delete_file_row (file_id f)
                                (storage_delete (file_file f) w)) w fs) = folders w.
Proof. induction fs as [|f fs IH]; intros w; [done|]. simpl. by rewrite IH. Qed.

(** Whenever the purged folder has a subfolder [child] that has itself a
    subfolder [grandchild], the grandchild is still in the table after the
    purge, with no parent: it has not been purged but moved to the root. *)
Lemma purge_leaves_grandchildren (u : UserId) (w : World)
    (folder child grandchild : Folder) (trash_item : Trash) :
  NoDup (map folder_id (folders w)) →
  get_object_or_404
    (λ g, bool_decide (folder_id g = folder_id folder ∧ folder_owner g = u
                       ∧ folder_is_deleted g = true)) (folders w) = Ok folder →
  get_object_or_404
    (λ t, bool_decide (trash_folder t = Some (folder_id folder) ∧ trash_user t = u))
    (trash w) = Ok trash_item →
  child ∈ folders w → parent_folder child = Some (folder_id folder) →
  grandchild ∈ folders w → parent_folder grandchild = Some (folder_id child) →
  folder_id child ≠ folder_id folder → folder_id grandchild ≠ folder_id folder →
  let '(r, w') := permanent_delete_folder no_faults POST u (folder_id folder) w in
  r = Success ∧
  ∃ g, g ∈ folders w' ∧ folder_id g = folder_id grandchild ∧ parent_folder g = None.
Proof.
  intros Hnd Hfolder Htrash Hchild Hchild_parent Hgrand Hgrand_parent Hne_child Hne_grand.
  rewrite (permanent_delete_folder_pure u (folder_id folder) w folder trash_item)
    by done.
  split; [done|].
  set (w_files := foldl _ w _).
  assert (Hfolders : folders w_files = folders w) by apply delete_files_folders.
  rewrite Hfolders.
  set (subfolders := filter _ (folders w)).
  set (w_sub := foldl _ w_files subfolders).
  assert (Hpresent : present (folder_id grandchild) w_sub).
  { apply present_loop.
    - intros (s & Hid & Hs)%list_elem_of_fmap.
      apply list_elem_of_filter in Hs as [Hparent Hs].
      assert (grandchild = s) as -> by (by eapply (key_inj_on folder_id)).
      congruence.
    - exists grandchild. by rewrite Hfolders. }
  assert (Hroot : hangs_at (folder_id grandchild) [None] w_sub).
  { apply (hangs_loop_parent _ (folder_id child)).
    - apply list_elem_of_fmap_2. by apply list_elem_of_filter.
    - intros g Hg Hid. rewrite Hfolders in Hg.
      assert (g = grandchild) as -> by (by eapply (key_inj_on folder_id)).
      rewrite Hgrand_parent. left. }
  destruct (present_delete (folder_id grandchild) (folder_id folder)
              (delete_trash_row (trash_id trash_item) w_sub)) as (g & Hg & Hid);
    [congruence|exact Hpresent|].
  exists g. split; [done|]. split; [done|].
  assert (Hin : parent_folder g ∈ [None]).
  { apply (hangs_delete (folder_id grandchild) (folder_id folder) [None]
             (delete_trash_row (trash_id trash_item) w_sub)); [left|exact Hroot|done|done]. }
  by apply list_elem_of_singleton in Hin.
Qed.

(** ** Every acyclic table with unique keys has listed subtrees *)

Section WellFormed.
Context (w : World) (rank : FolderId → nat).
Hypothesis unique_keys : NoDup (map folder_id (folders w)).
Hypothesis acyclic : ranked rank w.

Lemma below_rank (p : FolderId) (g : Folder) :
  below w p g → (rank p < rank (folder_id g))%nat.
Proof.
  induction 1 as [g Hg Hp|g h _ IH Hg Hp]; [by apply acyclic|].
  pose proof (acyclic g _ Hg Hp). lia.
Qed.

Lemma below_in (p : FolderId) (g : Folder) : below w p g → g ∈ folders w.
Proof. by destruct 1. Qed.

Lemma below_under_child (p : FolderId) (c g : Folder) :
  c ∈ folders w → parent_folder c = Some p → below w (folder_id c) g → below w p g.
Proof.
  intros Hc Hp. induction 1 as [g Hg Hgp|g h _ IH Hg Hgp].
  - apply (below_step w p g c); [by apply below_child|done|done].
  - by apply (below_step w p g h).
Qed.

(** Two folders that have a common descendant are equal or one lies
    below the other. *)
Lemma below_comparable (a b : FolderId) (g : Folder) :
  below w a g → below w b g →
  a = b ∨ (∃ x, folder_id x = b ∧ below w a x) ∨ (∃ x, folder_id x = a ∧ below w b x).
Proof.
  intros Ha. revert b. induction Ha as [g Hg Hp|g h Hah IH Hg Hp]; intros b Hb.
  - destruct Hb as [g _ Hp'|g h' Hbh' _ Hp']; [left; congruence|].
    right. right. exists h'. split; [congruence|done].
  - destruct Hb as [g _ Hp'|g h' Hbh' _ Hp'].
    + right. left. exists h. split; [congruence|done].
    + assert (h = h') as <-.
      { apply (key_inj_on folder_id (folders w)); [done|by eapply below_in..|congruence]. }
      by apply IH.
Qed.

Lemma sibling_not_below (p : FolderId) (c c' : Folder) :
  c ∈ folders w → parent_folder c = Some p →
  c' ∈ folders w → parent_folder c' = Some p →
  ¬ below w (folder_id c') c.
Proof.
  intros Hc Hp Hc' Hp' Hbelow.
  pose proof (acyclic c' p Hc' Hp') as Hrank.
  destruct Hbelow as [c _ Hcp|c h Hh _ Hcp].
  - assert (p = folder_id c') by congruence. subst p. lia.
  - apply below_rank in Hh. assert (p = folder_id h) by congruence. subst p. lia.
Qed.

Lemma subtree_below (sel : Folder → bool) (fuel : nat) :
  ∀ p L, subtree sel fuel w p = Some L → ∀ g, g ∈ L → below w p g.
Proof.
  induction fuel as [|k IH]; intros p L Hsub; [done|]. simpl in Hsub.
  apply (forest_all _ _ _ _ Hsub).
  - intros c Hc. apply list_elem_of_filter in Hc as [[Hp _] Hc]. by apply below_child.
  - intros c below_c Hc Hbelow g Hg.
    apply list_elem_of_filter in Hc as [[Hp _] Hc].
    apply (below_under_child p c); [done|done|]. by apply (IH (folder_id c) below_c).
Qed.

(** What a forest lists: the children and what their subtrees list. *)
Lemma forest_origin (sub : Folder → option (list Folder)) (cs L : list Folder) :
  forest sub cs = Some L →
  ∀ g, g ∈ L → ∃ c, c ∈ cs ∧ (g = c ∨ ∃ below_c, sub c = Some below_c ∧ g ∈ below_c).
Proof.
  revert L. induction cs as [|a cs IH]; intros L Hf g Hg.
  - simpl in Hf. injection Hf as <-. by apply elem_of_nil in Hg.
  - apply forest_cons in Hf as (below_a & others & Ha & Hrest & ->).
    apply elem_of_cons in Hg as [->|Hg]; [exists a; split; [left|by left]|].
    apply elem_of_app in Hg as [Hg|Hg].
    + exists a. split; [left|]. right. eauto.
    + destruct (IH others Hrest g Hg) as (c & Hc & Hor). exists c. split; [by right|done].
Qed.

Lemma subtree_nodup (sel : Folder → bool) (fuel : nat) :
  ∀ p L, subtree sel fuel w p = Some L → NoDup (map folder_id L).
Proof.
  induction fuel as [|k IH]; intros p L Hsub; [done|]. simpl in Hsub.
  assert (Hcs : NoDup (map folder_id (children sel w p))).
  { eapply sublist_NoDup; [exact unique_keys|]. apply fmap_sublist, sublist_filter. }
  assert (Hparent : ∀ c, c ∈ children sel w p → c ∈ folders w ∧ parent_folder c = Some p).
  { intros c Hc. apply list_elem_of_filter in Hc. tauto. }
  revert L Hsub Hcs Hparent. generalize (children sel w p). intros cs.
  induction cs as [|c cs IHcs]; intros L Hf Hcs Hparent.
  - simpl in Hf. injection Hf as <-. constructor.
  - apply forest_cons in Hf as (below_c & others & Hc & Hrest & ->).
    simpl in Hcs. apply NoDup_cons in Hcs as [Hc_fresh Hcs].
    destruct (Hparent c) as [Hc_in Hc_parent]; [left|].
    assert (Hothers : ∀ g, g ∈ others →
              g ∈ folders w ∧ folder_id g ≠ folder_id c ∧ ¬ below w (folder_id c) g).
    { intros g Hg.
      destruct (forest_origin _ _ _ Hrest g Hg) as (c' & Hc' & Hor).
      destruct (Hparent c') as [Hc'_in Hc'_parent]; [by right|].
      assert (Hne : folder_id c' ≠ folder_id c).
      { intros Heq. apply Hc_fresh. rewrite <- Heq. by apply list_elem_of_fmap_2. }
      destruct Hor as [->|(below_c' & Hsub' & Hg')].
      - split; [done|]. split; [done|]. by apply (sibling_not_below p).
      - pose proof (subtree_below sel k _ _ Hsub' g Hg') as Hbelow'.
        split; [by eapply below_in|]. split.
        + intros Heq.
          assert (g = c) as -> by
            (apply (key_inj_on folder_id (folders w)); [done|by eapply below_in|done|done]).
          by apply (sibling_not_below p c c').
        + intros Hbelow.
          destruct (below_comparable _ _ g Hbelow Hbelow') as [Heq|[(x & Hx & Hb)|(x & Hx & Hb)]].
          * by apply Hne.
          * assert (x = c') as -> by
              (apply (key_inj_on folder_id (folders w)); [done|by eapply below_in|done|done]).
            by apply (sibling_not_below p c' c).
          * assert (x = c) as -> by
              (apply (key_inj_on folder_id (folders w)); [done|by eapply below_in|done|done]).
            by apply (sibling_not_below p c c'). }
    simpl. apply NoDup_cons. split.
    + rewrite fmap_app. intros [Hin|Hin]%elem_of_app.
      * apply list_elem_of_fmap in Hin as (g & Heq & Hg).
        pose proof (below_rank _ _ (subtree_below sel k _ _ Hc g Hg)). rewrite Heq in *. lia.
      * apply list_elem_of_fmap in Hin as (g & Heq & Hg).
        destruct (Hothers g Hg) as (_ & Hne & _). congruence.
    + rewrite fmap_app. apply NoDup_app. split; [by apply (IH (folder_id c))|]. split.
      * intros i (g & -> & Hg)%list_elem_of_fmap (g' & Heq & Hg')%list_elem_of_fmap.
        destruct (Hothers g' Hg') as (Hg'_in & _ & Hnot).
        pose proof (subtree_below sel k _ _ Hc g Hg) as Hbelow.
        assert (g = g') as -> by
          (apply (key_inj_on folder_id (folders w)); [done|by eapply below_in|done|done]).
        by apply Hnot.
      * apply (IHcs others); [done|done|]. intros c' Hc'. apply Hparent. by right.
Qed.

Lemma forest_defined (sub : Folder → option (list Folder)) (cs : list Folder) :
  (∀ c, c ∈ cs → is_Some (sub c)) → is_Some (forest sub cs).
Proof.
  induction cs as [|c cs IH]; intros Hsub; [by eexists|]. simpl.
  destruct (Hsub c) as [below_c ->]; [left|]. simpl.
  destruct IH as [others ->]; [intros c' Hc'; apply Hsub; by right|]. by eexists.
Qed.

(** Fuel above the rank of every row reaches all leaves. *)
Lemma subtree_defined (sel : Folder → bool) (bound : nat) :
  (∀ g, g ∈ folders w → (rank (folder_id g) < bound)%nat) →
  ∀ fuel p, (bound - rank p ≤ fuel)%nat → is_Some (subtree sel (S fuel) w p).
Proof.
  intros Hbound. induction fuel as [|k IH]; intros p Hp; simpl.
  - unfold children. rewrite (filter_none _ (folders w)); [by eexists|].
    intros g Hg [Hparent _]. pose proof (acyclic g p Hg Hparent).
    pose proof (Hbound g Hg). lia.
  - apply forest_defined. intros c Hc. apply list_elem_of_filter in Hc as [[Hparent _] Hc].
    apply IH. pose proof (acyclic c p Hc Hparent). pose proof (Hbound c Hc). lia.
Qed.

(** With enough fuel the whole subtree of a folder is listed, without
    repetition. *)
Lemma wellformed_subtree (root : Folder) (fuel : nat) :
  root ∈ folders w → (enough_fuel rank w ≤ fuel)%nat →
  ∃ whole,
    subtree any fuel w (folder_id root) = Some whole ∧
    NoDup (map folder_id (root :: whole)).
Proof.
  intros Hroot Hfuel. unfold enough_fuel in Hfuel.
  set (bound := S (max_list (map (λ g, rank (folder_id g)) (folders w)))) in *.
  destruct fuel as [|fuel]; [lia|].
  destruct (subtree_defined any bound) with (fuel := fuel) (p := folder_id root)
    as [whole Hwhole].
  - intros g Hg. unfold bound.
    assert (rank (folder_id g) ≤ max_list (map (λ g, rank (folder_id g)) (folders w)))%nat.
    { apply max_list_elem_of_le. by apply (list_elem_of_fmap_2 (λ g, rank (folder_id g))). }
    lia.
  - lia.
  - exists whole. split; [done|]. simpl. apply NoDup_cons. split.
    + intros (g & Heq & Hg)%list_elem_of_fmap.
      pose proof (below_rank _ _ (subtree_below any _ _ _ Hwhole g Hg)). rewrite Heq in *.
      lia.
    + by apply (subtree_nodup any (S fuel) (folder_id root)).
Qed.
End WellFormed.

(** ** Cascade completeness *)

(** C3 (amended). Let the folder table have unique keys and no cycle of
    parents, let the folder [root] be non-deleted, N the number of
    non-deleted files and M the number of folders of its live subtree (the
    root and what is reached from it through non-deleted folders).
    Trashing [root] creates exactly N+M Trash records, one per item, each
    with the immediate parent of its item as [original_folder], and flips
    exactly those N+M items to deleted.  Restoring [root] then flips all
    of them back and deletes those N+M records; the records that remain
    were there before the folder was trashed. *)
Theorem cascade_completeness (rank : FolderId → nat) (fuel : nat) (u : UserId)
    (now : Time) (w : World) (root : Folder) :
  NoDup (map folder_id (folders w)) →
  NoDup (map file_id (files w)) →
  ranked rank w →
  (enough_fuel rank w ≤ fuel)%nat →
  root ∈ folders w → folder_owner root = u → folder_is_deleted root = false →
  (∀ t, t ∈ trash w → trash_folder t = Some (folder_id root) → trash_user t ≠ u) →
  ∃ below n m w1 w2 new,
    subtree live fuel w (folder_id root) = Some below ∧
    subtree_counts live fuel w root = Some (n, m) ∧
    move_folder_to_trash fuel POST u (folder_id root) now w = Some (Success, w1) ∧
    trash w1 = trash w ++ new ∧ length new = (n + m)%nat ∧
    map item_of new = trash_items_of (root :: below) w ∧
    (∀ t, t ∈ new → trash_user t = u) ∧
    folders w1 = flag_folders true (Some now) (map folder_id (root :: below)) (folders w) ∧
    files w1 = flag_files false (map folder_id (root :: below)) (files w) ∧
    profiles w1 = profiles w ∧
    restore_folder fuel POST u (folder_id root) w1 = Some (Success, w2) ∧
    (∀ g, g ∈ folders w2 → folder_id g ∈ map folder_id (root :: below) →
          folder_is_deleted g = false) ∧
    (∀ f, f ∈ files w2 → lies_in (map folder_id (root :: below)) f = true →
          file_is_deleted f = false) ∧
    (∀ t, t ∈ new → t ∉ trash w2) ∧
    sublist (trash w2) (trash w) ∧
    profiles w2 = profiles w.
Proof.
  intros Hfolders Hfiles Hacyclic Hfuel Hroot Hu Hlive Hfresh.
  destruct (wellformed_subtree w rank Hfolders Hacyclic root fuel Hroot Hfuel)
    as (whole & Hwhole & Hnd).
  exact (cascade_closed_form fuel u now w root whole Hfolders Hfiles Hroot Hu Hlive
           Hwhole Hnd Hfresh).
Qed.

Lemma cascade_completeness_witness :
  ∃ w1 new,
    move_folder_to_trash 4 POST 1%nat 10%nat 1000 Tree.deep = Some (Success, w1) ∧
    trash w1 = trash Tree.deep ++ new ∧ length new = 6%nat.
Proof.
  destruct (cascade_completeness (λ i, i - 10)%nat 4 1%nat 1000 Tree.deep Tree.A)
    as (below & n & m & w1 & w2 & new & _ & Hcounts & Htrash & Hnew & Hlen & _).
  - apply (bool_decide_unpack _). by vm_compute.
  - apply (bool_decide_unpack _). by vm_compute.
  - intros g p Hg Hp. apply list_elem_of_In in Hg. simpl in Hg.
    destruct Hg as [<-|[<-|[<-|[]]]]; vm_compute in Hp; [discriminate| |];
      injection Hp as <-; vm_compute; lia.
  - vm_compute. lia.
  - left.
  - reflexivity.
  - reflexivity.
  - intros t Ht. by apply elem_of_nil in Ht.
  - exists w1, new. split; [exact Htrash|]. split; [exact Hnew|].
    vm_compute in Hcounts. injection Hcounts as <- <-. exact Hlen.
Defined.

(** * Properties of the further views *)

(** ** move_file *)

Lemma related_folder_found (f : File) (w : World) :
  (∀ gid, file_folder f = Some gid → ∃ g, g ∈ folders w ∧ folder_id g = gid) →
  related_folder f w ≠ Raise DoesNotExist.
Proof.
  intros Hint. unfold related_folder. destruct (file_folder f) as [gid|]; [|done].
  destruct (Hint gid eq_refl) as (g & Hg & Hid).
  unfold objects_get.
  destruct (filter _ (folders w)) as [|x [|y r]] eqn:Hfilter; try done.
  assert (Hin : g ∈ filter (λ x, bool_decide (folder_id x = gid) = true) (folders w)).
  { apply list_elem_of_filter. split; [by apply bool_decide_eq_true|done]. }
  rewrite Hfilter in Hin. by apply elem_of_nil in Hin.
Qed.

Lemma move_to_cases (target : option FolderId) (done : MoveResponse) (f : File) (w : World) :
  (move_to target done f w = (done, save_file (with_file_folder target f) w)
   ∧ ∃ old, related_folder f w = Ok old)
  ∨ ((move_to target done f w).2 = w
     ∧ ∃ e, related_folder f w = Raise e
            ∧ (move_to target done f w).1
              = match e with DoesNotExist => FolderNotFound | _ => MoveFailed (Orm e) end).
Proof.
  unfold move_to. destruct (related_folder f w) as [old|e]; [left; eauto|right].
  split; [by destruct e|]. exists e. split; [done|]. by destruct e.
Qed.

(** X1. Whatever the request, move_file either leaves the database as it
    was or rewrites the folder column of one file of the requesting user,
    to no folder or to a folder of that user; it never changes a profile,
    the size or the owner of a file, hence no user's total. *)
Theorem move_file_changes_one_folder_column (method : Method) (u : UserId) (fid : FileId)
    (body : MoveBody) (w : World) :
  NoDup (map file_id (files w)) →
  let w' := (move_file method u fid body w).2 in
  (w' = w
   ∨ ∃ f target,
       f ∈ files w ∧ file_id f = fid ∧ file_owner f = u
       ∧ (target = None
          ∨ ∃ g, g ∈ folders w ∧ folder_owner g = u ∧ target = Some (folder_id g))
       ∧ w' = save_file (with_file_folder target f) w)
  ∧ profiles w' = profiles w ∧ folders w' = folders w ∧ trash w' = trash w
  ∧ ∀ v, files_total v w' = files_total v w.
Proof.
  intros Hnd w'. subst w'. unfold move_file.
  assert (Hsame : ∀ r : MoveResponse,
    ((r, w).2 = w ∨ ∃ f target,
       f ∈ files w ∧ file_id f = fid ∧ file_owner f = u
       ∧ (target = None
          ∨ ∃ g, g ∈ folders w ∧ folder_owner g = u ∧ target = Some (folder_id g))
       ∧ (r, w).2 = save_file (with_file_folder target f) w)
    ∧ profiles (r, w).2 = profiles w ∧ folders (r, w).2 = folders w
    ∧ trash (r, w).2 = trash w ∧ ∀ v, files_total v (r, w).2 = files_total v w).
  { intros r. simpl. tauto. }
  destruct method; [apply Hsame|].
  destruct (get_object_or_404 _ (files w)) as [f|e] eqn:Hfile; [|apply Hsame].
  apply objects_get_elem in Hfile as [Hf Hkey].
  apply bool_decide_eq_true in Hkey as [Hid Howner].
  assert (Hmove : ∀ target done,
    (target = None
     ∨ ∃ g, g ∈ folders w ∧ folder_owner g = u ∧ target = Some (folder_id g)) →
    ((move_to target done f w).2 = w ∨ ∃ f0 target0,
       f0 ∈ files w ∧ file_id f0 = fid ∧ file_owner f0 = u
       ∧ (target0 = None
          ∨ ∃ g, g ∈ folders w ∧ folder_owner g = u ∧ target0 = Some (folder_id g))
       ∧ (move_to target done f w).2 = save_file (with_file_folder target0 f0) w)
    ∧ profiles (move_to target done f w).2 = profiles w
    ∧ folders (move_to target done f w).2 = folders w
    ∧ trash (move_to target done f w).2 = trash w
    ∧ ∀ v, files_total v (move_to target done f w).2 = files_total v w).
  { intros target done Htarget.
    destruct (move_to_cases target done f w) as [[-> _]|[-> _]]; [|simpl; tauto].
    simpl. split; [right; exists f, target; tauto|]. repeat split.
    intros v. unfold files_total. simpl. apply files_total_map. intros r Hr.
    case_decide as Hkey; [|done]. by rewrite (key_inj_on file_id (files w) r f). }
  destruct body as [| |[| |gid]]; try apply Hsame.
  - apply Hmove. by left.
  - destruct (get_object_or_404 _ (folders w)) as [g|e] eqn:Hfolder; [|apply Hsame].
    apply objects_get_elem in Hfolder as [Hg Hgkey].
    apply bool_decide_eq_true in Hgkey as [_ Hgowner].
    apply Hmove. right. by exists g.
Qed.

(** X2. When every file's folder exists, move_file never gives the answer
    of its handler for Folder.DoesNotExist: a target folder that is
    missing or belongs to another user is answered by the general handler
    with Http404, and the database stays as it was. *)
Theorem move_file_never_reports_folder_not_found (method : Method) (u : UserId)
    (fid : FileId) (body : MoveBody) (w : World) :
  (∀ f gid, f ∈ files w → file_folder f = Some gid →
            ∃ g, g ∈ folders w ∧ folder_id g = gid) →
  (move_file method u fid body w).1 ≠ FolderNotFound
  ∧ ∀ f gid,
      get_object_or_404 (λ f, bool_decide (file_id f = fid ∧ file_owner f = u)) (files w)
        = Ok f →
      (∀ g, g ∈ folders w → folder_id g = gid → folder_owner g ≠ u) →
      move_file POST u fid (BodyObject (Key gid)) w = (MoveFailed (Orm Http404), w).
Proof.
  intros Hint. split.
  - unfold move_file. destruct method; [done|].
    destruct (get_object_or_404 _ (files w)) as [f|e] eqn:Hfile; [|done].
    apply objects_get_elem in Hfile as [Hf _].
    assert (Hto : ∀ target done, done ≠ FolderNotFound →
              (move_to target done f w).1 ≠ FolderNotFound).
    { intros target done Hdone.
      destruct (move_to_cases target done f w) as [[-> _]|[_ (e & He & ->)]]; [done|].
      destruct e; try done. exfalso. revert He. apply related_folder_found.
      intros gid Hgid. by apply (Hint f). }
    destruct body as [| |[| |gid]]; try done.
    + by apply Hto.
    + destruct (get_object_or_404 _ (folders w)) as [g|e]; [|done]. by apply Hto.
  - intros f gid Hfile Hforeign. unfold move_file. rewrite Hfile.
    unfold get_object_or_404, objects_get. rewrite filter_none; [done|].
    intros g Hg Hkey. apply bool_decide_eq_true in Hkey as [Hid Howner].
    by apply (Hforeign g).
Qed.

Lemma move_file_changes_one_folder_column_witness :
  let w' := (move_file POST 1%nat 1%nat (BodyObject (Key 10%nat)) Tree.deep).2 in
  profiles w' = profiles Tree.deep ∧ files_total 1%nat w' = 375.
Proof.
  destruct (move_file_changes_one_folder_column POST 1%nat 1%nat (BodyObject (Key 10%nat))
              Tree.deep) as (_ & Hprofiles & _ & _ & Htotal).
  - apply (bool_decide_unpack _). by vm_compute.
  - split; [exact Hprofiles|]. rewrite Htotal. reflexivity.
Defined.

Lemma move_file_never_reports_folder_not_found_witness :
  (move_file POST 1%nat 1%nat (BodyObject (Key 99%nat)) Tree.deep).1 ≠ FolderNotFound.
Proof.
  apply (move_file_never_reports_folder_not_found POST 1%nat 1%nat
           (BodyObject (Key 99%nat)) Tree.deep).
  intros f gid Hf Hgid. apply list_elem_of_In in Hf. simpl in Hf.
  destruct Hf as [<-|[<-|[<-|[]]]]; injection Hgid as <-.
  - exists Tree.B. split; [right; left|reflexivity].
  - exists Tree.C. split; [right; right; left|reflexivity].
  - exists Tree.A. split; [left|reflexivity].
Defined.

Lemma related_folder_ok (f : File) (w : World) :
  NoDup (map folder_id (folders w)) →
  (∀ gid, file_folder f = Some gid → ∃ g, g ∈ folders w ∧ folder_id g = gid) →
  ∃ old, related_folder f w = Ok old.
Proof.
  intros Hnd Hint. unfold related_folder. destruct (file_folder f) as [gid|]; [|by eexists].
  destruct (Hint gid eq_refl) as (g & Hg & Hid).
  assert (objects_get DoesNotExist (λ x, bool_decide (folder_id x = gid)) (folders w) = Ok g)
    as ->; [|by eexists].
  apply objects_get_Ok. apply (filter_unique _ folder_id); try done.
  - by apply bool_decide_eq_true.
  - intros y Hy. apply bool_decide_eq_true in Hy. congruence.
Qed.

(** X3. move_file does not look at the trash flags: any file of the user
    is moved into any folder of the user, also when the file or the
    folder is in the trash. *)
Theorem move_file_ignores_trash_flags (u : UserId) (w : World) (f : File) (g : Folder) :
  NoDup (map file_id (files w)) → NoDup (map folder_id (folders w)) →
  f ∈ files w → file_owner f = u → g ∈ folders w → folder_owner g = u →
  (∀ gid, file_folder f = Some gid → ∃ h, h ∈ folders w ∧ folder_id h = gid) →
  move_file POST u (file_id f) (BodyObject (Key (folder_id g))) w
  = (MovedToFolder (folder_name g),
     save_file (with_file_folder (Some (folder_id g)) f) w).
Proof.
  intros Hfiles Hfolders Hf Hfu Hg Hgu Hint. unfold move_file.
  assert (get_object_or_404 (λ x, bool_decide (file_id x = file_id f ∧ file_owner x = u))
            (files w) = Ok f) as ->.
  { apply objects_get_Ok. apply (filter_unique _ file_id); try done.
    - by apply bool_decide_eq_true.
    - intros y Hy. apply bool_decide_eq_true in Hy. tauto. }
  assert (get_object_or_404 (λ x, bool_decide (folder_id x = folder_id g ∧ folder_owner x = u))
            (folders w) = Ok g) as ->.
  { apply objects_get_Ok. apply (filter_unique _ folder_id); try done.
    - by apply bool_decide_eq_true.
    - intros y Hy. apply bool_decide_eq_true in Hy. tauto. }
  unfold move_to. by destruct (related_folder_ok f w Hfolders Hint) as [old ->].
Qed.

Lemma move_file_ignores_trash_flags_witness :
  map file_folder
    (files (move_file POST 1%nat 1%nat (BodyObject (Key 11%nat)) Tree.stale).2)
  = [Some 11%nat]
  ∧ map folder_is_deleted (folders Tree.stale) = [false; true].
Proof.
  split; [|reflexivity].
  change (move_file POST 1%nat 1%nat (BodyObject (Key 11%nat)) Tree.stale)
    with (move_file POST 1%nat (file_id (Tree.file 1%nat "x" 300 (Some 11%nat) false))
            (BodyObject (Key (folder_id (with_folder_is_deleted true (Some 1000) Tree.B))))
            Tree.stale).
  rewrite (move_file_ignores_trash_flags 1%nat Tree.stale
             (Tree.file 1%nat "x" 300 (Some 11%nat) false)
             (with_folder_is_deleted true (Some 1000) Tree.B)).
  - reflexivity.
  - apply (bool_decide_unpack _). by vm_compute.
  - apply (bool_decide_unpack _). by vm_compute.
  - vm_compute. left.
  - reflexivity.
  - vm_compute. right. left.
  - reflexivity.
  - intros gid [= <-]. exists (with_folder_is_deleted true (Some 1000) Tree.B).
    split; [vm_compute; right; left|reflexivity].
Defined.

(** ** delete_folder *)

(** X4. delete_folder deletes a folder only when no File row and no
    Folder row refers to it, rows in the trash included.  It never
    changes a file, a blob or a profile; when it deletes, exactly the row
    of the folder goes, with the Trash rows and the share links of the
    folder, and the Trash rows of items that came from it lose their
    original folder. *)
Theorem delete_folder_removes_an_empty_folder (method : Method) (u : UserId)
    (gid : FolderId) (w : World) :
  let r := delete_folder method u gid w in
  files r.2 = files w ∧ profiles r.2 = profiles w ∧ blobs r.2 = blobs w
  ∧ (r.1 ≠ FolderDeleted → r.2 = w)
  ∧ (r.1 = FolderDeleted →
       (∃ g, g ∈ folders w ∧ folder_id g = gid ∧ folder_owner g = u)
       ∧ (∀ f, f ∈ files w → file_folder f ≠ Some gid)
       ∧ (∀ g, g ∈ folders w → parent_folder g ≠ Some gid)
       ∧ folders r.2 = filter (λ g, folder_id g ≠ gid) (folders w)
       ∧ trash r.2
         = map (λ t, if decide (original_folder t = Some gid)
                     then with_original_folder None t else t)
               (filter (λ t, trash_folder t ≠ Some gid) (trash w))
       ∧ share_links r.2 = filter (λ l, share_folder_ref l ≠ Some gid) (share_links w)).
Proof.
  intros r. subst r. unfold delete_folder. destruct method; [by repeat split|].
  destruct (get_object_or_404 _ (folders w)) as [g|e] eqn:Hfolder; [|by repeat split].
  apply objects_get_elem in Hfolder as [Hg Hkey].
  apply bool_decide_eq_true in Hkey as [<- Howner].
  destruct (negb _ || negb _) eqn:Hempty; [by repeat split|].
  apply orb_false_iff in Hempty as [Hfiles Hsubs].
  apply negb_false_iff, bool_decide_eq_true in Hfiles, Hsubs.
  assert (Hnofile : ∀ f, f ∈ files w → file_folder f ≠ Some (folder_id g)).
  { intros f Hf Hin.
    assert (Hmem : f ∈ filter (λ f, file_folder f = Some (folder_id g)) (files w))
      by by apply list_elem_of_filter.
    rewrite Hfiles in Hmem. by apply elem_of_nil in Hmem. }
  assert (Hnosub : ∀ h, h ∈ folders w → parent_folder h ≠ Some (folder_id g)).
  { intros h Hh Hin.
    assert (Hmem : h ∈ filter (λ h, parent_folder h = Some (folder_id g)) (folders w))
      by by apply list_elem_of_filter.
    rewrite Hsubs in Hmem. by apply elem_of_nil in Hmem. }
  unfold delete_folder_row. rewrite Hfiles. simpl.
  split; [done|]. split; [done|]. split; [done|]. split; [done|]. intros _.
  split; [by exists g|]. split; [done|]. split; [done|]. split; [|done].
  rewrite <- (map_id (filter (λ h, folder_id h ≠ folder_id g) (folders w))) at 2.
  apply map_ext_elem. intros h Hh. apply list_elem_of_filter in Hh as [_ Hh].
  rewrite decide_False; [done|]. by apply Hnosub.
Qed.

Lemma move_to_trash_flags (u : UserId) (now : Time) (w : World) (f : File) :
  NoDup (map file_id (files w)) → f ∈ files w → file_owner f = u →
  move_to_trash POST u (file_id f) now w
  = (Success,
     save_file (with_file_is_deleted true f)
       (create_trash now u (Some (file_id f)) None (file_folder f) (now + thirty_days) w)).
Proof.
  intros Hnd Hf Hu. unfold move_to_trash, try_except, mbind, M_bind, bind, query, modify, ret.
  assert (get_object_or_404 (λ x, bool_decide (file_id x = file_id f ∧ file_owner x = u))
            (files w) = Ok f) as ->; [|done].
  apply objects_get_Ok. apply (filter_unique _ file_id); try done.
  - by apply bool_decide_eq_true.
  - intros y Hy. apply bool_decide_eq_true in Hy. tauto.
Qed.

(** X5. A folder whose only content is in the trash cannot be deleted:
    after a file of the folder is moved to the trash, delete_folder still
    answers that the folder is not empty and changes nothing. *)
Theorem delete_folder_counts_trashed_files (u : UserId) (now : Time) (w : World)
    (f : File) (g : Folder) :
  NoDup (map file_id (files w)) → NoDup (map folder_id (folders w)) →
  f ∈ files w → file_owner f = u → file_folder f = Some (folder_id g) →
  g ∈ folders w → folder_owner g = u →
  let w1 := (move_to_trash POST u (file_id f) now w).2 in
  file_is_deleted <$> filter (λ x, file_id x = file_id f) (files w1) = [true]
  ∧ delete_folder POST u (folder_id g) w1 = (FolderNotEmpty, w1).
Proof.
  intros Hfiles Hfolders Hf Hfu Hin Hg Hgu w1. subst w1.
  rewrite move_to_trash_flags by done. simpl.
  set (h := λ r, if decide (file_id r = file_id f) then with_file_is_deleted true f else r).
  assert (Hrow : with_file_is_deleted true f ∈ map h (files w)).
  { apply list_elem_of_fmap. exists f. split; [|done]. unfold h. by rewrite decide_True. }
  split.
  - rewrite (filter_unique _ file_id (map h (files w)) (with_file_is_deleted true f));
      try done.
    by rewrite (map_key_preserved file_id h) by (intros x; unfold h; case_decide as Hx; by rewrite ?Hx).
  - unfold delete_folder. simpl.
    assert (get_object_or_404 (λ x, bool_decide (folder_id x = folder_id g ∧ folder_owner x = u))
              (folders w) = Ok g) as ->.
    { apply objects_get_Ok. apply (filter_unique _ folder_id); try done.
      - by apply bool_decide_eq_true.
      - intros y Hy. apply bool_decide_eq_true in Hy. tauto. }
    rewrite (bool_decide_eq_false_2 (filter _ (map h (files w)) = [])); [done|].
    intros Hnil.
    assert (Hmem : with_file_is_deleted true f
                   ∈ filter (λ x, file_folder x = Some (folder_id g)) (map h (files w)))
      by by apply list_elem_of_filter.
    rewrite Hnil in Hmem. by apply elem_of_nil in Hmem.
Qed.

Lemma delete_folder_counts_trashed_files_witness :
  let w1 := (move_to_trash POST 1%nat 4%nat 1000 Tree.flat).2 in
  delete_folder POST 1%nat 20%nat w1 = (FolderNotEmpty, w1).
Proof.
  apply (delete_folder_counts_trashed_files 1%nat 1000 Tree.flat
           (Tree.file 4%nat "n" 300 (Some 20%nat) false)
           (Tree.folder 20%nat "docs" None false)).
  - apply (bool_decide_unpack _). by vm_compute.
  - apply (bool_decide_unpack _). by vm_compute.
  - left.
  - reflexivity.
  - reflexivity.
  - left.
  - reflexivity.
Defined.

(** ** restore_all_files *)

Lemma filter_ext_elem {A} (P Q : A → Prop) `{!∀ x, Decision (P x)} `{!∀ x, Decision (Q x)}
    (l : list A) :
  (∀ x, x ∈ l → P x ↔ Q x) → filter P l = filter Q l.
Proof.
  induction l as [|a l IH]; intros Hl; [done|]. rewrite !filter_cons.
  rewrite IH by (intros x Hx; apply Hl; by right).
  destruct (decide (P a)) as [Ha|Ha], (decide (Q a)) as [Hb|Hb]; try done.
  - exfalso. apply Hb, Hl; [left|done].
  - exfalso. apply Ha, Hl; [left|done].
Qed.

Lemma trash_item_file_found (t : Trash) (f : File) (w : World) :
  NoDup (map file_id (files w)) → f ∈ files w → trash_file t = Some (file_id f) →
  trash_item_file t w = (Ok (Some f), w).
Proof.
  intros Hnd Hf Ht. unfold trash_item_file. rewrite Ht. unfold query.
  assert (objects_get DoesNotExist (λ x, bool_decide (file_id x = file_id f)) (files w)
          = Ok f) as ->; [|done].
  apply objects_get_Ok. apply (filter_unique _ file_id); try done.
  - by apply bool_decide_eq_true.
  - intros y Hy. by apply bool_decide_eq_true in Hy.
Qed.

Lemma restore_all_loop_eq (items : list Trash) :
  ∀ (w : World) (c : nat),
    NoDup (map file_id (files w)) →
    (∀ t fid, t ∈ items → trash_file t = Some fid → fid ∈ map file_id (files w)) →
    restore_all_loop items c w
    = (Ok (c + length (omap trash_file items))%nat,
       {| profiles := profiles w; folders := folders w;
          files := unflag_files (omap trash_file items) (files w);
          trash := filter (λ t, trash_id t
                                ∉ map trash_id (filter (λ t, trash_file t ≠ None) items))
                          (trash w);
          share_links := share_links w; trash_seq := trash_seq w; blobs := blobs w |}).
Proof.
  induction items as [|t items IH]; intros w c Hnd Hint.
  - simpl. unfold ret. f_equal; [f_equal; lia|]. destruct w. simpl. f_equal.
    + unfold unflag_files. rewrite <- (map_id files0) at 1. apply map_ext_elem.
      intros r _. rewrite bool_decide_eq_false_2; [done|]. apply not_elem_of_nil.
    + symmetry. apply filter_all. intros x _. apply not_elem_of_nil.
  - simpl. unfold bind at 1. unfold restore_all_item, mbind, M_bind, bind.
    destruct (trash_file t) as [fid|] eqn:Ht.
    + assert (Hfid : fid ∈ map file_id (files w)) by (apply (Hint t); [left|done]).
      apply list_elem_of_fmap in Hfid as (f & -> & Hf).
      rewrite (trash_item_file_found t f w Hnd Hf Ht). unfold modify, ret.
      set (w1 := delete_trash_row (trash_id t) (save_file (with_file_is_deleted false f) w)).
      rewrite (IH w1).
      * f_equal; [f_equal; simpl length; by rewrite Nat.add_succ_r|]. simpl. f_equal.
        -- unfold unflag_files. rewrite map_map. apply map_ext_elem. intros r Hr. simpl.
           case_decide as Hkey.
           ++ rewrite (key_inj_on file_id (files w) r f) by done.
              rewrite (bool_decide_eq_true_2 (file_id f ∈ file_id f :: _)) by left.
              simpl. by case_bool_decide.
           ++ case_bool_decide as Hin; case_bool_decide as Hin'; try done.
              { exfalso. apply Hin'. by right. }
              { exfalso. apply elem_of_cons in Hin' as [?|?]; done. }
        -- rewrite filter_cons_True by (by rewrite Ht). simpl. rewrite list_filter_filter.
           apply list_filter_iff. intros x. rewrite not_elem_of_cons. tauto.
      * change (NoDup (map file_id (map (λ r, if decide (file_id r
                    = file_id (with_file_is_deleted false f))
                  then with_file_is_deleted false f else r) (files w)))).
        by rewrite saved_keys.
      * intros t' fid' Ht' Hfid'.
        change (fid' ∈ map file_id (map (λ r, if decide (file_id r
                    = file_id (with_file_is_deleted false f))
                  then with_file_is_deleted false f else r) (files w))).
        rewrite saved_keys. apply (Hint t'); [by right|done].
    + unfold trash_item_file. rewrite Ht. unfold ret. simpl.
      rewrite (IH w c Hnd); [|intros t' fid' Ht'; apply Hint; by right].
      by rewrite filter_cons_False by (intros H; by apply H).
Qed.

Lemma newest_first_perm (ts : list Trash) : newest_first ts ≡ₚ ts.
Proof. apply merge_sort_Permutation. Qed.

Lemma trash_of_elem (u : UserId) (w : World) (t : Trash) :
  t ∈ trash_of u w ↔ t ∈ trash w ∧ trash_user t = u.
Proof.
  unfold trash_of. rewrite newest_first_perm, list_elem_of_filter. tauto.
Qed.

Lemma unflag_files_elem (fids fids' : list FileId) (fs : list File) :
  (∀ i, i ∈ fids ↔ i ∈ fids') → unflag_files fids fs = unflag_files fids' fs.
Proof.
  intros Hsame. unfold unflag_files. apply map_ext_elem. intros r _.
  case_bool_decide as Hin; case_bool_decide as Hin'; try done; exfalso.
  - by apply Hin', Hsame.
  - by apply Hin, Hsame.
Qed.

(** X6. restore_all_files takes every file named by a Trash row of the
    user out of the trash and deletes those rows; it counts one per row.
    It never touches a folder: a trashed folder stays trashed and keeps
    its Trash row while the files inside it are restored. *)
Theorem restore_all_files_restores_files_only (u : UserId) (w : World) :
  NoDup (map file_id (files w)) → NoDup (map trash_id (trash w)) →
  (∀ t fid, t ∈ trash w → trash_user t = u → trash_file t = Some fid →
            fid ∈ map file_id (files w)) →
  ∃ w',
    restore_all_files POST u w
    = (Restored (length (filter (λ t, trash_user t = u ∧ trash_file t ≠ None) (trash w))), w')
    ∧ files w'
      = unflag_files (omap trash_file (filter (λ t, trash_user t = u) (trash w))) (files w)
    ∧ trash w' = filter (λ t, ¬ (trash_user t = u ∧ trash_file t ≠ None)) (trash w)
    ∧ folders w' = folders w ∧ profiles w' = profiles w ∧ blobs w' = blobs w.
Proof.
  intros Hfiles Htrash Hint. unfold restore_all_files.
  rewrite restore_all_loop_eq; [|done|].
  - assert (Hcount : (0 + length (omap trash_file (trash_of u w)))%nat
                     = length (filter (λ t, trash_user t = u ∧ trash_file t ≠ None) (trash w))).
    { unfold trash_of. rewrite newest_first_perm.
      simpl. generalize (trash w). intros ts. induction ts as [|t ts IH]; [done|].
      rewrite !filter_cons. destruct (decide (trash_user t = u)) as [Hu|Hu].
      - simpl. destruct (trash_file t) eqn:Ht.
        + rewrite decide_True by done. simpl. f_equal. exact IH.
        + rewrite decide_False by tauto. exact IH.
      - rewrite decide_False by tauto. exact IH. }
    rewrite Hcount. eexists. split; [reflexivity|]. simpl.
    split; [|split; [|done]].
    + apply unflag_files_elem. intros i. unfold trash_of. by rewrite newest_first_perm.
    + apply filter_ext_elem. intros t Ht.
      assert (Hsame : trash_id t ∈ map trash_id (filter (λ t, trash_file t ≠ None)
                                                       (trash_of u w))
                      ↔ trash_id t ∈ map trash_id (filter (λ t, trash_file t ≠ None)
                           (filter (λ t, trash_user t = u) (trash w)))).
      { unfold trash_of. by rewrite newest_first_perm. }
      rewrite Hsame, list_filter_filter.
      rewrite (elem_of_filter_key trash_id _ (trash w) t Htrash Ht). tauto.
  - intros t fid Ht. apply trash_of_elem in Ht as [Ht Hu]. by apply Hint.
Qed.

Lemma restore_all_files_restores_files_only_witness :
  (restore_all_files POST 1%nat Tree.nested_b_trashed).1 = Restored 1
  ∧ map folder_is_deleted (folders (restore_all_files POST 1%nat Tree.nested_b_trashed).2)
    = [false; true]
  ∧ map file_is_deleted (files (restore_all_files POST 1%nat Tree.nested_b_trashed).2)
    = [false].
Proof.
  destruct (restore_all_files_restores_files_only 1%nat Tree.nested_b_trashed)
    as (w' & Hr & Hfiles & _ & Hfolders & _).
  - apply (bool_decide_unpack _). by vm_compute.
  - apply (bool_decide_unpack _). by vm_compute.
  - intros t fid Ht _ Hfid. apply list_elem_of_In in Ht. vm_compute in Ht.
    destruct Ht as [<-|[<-|[]]]; [discriminate|]. injection Hfid as <-. vm_compute. left.
  - rewrite Hr. simpl. rewrite Hfolders, Hfiles. repeat split.
Defined.

(** ** Share links from creation to access *)

Lemma insert_last {A} (l : list A) (x y : A) : <[length l := x]> (l ++ [y]) = l ++ [x].
Proof. rewrite insert_app_r_alt by lia. by rewrite Nat.sub_diag. Qed.

Lemma requested_expiry_cases (max_digits : option nat) (form : ShareForm) (now : Time)
    (expires : option Time) :
  requested_expiry max_digits form now = inr expires →
  match expires with
  | None => ∀ s, form_expires_in form = Some s → isdigit s = false
  | Some e => ∃ s days, form_expires_in form = Some s ∧ isdigit s = true
                        ∧ int_digits 0 s = Some days
                        ∧ e = now + days * 86400 ∧ e ≤ datetime_max
  end.
Proof.
  unfold requested_expiry. destruct (form_expires_in form) as [s|]; [|by intros [= <-]].
  destruct (isdigit s) eqn:Hdigit.
  - assert (bool_decide (s = "") = false) as ->.
    { unfold isdigit in Hdigit. by destruct (bool_decide (s = "")). }
    simpl. destruct (int max_digits s) as [e|days] eqn:Hint; [done|].
    repeat case_decide; try done. intros [= <-]. exists s, days.
    repeat split; try done; [|lia].
    unfold int in Hint. destruct max_digits as [n|]; [case_decide; [done|]|];
      (destruct (int_digits 0 s) as [d|]; simpl in Hint; [by injection Hint as <-|done]).
  - rewrite andb_false_r. intros [= <-]. intros s' [= <-]. done.
Qed.

Lemma created_link_found (folder_only : bool) (l : ShareLink) (w w' : World) :
  share_links w' = share_links w ++ [l] →
  (∀ l', l' ∈ share_links w → token l' ≠ token l) →
  is_active l = true → (folder_only = true → share_folder_ref l ≠ None) →
  active_link folder_only (token l) w' = Ok l.
Proof.
  intros Hlinks Hfresh Hactive Hfolder. unfold active_link. apply objects_get_Ok.
  rewrite Hlinks, filter_app, filter_none, filter_cons_True; [done| |].
  - by apply bool_decide_eq_true.
  - intros l' Hl' Hkey. apply bool_decide_eq_true in Hkey as [Htok _].
    by apply (Hfresh l').
Qed.

(** X7. A link made by create_share_link without an effective password
    serves the file to every holder of the URL, whatever the session,
    until the requested time and never after; a password that is blank
    after strip(), or a checkbox that is not 'on', gives such a link.
    The link expires only when expires_in consists of digits: any other
    text gives a link that never expires. *)
Theorem created_link_serves_until_expiry
    (hashers_make_password : string → string → string)
    (generate_presigned_url : string → string) (int_max_str_digits : option nat)
    (u : UserId) (w : World) (f : File)
    (form : ShareForm) (tok salt : string) (now : Time) (expires : option Time) :
  NoDup (map file_id (files w)) → f ∈ files w → file_owner f = u →
  (∀ l, l ∈ share_links w → token l ≠ tok) →
  requested_expiry int_max_str_digits form now = inr expires →
  form_enable_password form ≠ Some "on" ∨ strip (default "" (form_password form)) = "" →
  let r := create_share_link hashers_make_password int_max_str_digits POST u (file_id f)
             form tok salt now w in
  r.1 = ShareUrl ("/share/" +:+ tok +:+ "/") expires false
  ∧ (∀ t session,
       share_file generate_presigned_url tok t session r.2
       = (if match expires with Some e => bool_decide (e < t) | None => false end
          then ShareExpired
          else ShareFile f (generate_presigned_url (actual_key (file_file f) w)),
          r.2, session))
  ∧ match expires with
    | None => ∀ s, form_expires_in form = Some s → isdigit s = false
    | Some e => ∃ s days, form_expires_in form = Some s ∧ isdigit s = true
                          ∧ int_digits 0 s = Some days
                          ∧ e = now + days * 86400 ∧ e ≤ datetime_max
    end.
Proof.
  intros Hnd Hf Hu Hfresh Hexpiry Hnopw r. subst r. unfold create_share_link.
  assert (get_object_or_404 (λ x, bool_decide (file_id x = file_id f ∧ file_owner x = u))
            (files w) = Ok f) as ->.
  { apply objects_get_Ok. apply (filter_unique _ file_id); try done.
    - by apply bool_decide_eq_true.
    - intros y Hy. apply bool_decide_eq_true in Hy. tauto. }
  unfold create_link. rewrite Hexpiry.
  assert (bool_decide (form_enable_password form = Some "on")
          && negb (bool_decide (strip (default "" (form_password form)) = "")) = false) as ->.
  { destruct Hnopw as [Hoff|Hblank].
    - by rewrite (bool_decide_eq_false_2 _ Hoff).
    - rewrite (bool_decide_eq_true_2 _ Hblank). apply andb_false_r. }
  set (l := with_password false None
              (with_expires_at expires (new_share_link (Some (file_id f)) None tok))).
  set (w2 := set_share_links _ _).
  assert (Hlinks : share_links w2 = share_links w ++ [l]) by apply insert_last.
  cbn [fst snd].
  split; [done|]. split; [|by apply (requested_expiry_cases int_max_str_digits form now)].
  intros t session. unfold share_file.
  assert (Hactive : active_link false tok w2 = Ok l)
    by by apply (created_link_found false l w w2).
  rewrite Hactive. unfold expired. simpl. destruct (match expires with Some e => _ | None => _ end); [done|].
  assert (objects_get DoesNotExist (λ x, bool_decide (file_id x = file_id f)) (files w)
          = Ok f) as ->; [|done].
  apply objects_get_Ok. apply (filter_unique _ file_id); try done.
  - by apply bool_decide_eq_true.
  - intros y Hy. by apply bool_decide_eq_true in Hy.
Qed.

(** X8. A link made with the checkbox 'on' and a password that is not
    blank is protected by the stripped password: an unverified session
    gets the password page, verify_share_password accepts the stripped
    password and marks the session, and the marked session gets the
    file. *)
Theorem created_link_password_round_trip
    (hashers_make_password : string → string → string)
    (hashers_check_password : string → string → bool)
    (generate_presigned_url : string → string) (int_max_str_digits : option nat)
    (u : UserId) (w : World) (f : File)
    (form : ShareForm) (tok salt : string) (now : Time) (expires : option Time)
    (session : Session) :
  NoDup (map file_id (files w)) → f ∈ files w → file_owner f = u →
  (∀ l, l ∈ share_links w → token l ≠ tok) →
  requested_expiry int_max_str_digits form now = inr expires →
  form_enable_password form = Some "on" →
  let password := strip (default "" (form_password form)) in
  password ≠ "" →
  hashers_make_password salt password ≠ "" →
  hashers_check_password password (hashers_make_password salt password) = true →
  session !! share_verified_key tok = None →
  let r := create_share_link hashers_make_password int_max_str_digits POST u (file_id f)
             form tok salt now w in
  let verified := <[ share_verified_key tok := true ]> session in
  r.1 = ShareUrl ("/share/" +:+ tok +:+ "/") expires true
  ∧ verify_share_password hashers_check_password POST tok (Some password) session r.2
    = (VerifyOk, r.2, verified)
  ∧ ∀ t, match expires with Some e => bool_decide (e < t) | None => false end = false →
         share_file generate_presigned_url tok t session r.2 = (SharePassword, r.2, session)
         ∧ share_file generate_presigned_url tok t verified r.2
           = (ShareFile f (generate_presigned_url (actual_key (file_file f) w)),
              r.2, verified).
Proof.
  intros Hnd Hf Hu Hfresh Hexpiry Hon password Hpw Hhash Hcheck Hsession r verified.
  subst r. unfold create_share_link.
  assert (get_object_or_404 (λ x, bool_decide (file_id x = file_id f ∧ file_owner x = u))
            (files w) = Ok f) as ->.
  { apply objects_get_Ok. apply (filter_unique _ file_id); try done.
    - by apply bool_decide_eq_true.
    - intros y Hy. apply bool_decide_eq_true in Hy. tauto. }
  unfold create_link. rewrite Hexpiry. fold password.
  rewrite (bool_decide_eq_true_2 _ Hon), (bool_decide_eq_false_2 _ Hpw).
  cbn [andb negb].
  set (l := with_password true (Some (hashers_make_password salt password))
              (with_expires_at expires (new_share_link (Some (file_id f)) None tok))).
  set (w2 := set_share_links _ _).
  assert (Hlinks : share_links w2 = share_links w ++ [l]) by apply insert_last.
  assert (Hactive : active_link false tok w2 = Ok l)
    by by apply (created_link_found false l w w2).
  assert (Hprotected : has_password l = true).
  { unfold has_password, truthy. simpl. by rewrite (bool_decide_eq_false_2 _ Hhash). }
  cbn [fst snd]. split; [by rewrite Hprotected|]. split.
  - unfold verify_share_password. rewrite Hactive, Hprotected. simpl.
    rewrite (bool_decide_eq_false_2 _ Hpw). simpl.
    unfold check_password, truthy. simpl.
    by rewrite (bool_decide_eq_false_2 _ Hhash), Hcheck.
  - intros t Hlive. unfold share_file. rewrite Hactive, Hprotected.
    unfold expired. cbn [expires_at l with_password with_expires_at]. rewrite Hlive.
    unfold session_get, verified, Session in *.
    rewrite Hsession, (lookup_insert_eq session). simpl.
    split; [done|].
    assert (objects_get DoesNotExist (λ x, bool_decide (file_id x = file_id f)) (files w)
            = Ok f) as ->; [|done].
    apply objects_get_Ok. apply (filter_unique _ file_id); try done.
    + by apply bool_decide_eq_true.
    + intros y Hy. by apply bool_decide_eq_true in Hy.
Qed.

Lemma created_link_serves_until_expiry_witness :
  (create_share_link LinkScenario.make (Some 4300%nat) POST 1%nat 5%nat LinkScenario.blank
     "tok-new" "salt" 1000 ShareScenario.w).1
  = ShareUrl "/share/tok-new/" (Some 605800) false.
Proof.
  destruct (created_link_serves_until_expiry LinkScenario.make ShareScenario.presign
              (Some 4300%nat) 1%nat ShareScenario.w ShareScenario.report LinkScenario.blank
              "tok-new" "salt" 1000 (Some 605800)) as (Hurl & _).
  - apply (bool_decide_unpack _). by vm_compute.
  - left.
  - reflexivity.
  - intros l Hl. apply list_elem_of_In in Hl. simpl in Hl.
    destruct Hl as [<-|[<-|[]]]; discriminate.
  - reflexivity.
  - right. reflexivity.
  - exact Hurl.
Defined.

Lemma created_link_password_round_trip_witness :
  verify_share_password ShareScenario.check POST "tok-new" (Some "secret") ∅
    (create_share_link LinkScenario.make (Some 4300%nat) POST 1%nat 5%nat
       LinkScenario.secret "tok-new" "salt" 1000 ShareScenario.w).2
  = (VerifyOk,
     (create_share_link LinkScenario.make (Some 4300%nat) POST 1%nat 5%nat
        LinkScenario.secret "tok-new" "salt" 1000 ShareScenario.w).2,
     <[ share_verified_key "tok-new" := true ]> ∅).
Proof.
  destruct (created_link_password_round_trip LinkScenario.make ShareScenario.check
              ShareScenario.presign (Some 4300%nat) 1%nat ShareScenario.w
              ShareScenario.report LinkScenario.secret "tok-new" "salt" 1000 (Some 605800) ∅)
    as (_ & Hverify & _).
  - apply (bool_decide_unpack _). by vm_compute.
  - left.
  - reflexivity.
  - intros l Hl. apply list_elem_of_In in Hl. simpl in Hl.
    destruct Hl as [<-|[<-|[]]]; discriminate.
  - reflexivity.
  - reflexivity.
  - discriminate.
  - discriminate.
  - reflexivity.
  - reflexivity.
  - exact Hverify.
Defined.

(** ** Share links and the trash *)

Lemma objects_get_map {A} (missing : Exception) (p : A → bool) (h : A → A) (l : list A) :
  (∀ x, p (h x) = p x) →
  objects_get missing p (map h l)
  = match objects_get missing p l with Ok x => Ok (h x) | Raise e => Raise e end.
Proof.
  intros Hp. unfold objects_get.
  rewrite (filter_map_stable (λ x, p x = true) h l) by (intros x; by rewrite Hp).
  by destruct (filter _ l) as [|x [|y r]].
Qed.

(** X9. Moving a file to the trash revokes nothing: every share link
    answers as before, the page of the trashed file differing only in the
    flag of the row it shows, and the owner's download of the file still
    gives the same URL. *)
Theorem trash_keeps_links_and_downloads (generate_presigned_url : string → string)
    (u : UserId) (now : Time) (w : World) (f : File) :
  NoDup (map file_id (files w)) → f ∈ files w → file_owner f = u →
  let w1 := (move_to_trash POST u (file_id f) now w).2 in
  let flag := λ r, if decide (file_id r = file_id f) then with_file_is_deleted true r else r in
  (∀ tok t session,
     share_file generate_presigned_url tok t session w1
     = (page_map flag (share_file generate_presigned_url tok t session w).1.1, w1, session))
  ∧ (∀ xhr, download_file generate_presigned_url xhr u (file_id f) w1
            = download_file generate_presigned_url xhr u (file_id f) w
            ∧ ∀ e, download_file generate_presigned_url xhr u (file_id f) w1
                   ≠ FileDownloadFailed e).
Proof.
  intros Hnd Hf Hu w1 flag. subst w1. rewrite move_to_trash_flags by done.
  cbn [snd].
  set (w1 := save_file _ _).
  assert (Hfiles : files w1 = map flag (files w)).
  { simpl. apply map_ext_elem. intros r Hr. unfold flag. case_decide as Hkey; [|done].
    by rewrite (key_inj_on file_id (files w) r f). }
  assert (Hflag_id : ∀ x, file_id (flag x) = file_id x).
  { intros x. unfold flag. by case_decide. }
  assert (Hflag_owner : ∀ x, file_owner (flag x) = file_owner x).
  { intros x. unfold flag. by case_decide. }
  assert (Hflag_key : ∀ x, file_file (flag x) = file_file x).
  { intros x. unfold flag. by case_decide. }
  assert (Hflag_name : ∀ x, file_name (flag x) = file_name x).
  { intros x. unfold flag. by case_decide. }
  split.
  - intros tok t session. unfold share_file.
    change (active_link false tok w1) with (active_link false tok w).
    destruct (active_link false tok w) as [l|[]]; try done.
    destruct (expired l t); [done|]. destruct (_ && _); [done|].
    destruct (share_file_ref l) as [fid|]; [|done].
    rewrite Hfiles, objects_get_map by (intros x; by rewrite Hflag_id).
    destruct (objects_get _ _ (files w)) as [g|e]; [|done]. simpl.
    unfold actual_key. by rewrite Hflag_key.
  - intros xhr. unfold download_file. unfold get_object_or_404.
    rewrite Hfiles, objects_get_map by (intros x; by rewrite Hflag_id, Hflag_owner).
    assert (objects_get Http404 (λ x, bool_decide (file_id x = file_id f ∧ file_owner x = u))
              (files w) = Ok f) as ->.
    { apply objects_get_Ok. apply (filter_unique _ file_id); try done.
      - by apply bool_decide_eq_true.
      - intros y Hy. apply bool_decide_eq_true in Hy. tauto. }
    unfold actual_key. rewrite Hflag_key, Hflag_name. simpl.
    split; [done|]. intros e. by destruct xhr.
Qed.

Lemma trash_keeps_links_and_downloads_witness :
  let w1 := (move_to_trash POST 1%nat 5%nat 50 ShareScenario.w).2 in
  share_file ShareScenario.presign "tok-stale" 60 ∅ w1
  = (ShareFile (with_file_is_deleted true ShareScenario.report)
       "https://store/user_1/report.pdf", w1, ∅).
Proof.
  intros w1.
  destruct (trash_keeps_links_and_downloads ShareScenario.presign 1%nat 50 ShareScenario.w
              ShareScenario.report) as [Hshare _].
  - apply (bool_decide_unpack _). by vm_compute.
  - left.
  - reflexivity.
  - exact (Hshare "tok-stale" 60 ∅).
Defined.

Lemma filter_filter_out {A} (P Q : A → Prop) `{!∀ x, Decision (P x)} `{!∀ x, Decision (Q x)}
    (l : list A) (x : A) :
  filter P l = [x] → ¬ Q x → filter P (filter Q l) = [].
Proof.
  intros Hone Hx. apply filter_none. intros y Hy HP.
  apply list_elem_of_filter in Hy as [HQ Hy].
  assert (Hin : y ∈ filter P l) by by apply list_elem_of_filter.
  rewrite Hone in Hin. apply list_elem_of_singleton in Hin as ->. done.
Qed.

(** X10. Permanent deletion revokes: after a successful purge of a file
    no share link refers to it, and the token of a link that led to the
    file is answered as not found. *)
Theorem purge_revokes_share_links (generate_presigned_url : string → string)
    (u : UserId) (fid : FileId) (w w' : World) :
  permanent_delete_file no_faults POST u fid w = (Success, w') →
  share_links w' = filter (λ l, share_file_ref l ≠ Some fid) (share_links w)
  ∧ (∀ f, f ∈ files w' → file_id f ≠ fid)
  ∧ ∀ tok l, active_link false tok w = Ok l → share_file_ref l = Some fid →
             ∀ t session,
               share_file generate_presigned_url tok t session w'
               = (ShareNotFound, w', session).
Proof.
  intros Hpurge.
  assert (Hw' : ∃ p f t,
            w' = delete_file_row fid
                   (delete_trash_row (trash_id t)
                      (storage_delete (file_file f)
                         (save_profile (with_used_storage (used_storage p - size f) p) w)))).
  { revert Hpurge. unfold permanent_delete_file, try_except.
    unfold mbind, M_bind, bind, query, ret, perform, no_faults.
    destruct (get_object_or_404 _ (files w)) as [f|e] eqn:Hfile; [|done].
    destruct (get_object_or_404 _ (trash w)) as [t|e] eqn:Htrash; [|done].
    destruct (profile_of u w) as [p|e] eqn:Hprofile; [|done].
    apply objects_get_elem in Hfile as [_ Hkey].
    apply bool_decide_eq_true in Hkey as [<- _].
    intros [= <-]. by exists p, f, t. }
  destruct Hw' as (p & f & t & ->). split; [done|]. split.
  - intros g Hg. simpl in Hg. by apply list_elem_of_filter in Hg as [Hne _].
  - intros tok l Hactive Href time session. unfold share_file, active_link.
    unfold get_object_or_404, objects_get. cbn [share_links delete_file_row set_files set_trash
      set_share_links delete_trash_row storage_delete set_blobs save_profile set_profiles].
    apply objects_get_Ok in Hactive.
    rewrite (filter_filter_out _ _ (share_links w) l Hactive); [done|].
    intros Hne. by apply Hne.
Qed.

Lemma purge_revokes_share_links_witness :
  let w' := (permanent_delete_file no_faults POST 1%nat 1%nat RevokeScenario.w).2 in
  share_file ShareScenario.presign "tok-f1" 0 ∅ RevokeScenario.w
  = (ShareFile PurgeScenario.file_obj "https://store/user_1/f1", RevokeScenario.w, ∅)
  ∧ share_file ShareScenario.presign "tok-f1" 0 ∅ w' = (ShareNotFound, w', ∅).
Proof.
  intros w'. split; [reflexivity|].
  destruct (purge_revokes_share_links ShareScenario.presign 1%nat 1%nat RevokeScenario.w w')
    as (_ & _ & Hgone).
  - reflexivity.
  - exact (Hgone "tok-f1" RevokeScenario.link eq_refl eq_refl 0 ∅).
Defined.

(** ** The files of a shared folder *)

Lemma children_live (w : World) (p : FolderId) :
  filter (λ g, parent_folder g = Some p ∧ folder_is_deleted g = false) (folders w)
  = children live w p.
Proof.
  unfold children. apply filter_ext_elem. intros g _. by rewrite live_spec.
Qed.

Lemma get_all_files_fold (sub : Folder → option (list Folder))
    (get : FolderId → option FileQuerySet) (cs : list Folder) :
  ∀ L acc,
    forest sub cs = Some L →
    (∀ c below, c ∈ cs → sub c = Some below →
       ∃ q, get (folder_id c) = Some q
            ∧ ∀ f, q f = true ↔ file_is_deleted f = false
                              ∧ lies_in (folder_id c :: map folder_id below) f = true) →
    ∃ q, foldl (λ acc subfolder,
                  files ← acc; more ← get (folder_id subfolder);
                  Some (queryset_or files more))
               (Some acc) cs = Some q
         ∧ ∀ f, q f = true ↔ acc f = true
                           ∨ (file_is_deleted f = false
                              ∧ lies_in (map folder_id L) f = true).
Proof.
  induction cs as [|c cs IH]; intros L acc Hforest Hget.
  - simpl in Hforest. injection Hforest as <-. exists acc. split; [done|].
    intros f. rewrite fmap_nil. assert (lies_in [] f = false) as ->.
    { unfold lies_in. destruct (file_folder f); [|done].
      apply bool_decide_eq_false. apply not_elem_of_nil. }
    split; [by left|]. by intros [?|[_ ?]].
  - apply forest_cons in Hforest as (below & others & Hc & Hrest & ->).
    destruct (Hget c below) as (qc & Hqc & Hspec); [by left|done|].
    simpl. rewrite Hqc. simpl.
    destruct (IH others (queryset_or acc qc) Hrest) as (q & Hq & Hrows).
    { intros c' b Hc'. apply Hget. by right. }
    exists q. split; [exact Hq|]. intros f. rewrite Hrows. unfold queryset_or.
    rewrite orb_true_iff, Hspec.
    rewrite fmap_app, app_comm_cons, lies_in_app, orb_true_iff. tauto.
Qed.

Lemma get_all_files_in_folder_eq (w : World) (fuel : nat) :
  ∀ g below, subtree live fuel w g = Some below →
    ∃ q, get_all_files_in_folder fuel w g = Some q
         ∧ ∀ f, q f = true ↔ file_is_deleted f = false
                           ∧ lies_in (g :: map folder_id below) f = true.
Proof.
  induction fuel as [|k IH]; intros g below Hsub; [done|].
  simpl in Hsub. simpl get_all_files_in_folder. rewrite children_live.
  destruct (get_all_files_fold (λ c, subtree live k w (folder_id c))
              (get_all_files_in_folder k w) _ below
              (λ f, bool_decide (file_folder f = Some g ∧ file_is_deleted f = false)) Hsub)
    as (q & Hq & Hrows).
  { intros c b _ Hb. by apply IH. }
  exists q. split; [exact Hq|]. intros f. rewrite Hrows, bool_decide_eq_true.
  change (g :: map folder_id below) with ([g] ++ map folder_id below).
  rewrite lies_in_app, orb_true_iff, lies_in_singleton. tauto.
Qed.

(** The listing of the live subtree holds exactly the folders reached
    through non-deleted folders. *)
Lemma subtree_closed (sel : Folder → bool) (w : World) (fuel : nat) :
  ∀ p L, subtree sel fuel w p = Some L →
         ∀ h g, h ∈ L → g ∈ children sel w (folder_id h) → g ∈ L.
Proof.
  induction fuel as [|k IH]; intros p L Hsub h g Hh Hg; [done|].
  simpl in Hsub.
  destruct (forest_origin _ _ _ Hsub h Hh) as (c & Hc & Hcase).
  destruct (forest_lookup _ _ _ c Hsub Hc) as (below & Hbelow & _ & Hincl).
  destruct Hcase as [->|(below' & Hbelow' & Hin)].
  - apply Hincl. destruct k as [|k]; [done|]. simpl in Hbelow.
    by apply (forest_elem _ _ _ Hbelow).
  - rewrite Hbelow in Hbelow'. injection Hbelow' as <-.
    apply Hincl. by apply (IH (folder_id c) below Hbelow h g).
Qed.

Lemma subtree_live_below (w : World) (fuel : nat) :
  ∀ p L, subtree live fuel w p = Some L → ∀ g, g ∈ L ↔ live_below w p g.
Proof.
  intros p L Hsub g. split.
  - revert p L Hsub g. induction fuel as [|k IH]; intros p L Hsub; [done|].
    simpl in Hsub. apply (forest_all _ _ _ _ Hsub).
    + intros c Hc. apply list_elem_of_filter in Hc as [[Hp Hlive] Hc].
      apply live_child; try done. by apply live_spec.
    + intros c below Hc Hbelow g Hg.
      apply list_elem_of_filter in Hc as [[Hp Hlive] Hc].
      assert (Hchild : live_below w p c).
      { apply live_child; try done. by apply live_spec. }
      specialize (IH _ _ Hbelow g Hg). clear Hg Hbelow.
      induction IH as [g Hg Hparent Hg_live|g h _ IHh Hg Hparent Hg_live].
      * by apply (live_step w p g c).
      * by apply (live_step w p g h).
  - intros Hlive. induction Hlive as [g Hg Hparent Hg_live|g h _ IHh Hg Hparent Hg_live].
    + destruct fuel as [|k]; [done|]. simpl in Hsub.
      apply (forest_elem _ _ _ Hsub). apply list_elem_of_filter.
      split; [|done]. split; [done|]. by apply live_spec.
    + apply (subtree_closed live w fuel p L Hsub h g IHh). apply list_elem_of_filter.
      split; [|done]. split; [done|]. by apply live_spec.
Qed.

(** X11. The queryset of get_all_files_in_folder, which share_folder
    shows and download_shared_folder packs, selects the non-deleted files
    that lie in the folder itself or in a folder reached from it through
    non-deleted folders.  The files of a subfolder in the trash are left
    out, also those that are not in the trash themselves. *)
Theorem get_all_files_in_folder_lists_live_subtree (rank : FolderId → nat) (fuel : nat)
    (w : World) (root : Folder) :
  NoDup (map folder_id (folders w)) → ranked rank w → (enough_fuel rank w ≤ fuel)%nat →
  root ∈ folders w →
  ∃ q, get_all_files_in_folder fuel w (folder_id root) = Some q
       ∧ (∀ f, q f = true
               ↔ file_is_deleted f = false
                 ∧ ∃ h, file_folder f = Some h
                        ∧ (h = folder_id root
                           ∨ ∃ g, live_below w (folder_id root) g ∧ folder_id g = h))
       ∧ (∀ f g, g ∈ folders w → folder_is_deleted g = true →
                 folder_id g ≠ folder_id root →
                 file_folder f = Some (folder_id g) → q f = false).
Proof.
  intros Hnd Hranked Hfuel Hroot.
  destruct (wellformed_subtree w rank Hnd Hranked root fuel Hroot Hfuel)
    as (whole & Hwhole & _).
  destruct (subtree_select live w fuel _ _ Hwhole) as (below & Hsub & _).
  destruct (get_all_files_in_folder_eq w fuel _ below Hsub) as (q & Hq & Hrows).
  assert (Hspec : ∀ f, q f = true
            ↔ file_is_deleted f = false
              ∧ ∃ h, file_folder f = Some h
                     ∧ (h = folder_id root
                        ∨ ∃ g, live_below w (folder_id root) g ∧ folder_id g = h)).
  { intros f. rewrite Hrows. unfold lies_in. split.
    - intros [Hlive Hin]. split; [done|].
      destruct (file_folder f) as [h|]; [|done]. exists h. split; [done|].
      apply bool_decide_eq_true in Hin. apply elem_of_cons in Hin as [->|Hin]; [by left|].
      right. apply list_elem_of_fmap in Hin as (g & -> & Hg). exists g. split; [|done].
      by apply (subtree_live_below w fuel _ _ Hsub).
    - intros (Hlive & h & -> & Hh). split; [done|]. apply bool_decide_eq_true.
      destruct Hh as [->|(g & Hg & <-)]; [left|right].
      apply list_elem_of_fmap_2. by apply (subtree_live_below w fuel _ _ Hsub). }
  exists q. split; [exact Hq|]. split; [exact Hspec|].
  intros f g Hg Hdeleted Hne Hfolder.
  destruct (q f) eqn:Hqf; [|done]. exfalso.
  apply Hspec in Hqf as (_ & h & Hh & [->|(g' & Hg' & <-)]).
  - congruence.
  - assert (g' = g) as ->.
    { apply (key_inj_on folder_id (folders w)); try done.
      - clear Hdeleted Hne. induction Hg'; done.
      - congruence. }
    assert (folder_is_deleted g = false) by (destruct Hg'; done). congruence.
Qed.

Lemma get_all_files_in_folder_lists_live_subtree_witness :
  ∃ q, get_all_files_in_folder 3 Tree.stale 10%nat = Some q
       ∧ q (Tree.file 1%nat "x" 300 (Some 11%nat) false) = false
       ∧ fetch q Tree.stale = [].
Proof.
  destruct (get_all_files_in_folder_lists_live_subtree (λ i, i - 10)%nat 3 Tree.stale Tree.A)
    as (q & Hq & _ & Hout).
  - apply (bool_decide_unpack _). by vm_compute.
  - intros g p Hg Hp. apply list_elem_of_In in Hg. simpl in Hg.
    destruct Hg as [<-|[<-|[]]]; vm_compute in Hp; [discriminate|].
    injection Hp as <-. vm_compute. lia.
  - vm_compute. lia.
  - left.
  - assert (Hx : q (Tree.file 1%nat "x" 300 (Some 11%nat) false) = false).
    { apply (Hout _ (with_folder_is_deleted true (Some 1000) Tree.B)); try done.
      vm_compute. right. left. }
    exists q. split; [exact Hq|]. split; [exact Hx|]. unfold fetch.
    replace (files Tree.stale) with [Tree.file 1%nat "x" 300 (Some 11%nat) false]
      by (by vm_compute).
    rewrite filter_cons, decide_False; [done|]. by rewrite Hx.
Defined.

(** ** Folder paths *)

Lemma append_assoc (s1 s2 s3 : string) : (s1 +:+ s2) +:+ s3 = s1 +:+ s2 +:+ s3.
Proof.
  induction s1 as [|c s1 IH]; [done|].
  change (String c ((s1 +:+ s2) +:+ s3) = String c (s1 +:+ s2 +:+ s3)). by rewrite IH.
Qed.

Lemma join_snoc (sep : string) (parts : list string) (x : string) :
  parts ≠ [] → join sep (parts ++ [x]) = join sep parts +:+ sep +:+ x.
Proof.
  induction parts as [|p parts IH]; [done|]. intros _.
  destruct parts as [|q parts]; [done|].
  change (p +:+ sep +:+ join sep ((q :: parts) ++ [x])
          = (p +:+ sep +:+ join sep (q :: parts)) +:+ sep +:+ x).
  rewrite IH by done. by rewrite !append_assoc.
Qed.

Lemma parent_of_found (w : World) (g h : Folder) :
  NoDup (map folder_id (folders w)) → h ∈ folders w →
  parent_folder g = Some (folder_id h) → parent_of g w = Ok (Some h).
Proof.
  intros Hnd Hh Hparent. unfold parent_of. rewrite Hparent.
  assert (objects_get DoesNotExist (λ r, bool_decide (folder_id r = folder_id h)) (folders w)
          = Ok h) as ->; [|done].
  apply objects_get_Ok. apply (filter_unique _ folder_id); try done.
  - by apply bool_decide_eq_true.
  - intros y Hy. by apply bool_decide_eq_true in Hy.
Qed.

Lemma chain_in (w : World) (p : FolderId) (g : Folder) (names : list string) :
  chain w p g names → g ∈ folders w ∧ names ≠ [].
Proof. destruct 1; split; try done. by destruct names. Qed.

Lemma chain_rank (rank : FolderId → nat) (w : World) (p : FolderId) (g : Folder)
    (names : list string) :
  ranked rank w → chain w p g names → (rank p + length names ≤ rank (folder_id g))%nat.
Proof.
  intros Hranked. induction 1 as [g Hg Hparent|g h names _ IH Hg Hparent].
  - pose proof (Hranked g p Hg Hparent). simpl. lia.
  - pose proof (Hranked g _ Hg Hparent). rewrite length_app. simpl. lia.
Qed.

Lemma below_chain (w : World) (p : FolderId) (g : Folder) :
  below w p g ↔ ∃ names, chain w p g names.
Proof.
  split.
  - induction 1 as [g Hg Hparent|g h _ [names IH] Hg Hparent].
    + eexists. by apply chain_child.
    + eexists. by apply (chain_step w p g h names).
  - intros [names Hchain]. induction Hchain as [g Hg Hparent|g h names _ IH Hg Hparent].
    + by apply below_child.
    + by apply (below_step w p g h).
Qed.

Section Paths.
Context (w : World) (rank : FolderId → nat) (root : Folder).
Hypothesis unique_keys : NoDup (map folder_id (folders w)).
Hypothesis acyclic : ranked rank w.
Hypothesis root_in : root ∈ folders w.

Lemma relative_path_parts_chain (g : Folder) (names : list string) :
  chain w (folder_id root) g names →
  ∀ fuel acc, (length names < fuel)%nat →
    relative_path_parts fuel w g root acc = Some (Ok (names ++ acc)).
Proof.
  induction 1 as [g Hg Hparent|g h names Hchain IH Hg Hparent]; intros fuel acc Hfuel.
  - pose proof (acyclic g _ Hg Hparent) as Hrank.
    destruct fuel as [|[|k]]; simpl in Hfuel; [lia..|].
    simpl. rewrite decide_False by (intros Heq; rewrite Heq in Hrank; lia).
    rewrite (parent_of_found w g root) by done. by rewrite decide_True.
  - pose proof (chain_rank rank w _ _ _ acyclic Hchain) as Hrank.
    pose proof (acyclic g _ Hg Hparent) as Hstep.
    destruct (chain_in _ _ _ _ Hchain) as [Hh _].
    rewrite length_app in Hfuel. simpl in Hfuel.
    destruct fuel as [|k]; [lia|].
    simpl. rewrite decide_False by (intros Heq; rewrite Heq in Hstep; lia).
    rewrite (parent_of_found w g h) by done.
    rewrite IH by lia. by rewrite <- app_assoc.
Qed.

Lemma get_full_path_mono (fuel : nat) :
  ∀ g r, get_full_path fuel w g = Some r → get_full_path (S fuel) w g = Some r.
Proof.
  induction fuel as [|k IH]; intros g r Hpath; [done|].
  simpl in Hpath. change (get_full_path (S (S k)) w g)
    with (match parent_of g w with
          | Raise e => Some (Raise e)
          | Ok None => Some (Ok (folder_name g))
          | Ok (Some parent) =>
              match get_full_path (S k) w parent with
              | Some (Ok path) => Some (Ok (path +:+ "/" +:+ folder_name g))
              | other => other
              end
          end).
  destruct (parent_of g w) as [[parent|]|e]; try done.
  destruct (get_full_path k w parent) as [r'|] eqn:Hparent; [|done].
  by rewrite (IH parent r' Hparent).
Qed.

Lemma get_full_path_mono_le (fuel fuel' : nat) (g : Folder) (r : Result string) :
  (fuel ≤ fuel')%nat → get_full_path fuel w g = Some r → get_full_path fuel' w g = Some r.
Proof.
  induction 1 as [|fuel' _ IH]; [done|]. intros Hpath. by apply get_full_path_mono, IH.
Qed.

Lemma get_full_path_chain (g : Folder) (names : list string) :
  chain w (folder_id root) g names →
  ∀ fuel path, get_full_path fuel w root = Some (Ok path) →
    get_full_path (fuel + length names) w g
    = Some (Ok (path +:+ "/" +:+ join "/" names)).
Proof.
  induction 1 as [g Hg Hparent|g h names Hchain IH Hg Hparent]; intros fuel path Hroot.
  - simpl length. rewrite Nat.add_1_r. simpl.
    rewrite (parent_of_found w g root) by done. by rewrite Hroot.
  - destruct (chain_in _ _ _ _ Hchain) as [Hh Hnames].
    rewrite length_app. simpl length. rewrite Nat.add_assoc, Nat.add_1_r. simpl.
    rewrite (parent_of_found w g h) by done. rewrite (IH fuel path Hroot).
    by rewrite join_snoc, !append_assoc.
Qed.

Hypothesis integrity : parents_exist w.

Lemma get_full_path_defined (fuel : nat) :
  ∀ g, g ∈ folders w → (rank (folder_id g) < fuel)%nat →
       ∃ path, get_full_path fuel w g = Some (Ok path).
Proof.
  induction fuel as [|k IH]; intros g Hg Hfuel; [lia|]. simpl.
  destruct (parent_folder g) as [pid|] eqn:Hparent.
  - destruct (integrity g pid Hg Hparent) as (h & Hh & <-).
    pose proof (acyclic g _ Hg Hparent) as Hrank.
    rewrite (parent_of_found w g h) by done.
    destruct (IH h Hh) as [path ->]; [lia|]. by eexists.
  - unfold parent_of. rewrite Hparent. by eexists.
Qed.
End Paths.

(** X12. In a folder table with unique keys and no cycle, the two path
    functions agree: for a folder below a root, get_relative_folder_path
    gives the names from the child of the root down to the folder joined
    by '/', without the name of the root, and get_full_path of the folder
    is get_full_path of the root, '/', and that relative path. *)
Theorem full_path_extends_relative_path (rank : FolderId → nat) (fuel : nat) (w : World)
    (root g : Folder) (names : list string) :
  NoDup (map folder_id (folders w)) → ranked rank w → parents_exist w →
  (enough_fuel rank w ≤ fuel)%nat →
  root ∈ folders w → chain w (folder_id root) g names →
  ∃ full_root,
    get_relative_folder_path fuel w g root = Some (Ok (join "/" names))
    ∧ get_full_path fuel w root = Some (Ok full_root)
    ∧ get_full_path fuel w g = Some (Ok (full_root +:+ "/" +:+ join "/" names)).
Proof.
  intros Hnd Hranked Hint Hfuel Hroot Hchain.
  pose proof (chain_rank rank w _ _ _ Hranked Hchain) as Hrank.
  destruct (chain_in _ _ _ _ Hchain) as [Hg _].
  assert (Hmax : (rank (folder_id g) ≤ max_list (map (λ g, rank (folder_id g)) (folders w)))%nat).
  { apply max_list_elem_of_le. by apply (list_elem_of_fmap_2 (λ g, rank (folder_id g))). }
  unfold enough_fuel in Hfuel.
  destruct (get_full_path_defined w rank Hnd Hranked Hint (S (rank (folder_id root))) root)
    as [full_root Hfull]; [done|lia|].
  exists full_root. split; [|split].
  - unfold get_relative_folder_path.
    rewrite (relative_path_parts_chain w rank root Hnd Hranked Hroot g names Hchain) by lia.
    by rewrite app_nil_r.
  - apply (get_full_path_mono_le w (S (rank (folder_id root)))); [lia|done].
  - apply (get_full_path_mono_le w (S (rank (folder_id root)) + length names)); [lia|].
    by apply (get_full_path_chain w root Hnd).
Qed.

Lemma full_path_extends_relative_path_witness :
  get_relative_folder_path 4 Tree.deep Tree.C Tree.A = Some (Ok "B/C")
  ∧ get_full_path 4 Tree.deep Tree.C = Some (Ok "A/B/C").
Proof.
  destruct (full_path_extends_relative_path (λ i, i - 10)%nat 4 Tree.deep Tree.A Tree.C
              ["B"; "C"]) as (full_root & Hrel & Hroot & Hfull).
  - apply (bool_decide_unpack _). by vm_compute.
  - intros g p Hg Hp. apply list_elem_of_In in Hg. simpl in Hg.
    destruct Hg as [<-|[<-|[<-|[]]]]; vm_compute in Hp; [discriminate| |];
      injection Hp as <-; vm_compute; lia.
  - intros g p Hg Hp. apply list_elem_of_In in Hg. simpl in Hg.
    destruct Hg as [<-|[<-|[<-|[]]]]; vm_compute in Hp; [discriminate| |];
      injection Hp as <-.
    + exists Tree.A. split; [left|reflexivity].
    + exists Tree.B. split; [right; left|reflexivity].
  - vm_compute. lia.
  - left.
  - apply (chain_step Tree.deep 10%nat Tree.C Tree.B ["B"]).
    + apply chain_child; [right; left|reflexivity].
    + right. right. left.
    + reflexivity.
  - split; [exact Hrel|]. rewrite Hfull.
    assert (full_root = "A") as ->; [|reflexivity].
    vm_compute in Hroot. by injection Hroot as <-.
Defined.

(** ** download_shared_folder *)

Lemma all_files_eq (w : World) (ids : list FolderId) (q : FileQuerySet) :
  (∀ f, q f = true ↔ file_is_deleted f = false ∧ lies_in ids f = true) →
  fetch q w = files_in false ids w.
Proof.
  intros Hq. unfold fetch, files_in. apply filter_ext_elem. intros f _. apply Hq.
Qed.

Lemma zip_entries_ok (P : File → string → Prop) (fuel : nat) (w : World) (root : Folder)
    (fs : list File) :
  (∀ f, f ∈ fs →
     ∃ path, P f path
             ∧ zip_entry fuel w root f
               = Some (if decide (file_file f ∈ blobs w) then Some (path, file_file f)
                       else None)) →
  ∃ entries,
    zip_entries fuel w root fs = Some entries
    ∧ map snd entries = map file_file (filter (λ f, file_file f ∈ blobs w) fs)
    ∧ ∀ f, f ∈ fs → file_file f ∈ blobs w → ∃ path, P f path ∧ (path, file_file f) ∈ entries.
Proof.
  induction fs as [|f fs IH]; intros Hfs.
  - exists []. repeat split. intros f Hf. by apply elem_of_nil in Hf.
  - destruct IH as (entries & Hrest & Hkeys & Hpaths); [intros x Hx; apply Hfs; by right|].
    destruct (Hfs f) as (path & HP & Hentry); [left|].
    simpl. rewrite Hentry, Hrest. simpl. rewrite filter_cons.
    destruct (decide (file_file f ∈ blobs w)) as [Hblob|Hblob].
    + exists ((path, file_file f) :: entries). split; [done|]. split.
      * simpl. by rewrite Hkeys.
      * intros x [->|Hx]%elem_of_cons Hxblob.
        -- exists path. split; [done|left].
        -- destruct (Hpaths x Hx Hxblob) as (q & Hq & Hin). exists q. split; [done|by right].
    + exists entries. split; [done|]. split; [done|].
      intros x [->|Hx]%elem_of_cons Hxblob; [done|]. by apply Hpaths.
Qed.

(** The path of the entry of a file: its name when it lies in the shared
    folder itself, the names of the folders in between and its name
    otherwise. *)
Lemma zip_entry_path (rank : FolderId → nat) (fuel : nat) (w : World) (root : Folder)
    (inner : list Folder) (f : File) :
  NoDup (map folder_id (folders w)) → ranked rank w → (enough_fuel rank w ≤ fuel)%nat →
  root ∈ folders w → subtree live fuel w (folder_id root) = Some inner →
  f ∈ files_in false (folder_id root :: map folder_id inner) w →
  ∃ path,
    ((file_folder f = Some (folder_id root) → path = file_name f)
     ∧ ∀ g names, chain w (folder_id root) g names → file_folder f = Some (folder_id g) →
                  path = join "/" names +:+ "/" +:+ file_name f)
    ∧ zip_entry fuel w root f
      = Some (if decide (file_file f ∈ blobs w) then Some (path, file_file f) else None).
Proof.
  intros Hnd Hranked Hfuel Hroot Hsub Hf.
  apply list_elem_of_filter in Hf as [[_ Hin] Hf]. unfold lies_in in Hin.
  destruct (file_folder f) as [h|] eqn:Hfolder; [|done].
  apply bool_decide_eq_true in Hin.
  assert (Hrow : ∃ r, r ∈ folders w ∧ folder_id r = h
                      ∧ (r = root ∨ below w (folder_id root) r)).
  { apply elem_of_cons in Hin as [->|Hin]; [exists root; tauto|].
    apply list_elem_of_fmap in Hin as (r & -> & Hr). exists r.
    split; [by apply (subtree_elem live w fuel _ _ Hsub)|]. split; [done|]. right.
    by apply (subtree_below w live fuel _ _ Hsub). }
  destruct Hrow as (r & Hr & <- & Hwhere).
  assert (Hrelated : related_folder f w = Ok (Some r)).
  { unfold related_folder. rewrite Hfolder.
    assert (objects_get DoesNotExist (λ x, bool_decide (folder_id x = folder_id r))
              (folders w) = Ok r) as ->; [|done].
    apply objects_get_Ok. apply (filter_unique _ folder_id); try done.
    - by apply bool_decide_eq_true.
    - intros y Hy. by apply bool_decide_eq_true in Hy. }
  assert (Hmax : ∀ g, g ∈ folders w →
            (rank (folder_id g) ≤ max_list (map (λ g, rank (folder_id g)) (folders w)))%nat).
  { intros g Hg. apply max_list_elem_of_le.
    by apply (list_elem_of_fmap_2 (λ g, rank (folder_id g))). }
  unfold enough_fuel in Hfuel.
  assert (Hfar : ∀ g names, chain w (folder_id root) g names →
            folder_id g ≠ folder_id root
            ∧ get_relative_folder_path fuel w g root = Some (Ok (join "/" names))).
  { intros g names Hchain.
    pose proof (chain_rank rank w _ _ _ Hranked Hchain) as Hrank.
    destruct (chain_in _ _ _ _ Hchain) as [Hg Hnames]. pose proof (Hmax g Hg).
    split.
    - intros Heq. rewrite Heq in Hrank. destruct names; [done|]. simpl in Hrank. lia.
    - unfold get_relative_folder_path.
      rewrite (relative_path_parts_chain w rank root Hnd Hranked Hroot g names Hchain) by lia.
      by rewrite app_nil_r. }
  unfold zip_entry. rewrite Hrelated.
  destruct Hwhere as [->|Hbelow].
  - exists (file_name f). split.
    + split; [done|]. intros g names Hchain [= Heq].
      destruct (Hfar g names Hchain) as [Hne _]. by rewrite Heq in Hne.
    + destruct (decide (file_file f ∈ blobs w)); [|done]. by rewrite decide_True.
  - apply below_chain in Hbelow as [names Hchain].
    destruct (Hfar r names Hchain) as [Hne Hrel].
    exists (join "/" names +:+ "/" +:+ file_name f). split.
    + split; [intros [= Heq]; by rewrite Heq in Hne|].
      intros g names' Hchain' [= Heq].
      destruct (chain_in _ _ _ _ Hchain') as [Hg _].
      assert (r = g) as -> by by apply (key_inj_on folder_id (folders w)).
      destruct (Hfar g names' Hchain') as [_ Hrel']. rewrite Hrel in Hrel'.
      by injection Hrel' as ->.
    + destruct (decide (file_file f ∈ blobs w)); [|done].
      rewrite decide_False by done. by rewrite Hrel.
Qed.

(** X13. download_shared_folder asks for no password.  For an active
    link that has not expired, on a folder table with unique keys and no
    cycle, it packs one entry for each non-deleted file of the live
    subtree whose blob can be read, in table order: under its name for a
    file of the shared folder itself, under the names of the folders in
    between and its name otherwise.  share_folder answers the same
    request with the password page when the link is protected and the
    session is not verified. *)
Theorem download_shared_folder_skips_the_password (is_uuid : string → bool)
    (rank : FolderId → nat) (fuel : nat) (tok : string) (now : Time) (session : Session)
    (w : World) (link : ShareLink) (root : Folder) :
  NoDup (map folder_id (folders w)) → ranked rank w → (enough_fuel rank w ≤ fuel)%nat →
  is_uuid tok = true →
  active_link true tok w = Ok link → expired link now = false →
  share_folder_ref link = Some (folder_id root) → root ∈ folders w →
  ∃ below entries,
    subtree live fuel w (folder_id root) = Some below
    ∧ let all_files := files_in false (folder_id root :: map folder_id below) w in
      download_shared_folder is_uuid fuel tok now w
      = Some (if decide (all_files = []) then NoFilesToDownload
              else Archive (folder_name root +:+ "_files.zip") entries)
      ∧ map snd entries = map file_file (filter (λ f, file_file f ∈ blobs w) all_files)
      ∧ (∀ f, f ∈ all_files → file_file f ∈ blobs w →
              file_folder f = Some (folder_id root) →
              (file_name f, file_file f) ∈ entries)
      ∧ (∀ f g names, f ∈ all_files → file_file f ∈ blobs w →
              chain w (folder_id root) g names → file_folder f = Some (folder_id g) →
              (join "/" names +:+ "/" +:+ file_name f, file_file f) ∈ entries)
      ∧ (has_password link = true →
         session_get session (share_verified_key tok) = false →
         share_folder fuel tok now session w = Some (SharePassword, w, session)).
Proof.
  intros Hnd Hranked Hfuel Huuid Hactive Hlive Href Hroot.
  destruct (wellformed_subtree w rank Hnd Hranked root fuel Hroot Hfuel)
    as (whole & Hwhole & _).
  destruct (subtree_select live w fuel _ _ Hwhole) as (below & Hsub & _).
  set (all_files := files_in false (folder_id root :: map folder_id below) w).
  destruct (zip_entries_ok
              (λ f path,
                 (file_folder f = Some (folder_id root) → path = file_name f)
                 ∧ ∀ g names, chain w (folder_id root) g names →
                              file_folder f = Some (folder_id g) →
                              path = join "/" names +:+ "/" +:+ file_name f)
              fuel w root all_files) as (entries & Hzip & Hkeys & Hpaths).
  { intros f Hf. by apply (zip_entry_path rank fuel w root below f). }
  exists below, entries. split; [done|]. cbn zeta. fold all_files.
  split; [|split; [done|]; split; [|split]].
  - unfold download_shared_folder. rewrite Huuid, Hactive, Hlive, Href.
    assert (objects_get DoesNotExist (λ x, bool_decide (folder_id x = folder_id root))
              (folders w) = Ok root) as ->.
    { apply objects_get_Ok. apply (filter_unique _ folder_id); try done.
      - by apply bool_decide_eq_true.
      - intros y Hy. by apply bool_decide_eq_true in Hy. }
    destruct (get_all_files_in_folder_eq w fuel _ below Hsub) as (q & -> & Hrows).
    cbn [mbind option_bind].
    rewrite (all_files_eq w _ q Hrows). fold all_files. case_decide; [done|]. by rewrite Hzip.
  - intros f Hf Hblob Hhere. destruct (Hpaths f Hf Hblob) as (path & [Hpath _] & Hin).
    by rewrite <- (Hpath Hhere).
  - intros f g names Hf Hblob Hchain Hthere.
    destruct (Hpaths f Hf Hblob) as (path & [_ Hpath] & Hin).
    by rewrite <- (Hpath g names Hchain Hthere).
  - intros Hpw Hsession. unfold share_folder.
    by rewrite Hactive, Hlive, Hpw, Hsession.
Qed.

Lemma download_shared_folder_skips_the_password_witness :
  download_shared_folder (λ _, true) 4 "tok-A" 0 FolderShareScenario.w
  = Some (Archive "A_files.zip"
            [("B/x", "user_1/x"); ("B/C/y", "user_1/y"); ("z", "user_1/z")])
  ∧ share_folder 4 "tok-A" 0 ∅ FolderShareScenario.w
    = Some (SharePassword, FolderShareScenario.w, ∅).
Proof.
  destruct (download_shared_folder_skips_the_password (λ _, true) (λ i, i - 10)%nat 4
              "tok-A" 0 ∅ FolderShareScenario.w FolderShareScenario.link Tree.A)
    as (inner & entries & _ & _ & _ & _ & _ & Hpage).
  - apply (bool_decide_unpack _). by vm_compute.
  - intros g p Hg Hp. apply list_elem_of_In in Hg. simpl in Hg.
    destruct Hg as [<-|[<-|[<-|[]]]]; vm_compute in Hp; [discriminate| |];
      injection Hp as <-; vm_compute; lia.
  - vm_compute. lia.
  - reflexivity.
  - reflexivity.
  - reflexivity.
  - reflexivity.
  - left.
  - split; [reflexivity|]. by apply Hpage.
Defined.

(** ** The features of a plan *)

Lemma append_cons (c : ascii) (s t : string) : String c s +:+ t = String c (s +:+ t).
Proof. done. Qed.

Lemma lstrip_contains (a : ascii) (s : string) :
  contains a s = false → contains a (lstrip s) = false.
Proof.
  induction s as [|c s IH]; [done|]. simpl. intros Hfree.
  apply orb_false_iff in Hfree as [Hc Hs]. destruct (isspace c); [by apply IH|].
  simpl. by rewrite Hc, Hs.
Qed.

Lemma rstrip_contains (a : ascii) (s : string) :
  contains a s = false → contains a (rstrip s) = false.
Proof.
  induction s as [|c s IH]; [done|]. simpl. intros Hfree.
  apply orb_false_iff in Hfree as [Hc Hs]. specialize (IH Hs).
  destruct (rstrip s) as [|d kept].
  - destruct (isspace c); [done|]. simpl. by rewrite Hc.
  - simpl in *. by rewrite Hc, IH.
Qed.

Lemma lstrip_idem (s : string) : lstrip (lstrip s) = lstrip s.
Proof.
  induction s as [|c s IH]; [done|]. simpl. destruct (isspace c) eqn:Hc; [done|].
  simpl. by rewrite Hc.
Qed.

(** What rstrip returns is empty or ends in a character that is no blank;
    it keeps the first character when that is no blank. *)
Lemma rstrip_idem (s : string) : rstrip (rstrip s) = rstrip s.
Proof.
  induction s as [|c s IH]; [done|]. simpl.
  destruct (rstrip s) as [|d kept] eqn:Hs.
  - destruct (isspace c) eqn:Hc; [done|]. simpl. by rewrite Hc.
  - change (rstrip (String c (String d kept))) with
      (match rstrip (String d kept) with
       | EmptyString => if isspace c then EmptyString else String c EmptyString
       | k => String c k
       end).
    by rewrite IH.
Qed.

Lemma rstrip_head (c : ascii) (s : string) :
  isspace c = false → ∃ kept, rstrip (String c s) = String c kept.
Proof.
  intros Hc. simpl. destruct (rstrip s); rewrite ?Hc; by eexists.
Qed.

Lemma strip_idem (s : string) : strip (strip s) = strip s.
Proof.
  unfold strip. destruct (lstrip s) as [|c t] eqn:Hs; [done|].
  assert (Hc : isspace c = false).
  { clear -Hs. induction s as [|d s IH]; [done|]. simpl in Hs.
    destruct (isspace d) eqn:Hd; [by apply IH|]. by injection Hs as <- _. }
  destruct (rstrip_head c t Hc) as [kept Hkept].
  rewrite Hkept. simpl lstrip. rewrite Hc. rewrite <- Hkept. apply rstrip_idem.
Qed.

Lemma strip_contains (a : ascii) (s : string) :
  contains a s = false → contains a (strip s) = false.
Proof. intros Hs. unfold strip. by apply rstrip_contains, lstrip_contains. Qed.

Lemma split_nonempty (sep : ascii) (s : string) : split sep s ≠ [].
Proof. induction s as [|c s IH]; [done|]. simpl. case_decide; [done|]. by destruct (split sep s). Qed.

Lemma split_contains (sep a : ascii) (s : string) :
  (a = sep ∨ contains a s = false) →
  ∀ x, x ∈ split sep s → contains a x = false.
Proof.
  induction s as [|c s IH]; intros Ha x Hx.
  - simpl in Hx. by apply list_elem_of_singleton in Hx as ->.
  - simpl in Hx.
    assert (Hrest : a = sep ∨ contains a s = false).
    { destruct Ha as [->|Ha]; [by left|right]. simpl in Ha. by apply orb_false_iff in Ha as [_ ?]. }
    case_decide as Hc.
    + apply elem_of_cons in Hx as [->|Hx]; [done|]. by apply IH.
    + pose proof (split_nonempty sep s) as Hne.
      destruct (split sep s) as [|piece pieces]; [done|].
      apply elem_of_cons in Hx as [->|Hx].
      * simpl. rewrite (IH Hrest piece) by left. rewrite orb_false_r.
        apply bool_decide_eq_false. intros ->.
        destruct Ha as [->|Ha]; [done|]. simpl in Ha.
        apply orb_false_iff in Ha as [Ha _]. by apply bool_decide_eq_false in Ha.
      * apply IH; [done|by right].
Qed.

Lemma replace_char_contains (a b : ascii) (s : string) :
  a ≠ b → contains a (replace_char a b s) = false.
Proof.
  intros Hab. induction s as [|c s IH]; [done|]. simpl. rewrite IH, orb_false_r.
  apply bool_decide_eq_false. case_decide; congruence.
Qed.

Lemma replace_char_free (a b : ascii) (s : string) :
  contains a s = false → replace_char a b s = s.
Proof.
  induction s as [|c s IH]; [done|]. simpl. intros Hfree.
  apply orb_false_iff in Hfree as [Hc Hs]. apply bool_decide_eq_false in Hc.
  by rewrite decide_False, IH.
Qed.

Lemma contains_app (a : ascii) (s t : string) :
  contains a (s +:+ t) = contains a s || contains a t.
Proof.
  induction s as [|c s IH]; [done|]. rewrite append_cons. simpl.
  by rewrite IH, orb_assoc.
Qed.

Lemma split_app (sep : ascii) (s t : string) :
  contains sep s = false →
  split sep (s +:+ String sep t) = s :: split sep t.
Proof.
  induction s as [|c s IH]; intros Hfree.
  - change (split sep (String sep t) = "" :: split sep t). simpl. by rewrite decide_True.
  - simpl in Hfree. apply orb_false_iff in Hfree as [Hc Hs].
    apply bool_decide_eq_false in Hc.
    rewrite append_cons. simpl. rewrite decide_False by done. by rewrite IH.
Qed.

Lemma split_free (sep : ascii) (s : string) : contains sep s = false → split sep s = [s].
Proof.
  induction s as [|c s IH]; [done|]. simpl. intros Hfree.
  apply orb_false_iff in Hfree as [Hc Hs]. apply bool_decide_eq_false in Hc.
  by rewrite decide_False, IH.
Qed.

Lemma join_contains (a : ascii) (sep : string) (parts : list string) :
  contains a sep = false → (∀ x, x ∈ parts → contains a x = false) →
  contains a (join sep parts) = false.
Proof.
  intros Hsep. induction parts as [|p parts IH]; intros Hparts; [done|].
  destruct parts as [|q parts]; [apply Hparts; left|].
  change (contains a (p +:+ sep +:+ join sep (q :: parts)) = false).
  rewrite !contains_app, Hsep, (Hparts p) by left. simpl.
  apply IH. intros x Hx. apply Hparts. by right.
Qed.

(** The pieces between the commas of the joined text are the features,
    each but the first after one blank. *)
Lemma clean_joined (features : list string) (pad : string) :
  features ≠ [] → (∀ x, x ∈ features → clean_feature x) →
  pad = "" ∨ pad = " " →
  map strip (filter (λ feature, strip feature ≠ "")
                    (split "," (pad +:+ join ", " features)))
  = features.
Proof.
  revert pad. induction features as [|x features IH]; intros pad Hsome Hclean Hpad; [done|].
  destruct (Hclean x) as (Hne & Hstrip & Hcomma & _); [left|].
  assert (Hpadded : strip (pad +:+ x) = x).
  { destruct Hpad as [->| ->]; [done|]. by rewrite <- Hstrip at 2. }
  assert (Hfree : contains "," (pad +:+ x) = false).
  { rewrite contains_app, Hcomma. by destruct Hpad as [->| ->]. }
  destruct features as [|y features].
  - change (join ", " [x]) with x. rewrite split_free by done.
    rewrite filter_cons_True by (by rewrite Hpadded). rewrite map_cons. by rewrite Hpadded.
  - change (join ", " (x :: y :: features)) with (x +:+ ", " +:+ join ", " (y :: features)).
    rewrite <- append_assoc.
    change (", " +:+ join ", " (y :: features))
      with (String "," (" " +:+ join ", " (y :: features))).
    rewrite split_app by done.
    rewrite filter_cons_True by (by rewrite Hpadded). rewrite map_cons, Hpadded. f_equal.
    apply IH; [done| |by right]. intros z Hz. apply Hclean. by right.
Qed.

(** X15. clean_features turns whatever is typed into a list of features
    that are not empty, have no blank at either end and hold no comma and
    no line feed; and such a list survives the edit form: the text that
    admin_plan_edit shows for it (the features joined by a comma and a
    blank) is cleaned to the same list, so saving a plan unchanged keeps
    its features. *)
Theorem clean_features_round_trip (typed : string) :
  let features := clean_features typed in
  (∀ x, x ∈ features → clean_feature x)
  ∧ clean_features (features_text features) = features
  ∧ ∀ stored, (∀ x, x ∈ stored → clean_feature x) →
              clean_features (features_text stored) = stored.
Proof.
  assert (Hstored : ∀ stored, (∀ x, x ∈ stored → clean_feature x) →
            clean_features (features_text stored) = stored).
  { intros stored Hclean. unfold clean_features, features_text.
    rewrite replace_char_free.
    - destruct stored as [|x stored]; [done|].
      by apply (clean_joined (x :: stored) "" ltac:(done) Hclean); left.
    - apply join_contains; [done|]. intros x Hx. by destruct (Hclean x Hx) as (_ & _ & _ & ?). }
  assert (Hclean : ∀ x, x ∈ clean_features typed → clean_feature x).
  { intros x Hx. unfold clean_features in Hx.
    apply list_elem_of_fmap in Hx as (piece & -> & Hpiece).
    apply list_elem_of_filter in Hpiece as [Hne Hpiece].
    split; [done|]. split; [apply strip_idem|]. split.
    - apply strip_contains.
      by apply (split_contains "," "," (replace_char "010" "," typed) (or_introl eq_refl)).
    - apply strip_contains. apply (split_contains "," "010" (replace_char "010" "," typed));
        [|done]. right. by apply replace_char_contains. }
  intros features. split; [done|]. split; [by apply Hstored|done].
Qed.

Example clean_features_example :
  clean_features "5GB Storage,  Basic Support ,, File Sharing" 
  = ["5GB Storage"; "Basic Support"; "File Sharing"].
Proof. reflexivity. Qed.

(** ** Decimal texts *)

Lemma decimal_char (c : ascii) :
  is_decimal c = true →
  isspace c = false ∧ upper_char c = c ∧ (N_of_ascii c <? 128)%N = true
  ∧ c ≠ " "%char ∧ c ≠ "."%char ∧ c ≠ "010"%char.
Proof. by destruct c as [[] [] [] [] [] [] [] []]. Qed.

Lemma all_chars_app (p : ascii → bool) (s t : string) :
  all_chars p (s +:+ t) = all_chars p s && all_chars p t.
Proof.
  induction s as [|c s IH]; [done|]. rewrite append_cons. simpl. by rewrite IH, andb_assoc.
Qed.

Lemma all_chars_impl (p q : ascii → bool) (s : string) :
  (∀ c, p c = true → q c = true) → all_chars p s = true → all_chars q s = true.
Proof.
  intros Hpq. induction s as [|c s IH]; [done|]. simpl.
  intros [Hc Hs]%andb_true_iff. by rewrite (Hpq c Hc), IH.
Qed.

Lemma int_digits_app (s t : string) :
  ∀ acc, int_digits acc (s +:+ t) = int_digits acc s ≫= λ v, int_digits v t.
Proof.
  induction s as [|c s IH]; intros acc; [done|]. rewrite append_cons. simpl.
  destruct (is_decimal c); [apply IH|done].
Qed.

Lemma pretty_N_go_app (x : N) : ∀ s, pretty_N_go x s = pretty_N_go x "" +:+ s.
Proof.
  induction (N.lt_wf_0 x) as [x _ IH]. intros s.
  destruct (decide (x = 0)%N) as [->|Hx]; [done|].
  rewrite (pretty_N_go_step x s), (pretty_N_go_step x "") by lia.
  rewrite (IH (x `div` 10)%N) by (apply N.div_lt; lia).
  rewrite (IH (x `div` 10)%N ltac:(apply N.div_lt; lia) (String _ "")).
  by rewrite append_assoc.
Qed.

Lemma pretty_N_char_decimal (d : N) :
  (d < 10)%N →
  is_decimal (pretty_N_char d) = true
  ∧ Z.of_N (N_of_ascii (pretty_N_char d)) - 48 = Z.of_N d.
Proof.
  intros Hd.
  assert (d = 0 ∨ d = 1 ∨ d = 2 ∨ d = 3 ∨ d = 4 ∨ d = 5 ∨ d = 6 ∨ d = 7 ∨ d = 8 ∨ d = 9)%N
    as Hcases by lia.
  by repeat (destruct Hcases as [->|Hcases]; [done|]); subst.
Qed.

Lemma pretty_N_go_digits (x : N) :
  all_chars is_decimal (pretty_N_go x "") = true
  ∧ int_digits 0 (pretty_N_go x "") = Some (Z.of_N x)
  ∧ ((0 < x)%N → pretty_N_go x "" ≠ "").
Proof.
  induction (N.lt_wf_0 x) as [x _ IH].
  destruct (decide (x = 0)%N) as [->|Hx]; [by repeat split; try lia|].
  rewrite (pretty_N_go_step x "") by lia. rewrite pretty_N_go_app.
  destruct (IH (x `div` 10)%N) as (Hall & Hvalue & _); [apply N.div_lt; lia|].
  destruct (pretty_N_char_decimal (x `mod` 10)%N) as [Hdec Hcode]; [by apply N.mod_lt|].
  split; [|split].
  - rewrite all_chars_app, Hall. simpl. by rewrite Hdec.
  - rewrite int_digits_app, Hvalue. simpl. rewrite Hdec, Hcode. f_equal.
    rewrite (N.div_mod x 10) at 3 by done. lia.
  - intros _. destruct (pretty_N_go (x `div` 10) ""); done.
Qed.

(** The decimal text of a number that is not negative: digits only, and
    int() reads the number back. *)
Lemma pretty_digits (n : Z) :
  0 ≤ n →
  pretty n ≠ "" ∧ all_chars is_decimal (pretty n) = true
  ∧ int_digits 0 (pretty n) = Some n.
Proof.
  intros Hn. destruct n as [|p|p]; [done| |lia].
  change (pretty (Z.pos p)) with (pretty_N_go (N.pos p) "").
  destruct (pretty_N_go_digits (N.pos p)) as (Hall & Hvalue & Hne).
  split; [apply Hne; lia|]. split; [done|]. by rewrite Hvalue.
Qed.

(** ** The typed size, step by step *)

Lemma upper_app (s t : string) : upper (s +:+ t) = upper s +:+ upper t.
Proof. induction s as [|c s IH]; [done|]. rewrite append_cons. simpl. by rewrite IH. Qed.

Lemma upper_decimal (s : string) : all_chars is_decimal s = true → upper s = s.
Proof.
  induction s as [|c s IH]; [done|]. simpl. intros [Hc Hs]%andb_true_iff.
  destruct (decimal_char c Hc) as (_ & -> & _). by rewrite IH.
Qed.

Lemma rstrip_no_blank (s : string) :
  all_chars (λ c, negb (isspace c)) s = true → rstrip s = s.
Proof.
  induction s as [|c s IH]; [done|]. simpl. intros [Hc Hs]%andb_true_iff.
  rewrite IH by done. apply negb_true_iff in Hc. rewrite Hc. by destruct s.
Qed.

Lemma strip_no_blank (s : string) :
  all_chars (λ c, negb (isspace c)) s = true → strip s = s.
Proof.
  intros Hs. unfold strip.
  assert (lstrip s = s) as ->; [|by apply rstrip_no_blank].
  destruct s as [|c s]; [done|]. simpl in *. apply andb_true_iff in Hs as [Hc _].
  apply negb_true_iff in Hc. by rewrite Hc.
Qed.

Lemma remove_char_free (a : ascii) (s : string) :
  contains a s = false → remove_char a s = s.
Proof.
  induction s as [|c s IH]; [done|]. simpl. intros [Hc Hs]%orb_false_iff.
  apply bool_decide_eq_false in Hc. by rewrite decide_False, IH.
Qed.

Lemma remove_char_app (a : ascii) (s t : string) :
  remove_char a (s +:+ t) = remove_char a s +:+ remove_char a t.
Proof.
  induction s as [|c s IH]; [done|]. rewrite append_cons. simpl.
  case_decide; by rewrite IH.
Qed.

Lemma decimal_contains (a : ascii) (s : string) :
  is_decimal a = false → all_chars is_decimal s = true → contains a s = false.
Proof.
  intros Ha. induction s as [|c s IH]; [done|]. simpl. intros [Hc Hs]%andb_true_iff.
  rewrite IH, orb_false_r by done. apply bool_decide_eq_false. intros ->. congruence.
Qed.

Lemma span_app (p : ascii → bool) (s t : string) :
  all_chars p s = true → span p t = ("", t) → span p (s +:+ t) = (s, t).
Proof.
  intros Hs Ht. induction s as [|c s IH]; [done|]. rewrite append_cons. simpl in *.
  apply andb_true_iff in Hs as [Hc Hs]. by rewrite Hc, IH.
Qed.

Lemma admitted_unit_facts (unit : string) :
  unit ∈ admitted_units →
  is_ascii unit = true ∧ upper unit = unit
  ∧ all_chars (λ c, negb (isspace c)) unit = true
  ∧ contains " " unit = false.
Proof.
  intros Hunit. apply list_elem_of_In in Hunit. simpl in Hunit.
  by repeat (destruct Hunit as [<-|Hunit]; [done|]).
Qed.

(** The pattern on a text of digits followed by an admitted unit. *)
Lemma match_size_digits (whole unit : string) :
  whole ≠ "" → all_chars is_decimal whole = true → unit ∈ admitted_units →
  match_size (whole +:+ unit)
  = Some (whole, "", if decide (unit = "") then None else Some unit).
Proof.
  intros Hne Hall Hunit. apply list_elem_of_In in Hunit. simpl in Hunit.
  assert (Hspan : span is_decimal unit = ("", unit)).
  { by repeat (destruct Hunit as [<-|Hunit]; [done|]). }
  unfold match_size. rewrite (span_app is_decimal whole unit Hall Hspan).
  rewrite decide_False by done.
  by repeat (destruct Hunit as [<-|Hunit]; [done|]).
Qed.

(** ** Floats of quotients by a power of two *)

Lemma round_half_even_exact (q d : Z) : 0 < d → round_half_even (q * d) d = q.
Proof.
  intros Hd. unfold round_half_even.
  rewrite Z.div_mul, Z.mod_mul by lia.
  by rewrite (proj2 (Z.ltb_lt _ _)) by lia.
Qed.

Lemma round_half_even_scale (a d c : Z) :
  0 < d → 0 < c → round_half_even (a * c) (d * c) = round_half_even a d.
Proof.
  intros Hd Hc. unfold round_half_even.
  rewrite Z.div_mul_cancel_r, Z.mul_mod_distr_r by lia.
  assert (Hlt : (2 * (a `mod` d * c) <? d * c) = (2 * (a `mod` d) <? d)).
  { apply eq_true_iff_eq. rewrite !Z.ltb_lt. nia. }
  assert (Hgt : (d * c <? 2 * (a `mod` d * c)) = (d <? 2 * (a `mod` d))).
  { apply eq_true_iff_eq. rewrite !Z.ltb_lt. nia. }
  by rewrite Hlt, Hgt.
Qed.

(** A number of at most 53 bits over a power of two is a float. *)
Lemma float_of_ratio_exact (n k : Z) :
  0 < n < 2 ^ 53 → 0 ≤ k ≤ 64 →
  float_of_ratio n (2 ^ k) = Finite (n * 2 ^ (52 - Z.log2 n)) (Z.log2 n - k - 52).
Proof.
  intros Hn Hk. unfold float_of_ratio.
  rewrite decide_False by lia. rewrite Z.log2_pow2 by lia.
  pose proof (Z.log2_spec n (proj1 Hn)) as [Hlo Hhi].
  assert (Hl : 0 ≤ Z.log2 n ≤ 52).
  { split; [apply Z.log2_nonneg|]. apply Z.lt_succ_r, Z.log2_lt_pow2; lia. }
  set (l := Z.log2 n) in *.
  assert (Hcmp : (n * 2 ^ Z.max 0 (- (l - k)) <? 2 ^ k * 2 ^ Z.max 0 (l - k)) = false).
  { apply Z.ltb_ge. destruct (decide (k ≤ l)) as [Hkl|Hkl].
    - rewrite (Z.max_l 0 (- (l - k))), (Z.max_r 0 (l - k)) by lia.
      rewrite <- Z.pow_add_r by lia.
      replace (k + (l - k)) with l by lia. rewrite Z.pow_0_r. lia.
    - rewrite (Z.max_r 0 (- (l - k))), (Z.max_l 0 (l - k)) by lia.
      rewrite Z.pow_0_r, Z.mul_1_r.
      replace k with (l + (k - l)) at 1 by lia. rewrite Z.pow_add_r by lia.
      replace (- (l - k)) with (k - l) by lia.
      apply Z.mul_le_mono_nonneg_r; [apply Z.pow_nonneg|]; lia. }
  rewrite Hcmp. cbv zeta.
  rewrite (Z.max_l 0 (l - k - 52)), (Z.max_r 0 (- (l - k - 52))) by lia.
  rewrite Z.pow_0_r, Z.mul_1_r.
  replace (- (l - k - 52)) with ((52 - l) + k) by lia.
  rewrite Z.pow_add_r, Z.mul_assoc by lia.
  rewrite round_half_even_exact by (apply Z.pow_pos_nonneg; lia).
  assert (Hm : n * 2 ^ (52 - l) < 2 ^ 53).
  { replace 53 with (Z.succ l + (52 - l)) by lia. rewrite Z.pow_add_r by lia.
    apply Z.mul_lt_mono_pos_r; [apply Z.pow_pos_nonneg|]; lia. }
  destruct (decide (n * 2 ^ (52 - l) = 2 ^ 53)) as [|_]; [lia|].
  by rewrite decide_False by lia.
Qed.

(** The integer of an exact float that is a whole number. *)
Lemma float_to_int_exact (n a c : Z) :
  0 ≤ a → 0 ≤ c → float_to_int (Finite (n * 2 ^ a) (c - a)) = Some (n * 2 ^ c).
Proof.
  intros Ha Hc. simpl. f_equal. case_decide.
  - rewrite <- Z.mul_assoc, <- Z.pow_add_r by lia. do 2 f_equal. lia.
  - replace c with ((c - a) + a) at 2 by lia.
    replace a with (c + (a - c)) at 1 by lia.
    rewrite Z.pow_add_r, Z.mul_assoc by lia.
    replace (- (c - a)) with (a - c) by lia.
    rewrite Z.div_mul; [|apply Z.pow_nonzero; lia].
    do 2 f_equal. lia.
Qed.

(** ** The clean methods on a text of digits and a unit *)

Lemma digits_nonblank (s : string) :
  all_chars is_decimal s = true → all_chars (λ c, negb (isspace c)) s = true.
Proof.
  apply all_chars_impl. intros c Hc. by destruct (decimal_char c Hc) as (-> & _).
Qed.

Lemma digits_ascii (s : string) : all_chars is_decimal s = true → is_ascii s = true.
Proof.
  apply all_chars_impl. intros c Hc. by destruct (decimal_char c Hc) as (_ & _ & -> & _).
Qed.

Lemma append_nonempty (s t : string) : s ≠ "" → s +:+ t ≠ "".
Proof. by destruct s. Qed.

Lemma clean_size_digits (required invalid : string) (unknown : string → string)
    (n : Z) (unit : string) :
  0 ≤ n → unit ∈ admitted_units →
  clean_size required invalid unknown (pretty n +:+ unit)
  = Some (let number := float_of_ratio n 1 in
          let unit := if decide (unit = "") then "B" else unit in
          if decide (unit = "B") then from_option Bytes Overflowed (float_to_int number)
          else
            match units unit with
            | Some factor =>
                from_option Bytes Overflowed (float_to_int (float_scale number factor))
            | None => ValidationErr (unknown unit)
            end).
Proof.
  intros Hn Hunit.
  destruct (pretty_digits n Hn) as (Hne & Hall & Hint).
  destruct (admitted_unit_facts unit Hunit) as (Hascii & Hupper & Hblank & Hspace).
  set (whole := pretty n) in *.
  assert (Hup : upper (whole +:+ unit) = whole +:+ unit).
  { by rewrite upper_app, upper_decimal, Hupper. }
  unfold clean_size, is_ascii. rewrite all_chars_app.
  fold (is_ascii whole) (is_ascii unit). rewrite digits_ascii, Hascii by done.
  cbn [andb]. f_equal. rewrite Hup.
  rewrite strip_no_blank by (by rewrite all_chars_app, digits_nonblank, Hblank).
  rewrite decide_False by (by apply append_nonempty).
  rewrite remove_char_free by (by rewrite contains_app, decimal_contains, Hspace).
  rewrite Hup, match_size_digits by done.
  rewrite int_digits_app, Hint. cbn [mbind option_bind int_digits default String.length].
  change (10 ^ Z.of_nat 0) with 1.
  by destruct (decide (unit = "")).
Qed.

(** The units with their factors: no unit and B are bytes. *)
Lemma clean_size_whole (required invalid : string) (unknown : string → string)
    (n : Z) (unit : string) (k : Z) :
  0 ≤ n < 2 ^ 53 →
  (unit, k) ∈ [("", 0); ("B", 0); ("KB", 10); ("MB", 20); ("GB", 30); ("TB", 40)] →
  clean_size required invalid unknown (pretty n +:+ unit) = Some (Bytes (n * 2 ^ k)).
Proof.
  intros Hn Hunit.
  assert (Hnumber : float_of_ratio n 1 = if decide (n = 0) then Finite 0 0
            else Finite (n * 2 ^ (52 - Z.log2 n)) (Z.log2 n - 0 - 52)).
  { case_decide as Hz; [by rewrite Hz|]. apply (float_of_ratio_exact n 0); lia. }
  assert (Hlog : 0 ≤ 52 - Z.log2 n).
  { destruct (decide (n = 0)) as [->|Hz]; [done|].
    assert (Z.log2 n < 53); [apply Z.log2_lt_pow2|]; lia. }
  assert (Hbytes : float_to_int (float_of_ratio n 1) = Some (n * 2 ^ 0)).
  { rewrite Hnumber. case_decide as Hz; [by rewrite Hz|].
    replace (Z.log2 n - 0 - 52) with (0 - (52 - Z.log2 n)) by lia.
    by apply float_to_int_exact. }
  assert (Hscale : ∀ factor j, Z.log2 factor = j → 0 ≤ j ≤ 40 →
            float_to_int (float_scale (float_of_ratio n 1) factor) = Some (n * 2 ^ j)).
  { intros factor j Hj Hrange. rewrite Hnumber. case_decide as Hz; [by rewrite Hz|].
    pose proof (Z.log2_nonneg n) as Hpos. unfold float_scale.
    assert (0 < 2 ^ (52 - Z.log2 n)) by (apply Z.pow_pos_nonneg; lia).
    rewrite decide_False by nia. rewrite Hj, decide_False by lia.
    replace (Z.log2 n - 0 - 52 + j) with (j - (52 - Z.log2 n)) by lia.
    apply float_to_int_exact; lia. }
  apply list_elem_of_In in Hunit. simpl in Hunit.
  destruct Hunit as [Hu|[Hu|[Hu|[Hu|[Hu|[Hu|[]]]]]]]; injection Hu as <- <-;
    (rewrite clean_size_digits; [|lia|apply list_elem_of_In; simpl; auto 10]);
    cbv zeta.
  - change (Some (from_option Bytes Overflowed (float_to_int (float_of_ratio n 1))) = Some (Bytes (n * 2 ^ 0))).
    by rewrite Hbytes.
  - change (Some (from_option Bytes Overflowed (float_to_int (float_of_ratio n 1))) = Some (Bytes (n * 2 ^ 0))).
    by rewrite Hbytes.
  - change (Some (from_option Bytes Overflowed
      (float_to_int (float_scale (float_of_ratio n 1) 1024))) = Some (Bytes (n * 2 ^ 10))).
    by rewrite (Hscale 1024 10).
  - change (Some (from_option Bytes Overflowed
      (float_to_int (float_scale (float_of_ratio n 1) (1024 ^ 2)))) = Some (Bytes (n * 2 ^ 20))).
    by rewrite (Hscale (1024 ^ 2) 20).
  - change (Some (from_option Bytes Overflowed
      (float_to_int (float_scale (float_of_ratio n 1) (1024 ^ 3)))) = Some (Bytes (n * 2 ^ 30))).
    by rewrite (Hscale (1024 ^ 3) 30).
  - change (Some (from_option Bytes Overflowed
      (float_to_int (float_scale (float_of_ratio n 1) (1024 ^ 4)))) = Some (Bytes (n * 2 ^ 40))).
    by rewrite (Hscale (1024 ^ 4) 40).
Qed.

(** X16. A whole number below 2^53 followed by nothing, B, KB, MB, GB or
    TB is read by both clean methods as that number times 1, 1, 1024,
    1024^2, 1024^3 or 1024^4 bytes, without any rounding. *)
Theorem clean_size_inputs_read_whole_numbers (n : Z) (unit : string) (factor : Z) :
  0 ≤ n < 2 ^ 53 →
  (unit, factor) ∈ [("", 1); ("B", 1); ("KB", 1024); ("MB", 1024 ^ 2);
                    ("GB", 1024 ^ 3); ("TB", 1024 ^ 4)] →
  clean_max_storage_size_input (pretty n +:+ unit) = Some (Bytes (n * factor))
  ∧ clean_max_file_size_input (pretty n +:+ unit) = Some (Bytes (n * factor)).
Proof.
  intros Hn Hunit. unfold clean_max_storage_size_input, clean_max_file_size_input.
  apply list_elem_of_In in Hunit. simpl in Hunit.
  destruct Hunit as [Hu|[Hu|[Hu|[Hu|[Hu|[Hu|[]]]]]]]; injection Hu as <- <-.
  - split; apply (clean_size_whole _ _ _ n "" 0 Hn); apply list_elem_of_In; simpl; auto 10.
  - split; apply (clean_size_whole _ _ _ n "B" 0 Hn); apply list_elem_of_In; simpl; auto 10.
  - split; apply (clean_size_whole _ _ _ n "KB" 10 Hn); apply list_elem_of_In; simpl; auto 10.
  - split; apply (clean_size_whole _ _ _ n "MB" 20 Hn); apply list_elem_of_In; simpl; auto 10.
  - split; apply (clean_size_whole _ _ _ n "GB" 30 Hn); apply list_elem_of_In; simpl; auto 10.
  - split; apply (clean_size_whole _ _ _ n "TB" 40 Hn); apply list_elem_of_In; simpl; auto 10.
Qed.

Lemma clean_size_inputs_read_whole_numbers_witness :
  clean_max_storage_size_input "5GB" = Some (Bytes 5368709120)
  ∧ clean_max_file_size_input "5GB" = Some (Bytes 5368709120).
Proof.
  apply (clean_size_inputs_read_whole_numbers 5 "GB" (1024 ^ 3)); [lia|].
  apply list_elem_of_In. simpl. auto 10.
Defined.

(** X17. The pattern of the clean methods admits the unit PB, but the
    table of units has no such entry: a whole number of petabytes is
    refused as an unknown unit, whatever the number. *)
Theorem clean_size_inputs_refuse_petabytes (n : Z) :
  0 ≤ n →
  clean_max_storage_size_input (pretty n +:+ "PB")
  = Some (ValidationErr "Unknown unit: PB. Use MB, GB, or TB")
  ∧ clean_max_file_size_input (pretty n +:+ "PB")
    = Some (ValidationErr "Unknown unit: PB. Use MB or GB").
Proof.
  intros Hn. unfold clean_max_storage_size_input, clean_max_file_size_input.
  split; (rewrite clean_size_digits; [done|done|apply list_elem_of_In; simpl; auto 10]).
Qed.

Lemma clean_size_inputs_refuse_petabytes_witness :
  clean_max_storage_size_input "2PB"
  = Some (ValidationErr "Unknown unit: PB. Use MB, GB, or TB")
  ∧ clean_max_file_size_input "2PB"
    = Some (ValidationErr "Unknown unit: PB. Use MB or GB").
Proof. apply (clean_size_inputs_refuse_petabytes 2). lia. Defined.

(** ** The text of a size below one megabyte *)

Lemma rstrip_app_keep (s t : string) :
  rstrip t = t → t ≠ "" → rstrip (s +:+ t) = s +:+ t.
Proof.
  intros Ht Hne. induction s as [|c s IH]; [done|]. rewrite append_cons.
  cbn [rstrip]. rewrite IH.
  destruct (s +:+ t) eqn:Hst; [|done]. by destruct s.
Qed.

Lemma lstrip_digits (d t : string) :
  d ≠ "" → all_chars is_decimal d = true → lstrip (d +:+ t) = d +:+ t.
Proof.
  intros Hne Hall. destruct d as [|c d]; [done|]. rewrite append_cons.
  apply andb_true_iff in Hall as [Hc _]. simpl.
  by destruct (decimal_char c Hc) as (-> & _).
Qed.

Lemma clean_size_bytes_text (required invalid : string) (unknown : string → string)
    (sign d : string) :
  sign ∈ [""; "-"] → d ≠ "" → all_chars is_decimal d = true →
  clean_size required invalid unknown (sign +:+ d +:+ " bytes")
  = Some (ValidationErr invalid).
Proof.
  intros Hsign Hne Hall.
  assert (Hs : sign = "" ∨ sign = "-").
  { apply list_elem_of_In in Hsign. simpl in Hsign.
    destruct Hsign as [<-|[<-|[]]]; auto. }
  clear Hsign.
  assert (Hup : ∀ t, upper t = t → upper (sign +:+ d +:+ t) = sign +:+ d +:+ t).
  { intros t Ht. rewrite !upper_app, (upper_decimal d), Ht by done.
    by destruct Hs as [-> | ->]. }
  assert (Hstrip : strip (sign +:+ d +:+ " BYTES") = sign +:+ d +:+ " BYTES").
  { unfold strip.
    assert (lstrip (sign +:+ d +:+ " BYTES") = sign +:+ d +:+ " BYTES") as ->.
    { destruct Hs as [-> | ->]; [by apply (lstrip_digits d)|done]. }
    apply rstrip_app_keep; [|by apply append_nonempty].
    by apply rstrip_app_keep. }
  assert (Hremove : remove_char " " (sign +:+ d +:+ " BYTES") = sign +:+ d +:+ "BYTES").
  { rewrite !remove_char_app, (remove_char_free _ d) by (by apply decimal_contains).
    by destruct Hs as [-> | ->]. }
  assert (Hmatch : match_size (sign +:+ d +:+ "BYTES") = None).
  { destruct Hs as [-> | ->]; [|done]. unfold match_size.
    change ("" +:+ d +:+ "BYTES") with (d +:+ "BYTES").
    rewrite (span_app is_decimal d "BYTES" Hall eq_refl). by rewrite decide_False. }
  assert (Hascii : is_ascii (sign +:+ d +:+ " bytes") = true).
  { unfold is_ascii. rewrite !all_chars_app. fold (is_ascii d).
    rewrite (digits_ascii d) by done. by destruct Hs as [-> | ->]. }
  unfold clean_size. rewrite Hascii. f_equal.
  assert (upper (sign +:+ d +:+ " bytes") = sign +:+ d +:+ " BYTES") as ->.
  { rewrite !upper_app, (upper_decimal d) by done. by destruct Hs as [-> | ->]. }
  rewrite Hstrip, decide_False, Hremove, (Hup "BYTES"), Hmatch; [done|done|].
  intros Hempty. destruct Hs as [-> | ->]; [by destruct d|done].
Qed.

(** X18. The form shows a stored size below one megabyte as the number
    followed by " bytes"; both clean methods refuse that text as invalid,
    so such a plan cannot be saved again as it is shown. *)
Theorem shown_bytes_text_is_refused (b : Z) :
  b < 1024 ^ 2 →
  storage_size_text b ≫= clean_max_storage_size_input
  = Some (ValidationErr "Please enter a valid storage size (e.g., 5GB, 50GB, 1TB, 500MB)")
  ∧ file_size_text b ≫= clean_max_file_size_input
    = Some (ValidationErr "Please enter a valid file size (e.g., 100MB, 2GB, 5GB)").
Proof.
  intros Hb. unfold storage_size_text, file_size_text.
  rewrite !decide_False by lia. cbn [mbind option_bind].
  unfold clean_max_storage_size_input, clean_max_file_size_input.
  destruct (decide (0 ≤ b)) as [Hpos|Hneg].
  - destruct (pretty_digits b Hpos) as (Hne & Hall & _).
    split; by apply (clean_size_bytes_text _ _ _ "" (pretty b)); [set_solver|..].
  - destruct b as [|p|p]; [lia..|].
    destruct (pretty_digits (Z.pos p)) as (Hne & Hall & _); [lia|].
    change (pretty (Z.neg p)) with ("-" +:+ pretty (Z.pos p)).
    rewrite !append_assoc.
    split; by apply (clean_size_bytes_text _ _ _ "-" (pretty (Z.pos p))); [set_solver|..].
Qed.

Lemma shown_bytes_text_is_refused_witness :
  storage_size_text 524288 ≫= clean_max_storage_size_input
  = Some (ValidationErr "Please enter a valid storage size (e.g., 5GB, 50GB, 1TB, 500MB)")
  ∧ file_size_text 524288 ≫= clean_max_file_size_input
    = Some (ValidationErr "Please enter a valid file size (e.g., 100MB, 2GB, 5GB)").
Proof. apply (shown_bytes_text_is_refused 524288). lia. Defined.

(** ** The text of a size of at least one megabyte, read again *)

Lemma round_half_even_bounds (a d : Z) :
  0 ≤ a → 0 < d → 0 ≤ round_half_even a d ≤ a `div` d + 1.
Proof.
  intros Ha Hd. unfold round_half_even.
  pose proof (Z.div_pos a d Ha Hd).
  repeat case_match; lia.
Qed.

Lemma round_half_even_fixed (a d : Z) :
  0 < d → round_half_even a d * d = a ↔ (d | a).
Proof.
  intros Hd. split.
  - intros <-. by exists (round_half_even a d).
  - intros [q ->]. by rewrite round_half_even_exact.
Qed.

Lemma in_unit_round_trip (required invalid : string) (unknown : string → string)
    (b k : Z) (unit : string) :
  (unit, k) ∈ [("MB", 20); ("GB", 30); ("TB", 40)] → 2 ^ k ≤ b < 2 ^ 53 →
  in_unit b (2 ^ k) unit ≫= clean_size required invalid unknown
  = Some (Bytes (round_half_even b (2 ^ k) * 2 ^ k)).
Proof.
  intros Hunit Hb.
  assert (Hk : 20 ≤ k ≤ 40).
  { apply list_elem_of_In in Hunit. simpl in Hunit.
    destruct Hunit as [Hu|[Hu|[Hu|[]]]]; injection Hu as <- <-; lia. }
  assert (0 < 2 ^ k) by (apply Z.pow_pos_nonneg; lia).
  assert (Hl : 0 ≤ Z.log2 b ≤ 52).
  { split; [apply Z.log2_nonneg|]. apply Z.lt_succ_r, Z.log2_lt_pow2; lia. }
  unfold in_unit. rewrite float_of_ratio_exact by lia.
  cbn [mbind option_bind]. unfold format_0f. rewrite decide_False by lia.
  replace (- (Z.log2 b - k - 52)) with (k + (52 - Z.log2 b)) by lia.
  rewrite Z.pow_add_r by lia.
  rewrite round_half_even_scale by (try done; apply Z.pow_pos_nonneg; lia).
  pose proof (round_half_even_bounds b (2 ^ k)) as Hq.
  assert (b `div` 2 ^ k ≤ b).
  { apply Z.div_le_upper_bound; nia. }
  assert (b `div` 2 ^ k < 2 ^ 33).
  { apply Z.div_lt_upper_bound; [done|].
    assert (2 ^ 53 ≤ 2 ^ k * 2 ^ 33); [|lia].
    rewrite <- Z.pow_add_r by lia. apply Z.pow_le_mono_r; lia. }
  apply clean_size_whole; [lia|].
  apply list_elem_of_In in Hunit. apply list_elem_of_In. simpl in *. tauto.
Qed.

(** X19. A stored total size from one megabyte up to 2^53 bytes that the
    form shows and that is submitted unchanged is saved as the nearest
    whole number (the even one of two) of the shown unit: TB from 1024^4
    bytes, GB from 1024^3, MB otherwise.  The size is kept exactly when it
    is a whole multiple of that unit, and only then. *)
Theorem storage_size_text_round_trip (b : Z) :
  1024 ^ 2 ≤ b < 2 ^ 53 →
  let factor := if decide (1024 ^ 4 ≤ b) then 1024 ^ 4
                else if decide (1024 ^ 3 ≤ b) then 1024 ^ 3 else 1024 ^ 2 in
  storage_size_text b ≫= clean_max_storage_size_input
  = Some (Bytes (round_half_even b factor * factor))
  ∧ (round_half_even b factor * factor = b ↔ (factor | b)).
Proof.
  intros Hb factor. split; [|apply round_half_even_fixed; subst factor; repeat case_decide; lia].
  subst factor. unfold storage_size_text, clean_max_storage_size_input.
  repeat case_decide; try lia.
  - apply (in_unit_round_trip _ _ _ b 40 "TB"); [|lia]. apply list_elem_of_In. simpl. auto.
  - apply (in_unit_round_trip _ _ _ b 30 "GB"); [|lia]. apply list_elem_of_In. simpl. auto.
  - apply (in_unit_round_trip _ _ _ b 20 "MB"); [|lia]. apply list_elem_of_In. simpl. auto.
Qed.

Lemma storage_size_text_round_trip_witness :
  storage_size_text 1610612736 ≫= clean_max_storage_size_input
  = Some (Bytes (round_half_even 1610612736 (1024 ^ 3) * 1024 ^ 3))
  ∧ (round_half_even 1610612736 (1024 ^ 3) * 1024 ^ 3 = 1610612736
     ↔ (1024 ^ 3 | 1610612736)).
Proof. apply (storage_size_text_round_trip 1610612736). lia. Defined.

(** X20. The same for the size limit of one file, which the form shows in
    GB from 1024^3 bytes and in MB otherwise. *)
Theorem file_size_text_round_trip (b : Z) :
  1024 ^ 2 ≤ b < 2 ^ 53 →
  let factor := if decide (1024 ^ 3 ≤ b) then 1024 ^ 3 else 1024 ^ 2 in
  file_size_text b ≫= clean_max_file_size_input
  = Some (Bytes (round_half_even b factor * factor))
  ∧ (round_half_even b factor * factor = b ↔ (factor | b)).
Proof.
  intros Hb factor. split; [|apply round_half_even_fixed; subst factor; repeat case_decide; lia].
  subst factor. unfold file_size_text, clean_max_file_size_input.
  repeat case_decide; try lia.
  - apply (in_unit_round_trip _ _ _ b 30 "GB"); [|lia]. apply list_elem_of_In. simpl. auto.
  - apply (in_unit_round_trip _ _ _ b 20 "MB"); [|lia]. apply list_elem_of_In. simpl. auto.
Qed.

Lemma file_size_text_round_trip_witness :
  file_size_text 1610612736 ≫= clean_max_file_size_input
  = Some (Bytes (round_half_even 1610612736 (1024 ^ 3) * 1024 ^ 3))
  ∧ (round_half_even 1610612736 (1024 ^ 3) * 1024 ^ 3 = 1610612736
     ↔ (1024 ^ 3 | 1610612736)).
Proof. apply (file_size_text_round_trip 1610612736). lia. Defined.

(** ** generate_unique_username *)

Lemma username_loop_first_free (randint : Z → Z → Z) (users : list string)
    (base : string) (n : nat) :
  ∀ fuel c,
    (c + n = 99)%nat → (n < fuel)%nat →
    (∀ j, (j < c)%nat → candidate base j ∈ users) →
    ∃ name,
      username_loop randint fuel users base (S c) (candidate base c) = Some name
      ∧ ((∃ i, (i < 100)%nat ∧ name = candidate base i ∧ (name ∉ users)
               ∧ ∀ j, (j < i)%nat → candidate base j ∈ users)
         ∨ ((∀ j, (j < 100)%nat → candidate base j ∈ users)
            ∧ name = base +:+ pretty (randint 1000 9999))).
Proof.
  induction n as [|n IH]; intros fuel c Hc Hfuel Htaken;
    (destruct fuel as [|fuel]; [lia|]); simpl.
  - case_bool_decide as Hin.
    + rewrite decide_True by lia. eexists. split; [done|]. right. split; [|done].
      intros j Hj. destruct (decide (j = c)) as [->|Hne]; [done|]. apply Htaken. lia.
    + eexists. split; [done|]. left. exists c. split; [lia|]. done.
  - case_bool_decide as Hin.
    + rewrite decide_False by lia.
      destruct (IH fuel (S c)) as (name & Hloop & Hname); [lia|lia| |].
      * intros j Hj. destruct (decide (j = c)) as [->|Hne]; [done|]. apply Htaken. lia.
      * exists name. split; [exact Hloop|exact Hname].
    + eexists. split; [done|]. left. exists c. split; [lia|]. done.
Qed.

Lemma append_cancel (base s t : string) : base +:+ s = base +:+ t → s = t.
Proof. induction base as [|c base IH]; [done|]. intros [= Heq]. by apply IH. Qed.

Lemma append_not_self (base s : string) : s ≠ "" → base ≠ base +:+ s.
Proof.
  intros Hs. induction base as [|c base IH]; [by destruct s|].
  intros [= Heq]. by apply IH.
Qed.

Lemma pretty_nat_nonempty (n : nat) : pretty n ≠ "".
Proof.
  destruct (pretty_digits (Z.of_nat n)) as (Hne & _); [lia|].
  by destruct n.
Qed.

Lemma candidate_inj (base : string) (i j : nat) :
  candidate base i = candidate base j → i = j.
Proof.
  destruct i as [|i], j as [|j]; cbn [candidate]; [done| | |].
  - intros Heq. exfalso.
    by apply (append_not_self base (pretty (S j)) (pretty_nat_nonempty (S j))).
  - intros Heq. exfalso.
    by apply (append_not_self base (pretty (S i)) (pretty_nat_nonempty (S i))).
  - intros Heq%append_cancel. by apply (inj pretty).
Qed.

(** X14. generate_unique_username returns the first name that no user
    has among the part of the e-mail before '@' and that part followed by
    1, 2, ..., 99.  Only when all hundred are taken does it return the part
    followed by the number drawn between 1000 and 9999, without looking
    whether that name is taken.  The part followed by 100, which the loop
    builds last, is never returned. *)
Theorem generate_unique_username_first_free (randint : Z → Z → Z) (fuel : nat)
    (users : list string) (email : string) :
  (100 ≤ fuel)%nat →
  1000 ≤ randint 1000 9999 ≤ 9999 →
  let base := before "@"%char email in
  ∃ name,
    generate_unique_username randint fuel users email = Some name
    ∧ ((∃ i, (i < 100)%nat ∧ name = candidate base i ∧ (name ∉ users)
             ∧ ∀ j, (j < i)%nat → candidate base j ∈ users)
       ∨ ((∀ j, (j < 100)%nat → candidate base j ∈ users)
          ∧ ∃ drawn, 1000 ≤ drawn ≤ 9999 ∧ name = base +:+ pretty drawn))
    ∧ name ≠ base +:+ "100".
Proof.
  intros Hfuel Hdrawn base. unfold generate_unique_username. fold base.
  destruct (username_loop_first_free randint users base 99 fuel 0%nat)
    as (name & Hloop & Hname); [done|lia| |].
  { intros j Hj. lia. }
  exists name. split; [exact Hloop|]. split.
  - destruct Hname as [Hfirst|[Hall ->]]; [by left|]. right. split; [done|].
    by exists (randint 1000 9999).
  - destruct Hname as [(i & Hi & -> & _)|[_ ->]].
    + change (base +:+ "100") with (candidate base 100).
      intros Heq%candidate_inj. lia.
    + change "100" with (pretty 100). intros Heq%append_cancel.
      apply (inj pretty) in Heq. lia.
Qed.

Lemma generate_unique_username_first_free_witness :
  ∃ name,
    generate_unique_username (λ low high, low + 3711) 100 ["ann"; "ann1"; "bob"]
      "ann@example.org" = Some name
    ∧ name ≠ "ann100".
Proof.
  destruct (generate_unique_username_first_free (λ low high, low + 3711) 100
              ["ann"; "ann1"; "bob"] "ann@example.org") as (name & Hname & _ & Hnot);
    [lia|simpl; lia|].
  exists name. split; [exact Hname | exact Hnot].
Defined.

(** ** empty_trash *)

Lemma newest_first_sorted (ts : list Trash) : StronglySorted newer (newest_first ts).
Proof.
  apply StronglySorted_merge_sort.
  - intros a b c. unfold newer. lia.
  - intros a b. unfold newer. lia.
Qed.

Lemma empty_trash_completes (raises : Effect → bool) (request_user : UserId)
    (w w' : World) (n : nat) :
  for_count (trash_of request_user w) (empty_trash_item raises) 0%nat w = (Ok n, w') →
  empty_trash raises POST request_user w
  = (SuccessCount (length (trash_of request_user w)), w').
Proof.
  intros Hloop. pose proof (for_count_Ok _ _ _ _ _ _ Hloop) as ->.
  unfold empty_trash, try_except, mbind, M_bind, bind, query. by rewrite Hloop.
Qed.

(** One round of the loop on a Trash row that names the file [f]: the
    three calls in their order, each of which may fail. *)
Lemma empty_trash_item_run (raises : Effect → bool) (t : Trash) (f : File) (w : World) :
  NoDup (map file_id (files w)) → f ∈ files w → trash_file t = Some (file_id f) →
  empty_trash_item raises t w
  = if raises (DeleteBlob (file_file f)) then (Raise StorageError, w)
    else if raises (DeleteTrashRow (trash_id t))
    then (Raise DatabaseError, storage_delete (file_file f) w)
    else if raises (DeleteFileRow (file_id f))
    then (Raise DatabaseError,
          delete_trash_row (trash_id t) (storage_delete (file_file f) w))
    else (Ok tt, delete_file_row (file_id f)
                   (delete_trash_row (trash_id t) (storage_delete (file_file f) w))).
Proof.
  intros Hnd Hf Ht. unfold empty_trash_item, mbind, M_bind, bind.
  rewrite (trash_item_file_found t f w Hnd Hf Ht). unfold perform.
  destruct (raises (DeleteBlob (file_file f))); [done|].
  destruct (raises (DeleteTrashRow (trash_id t))); [done|].
  by destruct (raises (DeleteFileRow (file_id f))).
Qed.

Lemma empty_trash_loop (raises : Effect → bool) (items : list Trash) :
  ∀ c w,
  NoDup (map file_id (files w)) →
  (∀ t, t ∈ items → ∃ f, f ∈ files w ∧ trash_file t = Some (file_id f)
                         ∧ purge_fails raises t f = false) →
  NoDup (map trash_file items) →
  ∃ w', for_count items (empty_trash_item raises) c w = (Ok (c + length items)%nat, w')
        ∧ NoDup (map file_id (files w'))
        ∧ (∀ x, x ∈ trash w' ↔ x ∈ trash w ∧ (trash_id x ∉ map trash_id items)
                                ∧ (trash_file x ∉ map trash_file items))
        ∧ (∀ f, f ∈ files w' ↔ f ∈ files w ∧ Some (file_id f) ∉ map trash_file items).
Proof.
  induction items as [|t items IH]; intros c w Hnd Hfiles Hdistinct.
  - exists w. simpl. rewrite Nat.add_0_r. repeat split; try done.
    all: try (intros [? _]; done). all: try apply not_elem_of_nil.
  - destruct (Hfiles t) as (f & Hf & Ht & Hok); [left|].
    simpl in Hdistinct. apply NoDup_cons in Hdistinct as [Ht_fresh Hdistinct].
    unfold purge_fails in Hok. apply orb_false_iff in Hok as [Hok Hrow].
    apply orb_false_iff in Hok as [Hblob Hrecord].
    set (w1 := delete_file_row (file_id f)
                 (delete_trash_row (trash_id t) (storage_delete (file_file f) w))).
    destruct (IH (S c) w1) as (w' & Hrun & Hnd' & Htrash & Hrows); [| |done|].
    + simpl. eapply sublist_NoDup; [exact Hnd|]. apply fmap_sublist, sublist_filter.
    + intros t' Ht'. destruct (Hfiles t') as (f' & Hf' & Hfile' & Hok'); [by right|].
      exists f'. split; [|done]. simpl. apply list_elem_of_filter. split; [|done].
      intros Heq. apply Ht_fresh. rewrite Ht, <- Heq, <- Hfile'.
      by apply list_elem_of_fmap_2.
    + exists w'. simpl. unfold mbind, M_bind, bind.
      rewrite (empty_trash_item_run raises t f w Hnd Hf Ht), Hblob, Hrecord, Hrow.
      fold w1. rewrite Hrun.
      split; [do 2 f_equal; lia|]. split; [done|]. split.
      * intros x. rewrite Htrash. simpl. rewrite !list_elem_of_filter, !not_elem_of_cons, Ht.
        tauto.
      * intros r. rewrite Hrows. simpl. rewrite list_elem_of_filter, not_elem_of_cons, Ht.
        split; [intros [[Hne Hr] Hout]|intros [Hr [Hne Hout]]].
        -- split; [done|]. split; [congruence|done].
        -- split; [|done]. split; [congruence|done].
Qed.

(** C5 (amended). empty_trash goes through the Trash records of the user
    newest first.  For a user whose records each name an own file: when
    every purge goes through, the answer is the number of the records and
    none of them is left; when the purge of an item fails, the view stops
    there and answers with the error instead of a count, the items before
    it stay purged, the file row of the failing item stays, and the items
    after it are not attempted. *)
Theorem empty_trash_stops_at_first_failure (raises : Effect → bool) (u : UserId)
    (w : World) :
  let trash_items := trash_of u w in
  NoDup (map file_id (files w)) → NoDup (map trash_id (trash w)) →
  NoDup (map trash_file trash_items) →
  (∀ t, t ∈ trash_items → ∃ f, f ∈ files w ∧ trash_file t = Some (file_id f)) →
  ((∀ t f, t ∈ trash_items → f ∈ files w → trash_file t = Some (file_id f) →
           purge_fails raises t f = false) →
   ∃ w', empty_trash raises POST u w = (SuccessCount (length trash_items), w')
         ∧ (∀ x, x ∈ trash w' → trash_user x ≠ u)
         ∧ (∀ r, r ∈ files w' → Some (file_id r) ∉ map trash_file trash_items))
  ∧ (∀ pre t f post,
       trash_items = pre ++ t :: post →
       f ∈ files w → trash_file t = Some (file_id f) →
       (∀ t' f', t' ∈ pre → f' ∈ files w → trash_file t' = Some (file_id f') →
                 purge_fails raises t' f' = false) →
       purge_fails raises t f = true →
       ∃ e w', empty_trash raises POST u w = (Failure e, w')
               ∧ (∀ x, x ∈ pre → (x ∉ trash w')
                                 ∧ ∀ r, r ∈ files w' → trash_file x ≠ Some (file_id r))
               ∧ f ∈ files w'
               ∧ (∀ x, x ∈ post → x ∈ trash w'
                                  ∧ ∃ r, r ∈ files w' ∧ trash_file x = Some (file_id r))).
Proof.
  intros trash_items Hfiles Hkeys Hdistinct Hnamed. split.
  - intros Hok.
    destruct (empty_trash_loop raises trash_items 0%nat w Hfiles) as (w' & Hrun & _ & Htrash & Hrows);
      [|done|].
    { intros t Ht. destruct (Hnamed t Ht) as (f & Hf & Hfile). exists f. auto. }
    exists w'. split; [by apply (empty_trash_completes raises u w w' _ Hrun)|]. split.
    + intros x Hx Hu. apply Htrash in Hx as (Hx & Hid & _). apply Hid.
      apply list_elem_of_fmap_2. by apply trash_of_elem.
    + intros r Hr. by apply Hrows in Hr as [_ Hr].
  - intros pre t f post Hitems Hf Hfile Hpre Hfails.
    rewrite Hitems in Hdistinct, Hnamed.
    assert (Hids : NoDup (map trash_id (pre ++ t :: post))).
    { rewrite <- Hitems. unfold trash_items, trash_of. rewrite newest_first_perm.
      eapply sublist_NoDup; [exact Hkeys|]. apply fmap_sublist, sublist_filter. }
    rewrite fmap_app, fmap_cons in Hdistinct. rewrite fmap_app, fmap_cons in Hids.
    apply NoDup_app in Hdistinct as (Hpre_files & Hpre_other & Hrest_files).
    apply NoDup_app in Hids as (_ & Hpre_ids & Hrest_ids).
    apply NoDup_cons in Hrest_files as [Ht_file Hpost_files].
    apply NoDup_cons in Hrest_ids as [Ht_id Hpost_ids].
    destruct (empty_trash_loop raises pre 0%nat w Hfiles)
      as (w1 & Hrun & Hnd1 & Htrash & Hrows); [|done|].
    { intros x Hx. destruct (Hnamed x) as (r & Hr & Hx_file).
      { apply elem_of_app. by left. }
      exists r. split; [done|]. split; [done|]. by apply Hpre. }
    assert (Hf1 : f ∈ files w1).
    { apply Hrows. split; [done|]. rewrite <- Hfile. intros Hin.
      apply (Hpre_other _ Hin). left. }
    assert (Hstep : ∃ e w', empty_trash_item raises t w1 = (Raise e, w')
              ∧ files w' = files w1
              ∧ (∀ x, x ∈ trash w' → x ∈ trash w1)
              ∧ (∀ x, x ∈ trash w1 → trash_id x ≠ trash_id t → x ∈ trash w')).
    { rewrite (empty_trash_item_run raises t f w1 Hnd1 Hf1 Hfile).
      unfold purge_fails in Hfails.
      destruct (raises (DeleteBlob (file_file f))).
      { by eexists _, _. }
      destruct (raises (DeleteTrashRow (trash_id t))).
      { by eexists _, _. }
      destruct (raises (DeleteFileRow (file_id f))); [|done].
      eexists _, _. split; [done|]. split; [done|]. simpl. split.
      - intros x Hx. by apply list_elem_of_filter in Hx as [_ Hx].
      - intros x Hx Hne. by apply list_elem_of_filter. }
    destruct Hstep as (e & w' & Hstep & Hfiles' & Hsub & Hkept).
    exists e, w'. split.
    { unfold empty_trash, try_except, mbind, M_bind, bind, query.
      fold trash_items. rewrite Hitems.
      by rewrite (for_count_stops _ pre t post 0%nat _ w w1 w' e Hrun Hstep). }
    split; [|split].
    + intros x Hx. split.
      * intros Hin. apply Hsub in Hin. apply Htrash in Hin as (_ & Hid & _).
        apply Hid. by apply list_elem_of_fmap_2.
      * intros r Hr Heq. rewrite Hfiles' in Hr. apply Hrows in Hr as [_ Hout].
        apply Hout. rewrite <- Heq. by apply list_elem_of_fmap_2.
    + by rewrite Hfiles'.
    + intros x Hx.
      assert (Hx_id : trash_id x ∈ map trash_id post) by by apply list_elem_of_fmap_2.
      assert (Hx_file : trash_file x ∈ map trash_file post) by by apply list_elem_of_fmap_2.
      assert (Hx_items : x ∈ trash_items).
      { rewrite Hitems. apply elem_of_app. right. by right. }
      split.
      * apply Hkept.
        -- apply Htrash. split; [by apply trash_of_elem in Hx_items as [? _]|]. split.
           ++ intros Hin. apply (Hpre_ids _ Hin). by right.
           ++ intros Hin. apply (Hpre_other _ Hin). by right.
        -- intros Heq. apply Ht_id. by rewrite <- Heq.
      * destruct (Hnamed x) as (r & Hr & Hx_names).
        { apply elem_of_app. right. by right. }
        exists r. split; [|done]. rewrite Hfiles'. apply Hrows. split; [done|].
        rewrite <- Hx_names. intros Hin. apply (Hpre_other _ Hin). by right.
Qed.

Lemma empty_trash_stops_at_first_failure_witness :
  ∃ e w',
    empty_trash EmptyScenario.second_blob_fails POST 1%nat EmptyScenario.w = (Failure e, w')
    ∧ (EmptyScenario.record 2 4%nat 1002 ∉ trash w')
    ∧ EmptyScenario.file_obj 2%nat 400 ∈ files w'
    ∧ EmptyScenario.record 0 1%nat 1000 ∈ trash w'.
Proof.
  destruct (empty_trash_stops_at_first_failure EmptyScenario.second_blob_fails 1%nat
              EmptyScenario.w) as [_ Hstop].
  - apply (bool_decide_unpack _). by vm_compute.
  - apply (bool_decide_unpack _). by vm_compute.
  - apply (bool_decide_unpack _). by vm_compute.
  - intros t Ht. apply list_elem_of_In in Ht. vm_compute in Ht.
    destruct Ht as [<-|[<-|[<-|[]]]].
    + exists (EmptyScenario.file_obj 4%nat 300). split; [|reflexivity].
      apply list_elem_of_In. vm_compute. auto.
    + exists (EmptyScenario.file_obj 2%nat 400). split; [|reflexivity].
      apply list_elem_of_In. vm_compute. auto.
    + exists (EmptyScenario.file_obj 1%nat 300). split; [|reflexivity].
      apply list_elem_of_In. vm_compute. auto.
  - destruct (Hstop [EmptyScenario.record 2 4%nat 1002] (EmptyScenario.record 1 2%nat 1001)
                (EmptyScenario.file_obj 2%nat 400) [EmptyScenario.record 0 1%nat 1000])
      as (e & w' & Hrun & Hpre & Hfile & Hpost).
    + by vm_compute.
    + apply list_elem_of_In. vm_compute. auto.
    + reflexivity.
    + intros t' f' Ht' Hf' Hnames. apply list_elem_of_singleton in Ht' as ->.
      apply list_elem_of_In in Hf'. vm_compute in Hf'.
      destruct Hf' as [<-|[<-|[<-|[]]]]; [discriminate|discriminate|reflexivity].
    + reflexivity.
    + exists e, w'. split; [exact Hrun|]. split; [|split; [exact Hfile|]].
      * apply (Hpre (EmptyScenario.record 2 4%nat 1002)). left.
      * apply (Hpost (EmptyScenario.record 0 1%nat 1000)). left.
Defined.

(** The specified loop would go on after the failure on file 2, purge
    file 1 and report two successes; the view reports the failure and
    leaves file 1 in the trash, while file 4, which came first, is gone. *)
Lemma empty_trash_not_resilient :
  let view := empty_trash EmptyScenario.second_blob_fails POST 1%nat EmptyScenario.w in
  let spec := spec_empty_trash EmptyScenario.second_blob_fails 1%nat EmptyScenario.w in
  view ≠ spec ∧
  fst view = Failure StorageError ∧ map file_id (files view.2) = [1; 2]%nat ∧
  map trash_file (trash view.2) = [Some 1; Some 2]%nat ∧
  fst spec = SuccessCount 2 ∧ map file_id (files spec.2) = [2%nat] ∧
  map trash_file (trash spec.2) = [Some 2%nat].
Proof.
  split.
  - intros Heq. apply (f_equal fst) in Heq. vm_compute in Heq. discriminate.
  - vm_compute. repeat split.
Qed.

Example empty_trash_scenario :
  let '(r, w') := empty_trash no_faults POST 1%nat EmptyScenario.w in
  r = SuccessCount 3 ∧ files w' = [] ∧ trash w' = [] ∧
  Scenario.used EmptyScenario.w = [1000] ∧ Scenario.used w' = [1000].
Proof. vm_compute. repeat split. Qed.
